(** * fireworks.js: a shallow embedding of the particle simulator

    The script keeps all of its state in module-level variables and mutates
    it from callbacks (animation frames, timers, DOM events).  The embedding
    below makes that state an explicit record and every function a state
    transformer.

    Conventions.
    - JavaScript numbers are modelled by the rationals [Q] (exact arithmetic,
      no rounding); values produced by [Math.floor] / [Math.round] that are
      used as counts are kept in [Z].
    - JavaScript arrays are lists in index order: [push] appends at the end,
      [pop] removes the last element, [splice(i,1)] deletes index [i].
    - The host's [Math.random], [Math.pow], [Math.cos], [Math.sin] and
      [Math.PI] are parameters of the development.  [Math.random] is an
      infinite sequence of future results; the state records how many of
      them were consumed.
    - Canvas drawing commands have no effect on the simulator state and are
      left out; the assignments to entity fields made while drawing
      ([px], [py]) are kept. *)

From Stdlib Require Import QArith Qround Qminmax Qabs Lqa Lia ZArith Bool.
From stdpp Require Import list.

Local Open Scope Q_scope.

(** ** Numbers *)

Definition Qltb (a b : Q) : bool := negb (Qle_bool b a).

Definition Math_floor (x : Q) : Z := Qfloor x.

(** [Math.round] rounds half-way cases up. *)
Definition Math_round (x : Q) : Z := Qfloor (x + 0.5).

(** JavaScript's [%] on numbers: the remainder has the sign of the dividend. *)
Definition Qtrunc (x : Q) : Z :=
  if Qle_bool 0 x then Qfloor x else Qceiling x.

Definition js_mod (a b : Q) : Q := a - b * inject_Z (Qtrunc (a / b)).

Definition lerp (a b t : Q) : Q := a + (b - a) * t.

Definition clamp (n lo hi : Q) : Q := Qmax lo (Qmin hi n).

Definition clampZ (n lo hi : Z) : Z := Z.max lo (Z.min hi n).

(** ** Arrays *)

Definition push {A} (l : list A) (x : A) : list A := l ++ [x].

Definition pop {A} (l : list A) : option (A * list A) :=
  match rev l with
  | [] => None
  | x :: r => Some (x, rev r)
  end.

(** [l.splice(i, 1)] *)
Definition splice1 {A} (i : nat) (l : list A) : list A := delete i l.

(** ** Configuration *)

Definition LOWER_LINE_TARGET_FIREWORKS : Q := 0.45.
Definition UPPER_LINE_TARGET_FIREWORKS : Q := 0.75.
Definition gravity : Q := 650.
Definition airDrag : Q := 0.0009.
Definition BASE_MAX_ROCKETS : Z := 2.
Definition BASE_MAX_PARTICLES : Z := 50.
Definition BASE_MAX_SMOKE : Z := 28.
Definition IGNORE_CLICKS_MS : Q := 600.
Definition RESUME_IGNORE_CLICKS_MS : Q := 250.
Definition AUTO_BASE_DESKTOP : Q := 1050.
Definition AUTO_BASE_MOBILE : Q := 1600.
Definition TARGET_FPS : Q := 60.
Definition MIN_QUALITY : Q := 0.55.
Definition MAX_QUALITY : Q := 1.
Definition FPS_EMA : Q := 0.08.
Definition QUALITY_EMA : Q := 0.045.
Definition RESIZE_CHECK_MS : Q := 1200.

(** ** Entities *)

Inductive BurstKind := Peony | Ring | Palm | Crackle.

Inductive ParticleKind := Spark | Ember | CrackleSpark | Comet.

Module Rocket.
Record t := mk {
  x : Q;
  y : Q;
  px : Q;
  py : Q;
  vx : Q;
  vy : Q;
  targetY : Q;
  hue : Q;
  wind : Q;
  kind : BurstKind;
  breakDelay : Q;
  broke : bool
}.

(** Field assignments [r.f = v]. *)
Definition set_x (v : Q) (o : t) : t :=
  mk v (y o) (px o) (py o) (vx o) (vy o) (targetY o) (hue o) (wind o) (kind o) (breakDelay o) (broke o).
Definition set_y (v : Q) (o : t) : t :=
  mk (x o) v (px o) (py o) (vx o) (vy o) (targetY o) (hue o) (wind o) (kind o) (breakDelay o) (broke o).
Definition set_px (v : Q) (o : t) : t :=
  mk (x o) (y o) v (py o) (vx o) (vy o) (targetY o) (hue o) (wind o) (kind o) (breakDelay o) (broke o).
Definition set_py (v : Q) (o : t) : t :=
  mk (x o) (y o) (px o) v (vx o) (vy o) (targetY o) (hue o) (wind o) (kind o) (breakDelay o) (broke o).
Definition set_vx (v : Q) (o : t) : t :=
  mk (x o) (y o) (px o) (py o) v (vy o) (targetY o) (hue o) (wind o) (kind o) (breakDelay o) (broke o).
Definition set_vy (v : Q) (o : t) : t :=
  mk (x o) (y o) (px o) (py o) (vx o) v (targetY o) (hue o) (wind o) (kind o) (breakDelay o) (broke o).
Definition set_targetY (v : Q) (o : t) : t :=
  mk (x o) (y o) (px o) (py o) (vx o) (vy o) v (hue o) (wind o) (kind o) (breakDelay o) (broke o).
Definition set_hue (v : Q) (o : t) : t :=
  mk (x o) (y o) (px o) (py o) (vx o) (vy o) (targetY o) v (wind o) (kind o) (breakDelay o) (broke o).
Definition set_wind (v : Q) (o : t) : t :=
  mk (x o) (y o) (px o) (py o) (vx o) (vy o) (targetY o) (hue o) v (kind o) (breakDelay o) (broke o).
Definition set_kind (v : BurstKind) (o : t) : t :=
  mk (x o) (y o) (px o) (py o) (vx o) (vy o) (targetY o) (hue o) (wind o) v (breakDelay o) (broke o).
Definition set_breakDelay (v : Q) (o : t) : t :=
  mk (x o) (y o) (px o) (py o) (vx o) (vy o) (targetY o) (hue o) (wind o) (kind o) v (broke o).
Definition set_broke (v : bool) (o : t) : t :=
  mk (x o) (y o) (px o) (py o) (vx o) (vy o) (targetY o) (hue o) (wind o) (kind o) (breakDelay o) v.
End Rocket.

Module Particle.
Record t := mk {
  x : Q;
  y : Q;
  px : Q;
  py : Q;
  vx : Q;
  vy : Q;
  life : Q;
  maxLife : Q;
  size : Q;
  hue : Q;
  kind : ParticleKind;
  twPhase : Q;
  twAmp : Q;
  dragMul : Q;
  gravMul : Q;
  windMul : Q;
  crackleTimer : Q;
  heat : Q
}.

(** Field assignments [r.f = v]. *)
Definition set_x (v : Q) (o : t) : t :=
  mk v (y o) (px o) (py o) (vx o) (vy o) (life o) (maxLife o) (size o) (hue o) (kind o) (twPhase o) (twAmp o) (dragMul o) (gravMul o) (windMul o) (crackleTimer o) (heat o).
Definition set_y (v : Q) (o : t) : t :=
  mk (x o) v (px o) (py o) (vx o) (vy o) (life o) (maxLife o) (size o) (hue o) (kind o) (twPhase o) (twAmp o) (dragMul o) (gravMul o) (windMul o) (crackleTimer o) (heat o).
Definition set_px (v : Q) (o : t) : t :=
  mk (x o) (y o) v (py o) (vx o) (vy o) (life o) (maxLife o) (size o) (hue o) (kind o) (twPhase o) (twAmp o) (dragMul o) (gravMul o) (windMul o) (crackleTimer o) (heat o).
Definition set_py (v : Q) (o : t) : t :=
  mk (x o) (y o) (px o) v (vx o) (vy o) (life o) (maxLife o) (size o) (hue o) (kind o) (twPhase o) (twAmp o) (dragMul o) (gravMul o) (windMul o) (crackleTimer o) (heat o).
Definition set_vx (v : Q) (o : t) : t :=
  mk (x o) (y o) (px o) (py o) v (vy o) (life o) (maxLife o) (size o) (hue o) (kind o) (twPhase o) (twAmp o) (dragMul o) (gravMul o) (windMul o) (crackleTimer o) (heat o).
Definition set_vy (v : Q) (o : t) : t :=
  mk (x o) (y o) (px o) (py o) (vx o) v (life o) (maxLife o) (size o) (hue o) (kind o) (twPhase o) (twAmp o) (dragMul o) (gravMul o) (windMul o) (crackleTimer o) (heat o).
Definition set_life (v : Q) (o : t) : t :=
  mk (x o) (y o) (px o) (py o) (vx o) (vy o) v (maxLife o) (size o) (hue o) (kind o) (twPhase o) (twAmp o) (dragMul o) (gravMul o) (windMul o) (crackleTimer o) (heat o).
Definition set_maxLife (v : Q) (o : t) : t :=
  mk (x o) (y o) (px o) (py o) (vx o) (vy o) (life o) v (size o) (hue o) (kind o) (twPhase o) (twAmp o) (dragMul o) (gravMul o) (windMul o) (crackleTimer o) (heat o).
Definition set_size (v : Q) (o : t) : t :=
  mk (x o) (y o) (px o) (py o) (vx o) (vy o) (life o) (maxLife o) v (hue o) (kind o) (twPhase o) (twAmp o) (dragMul o) (gravMul o) (windMul o) (crackleTimer o) (heat o).
Definition set_hue (v : Q) (o : t) : t :=
  mk (x o) (y o) (px o) (py o) (vx o) (vy o) (life o) (maxLife o) (size o) v (kind o) (twPhase o) (twAmp o) (dragMul o) (gravMul o) (windMul o) (crackleTimer o) (heat o).
Definition set_kind (v : ParticleKind) (o : t) : t :=
  mk (x o) (y o) (px o) (py o) (vx o) (vy o) (life o) (maxLife o) (size o) (hue o) v (twPhase o) (twAmp o) (dragMul o) (gravMul o) (windMul o) (crackleTimer o) (heat o).
Definition set_twPhase (v : Q) (o : t) : t :=
  mk (x o) (y o) (px o) (py o) (vx o) (vy o) (life o) (maxLife o) (size o) (hue o) (kind o) v (twAmp o) (dragMul o) (gravMul o) (windMul o) (crackleTimer o) (heat o).
Definition set_twAmp (v : Q) (o : t) : t :=
  mk (x o) (y o) (px o) (py o) (vx o) (vy o) (life o) (maxLife o) (size o) (hue o) (kind o) (twPhase o) v (dragMul o) (gravMul o) (windMul o) (crackleTimer o) (heat o).
Definition set_dragMul (v : Q) (o : t) : t :=
  mk (x o) (y o) (px o) (py o) (vx o) (vy o) (life o) (maxLife o) (size o) (hue o) (kind o) (twPhase o) (twAmp o) v (gravMul o) (windMul o) (crackleTimer o) (heat o).
Definition set_gravMul (v : Q) (o : t) : t :=
  mk (x o) (y o) (px o) (py o) (vx o) (vy o) (life o) (maxLife o) (size o) (hue o) (kind o) (twPhase o) (twAmp o) (dragMul o) v (windMul o) (crackleTimer o) (heat o).
Definition set_windMul (v : Q) (o : t) : t :=
  mk (x o) (y o) (px o) (py o) (vx o) (vy o) (life o) (maxLife o) (size o) (hue o) (kind o) (twPhase o) (twAmp o) (dragMul o) (gravMul o) v (crackleTimer o) (heat o).
Definition set_crackleTimer (v : Q) (o : t) : t :=
  mk (x o) (y o) (px o) (py o) (vx o) (vy o) (life o) (maxLife o) (size o) (hue o) (kind o) (twPhase o) (twAmp o) (dragMul o) (gravMul o) (windMul o) v (heat o).
Definition set_heat (v : Q) (o : t) : t :=
  mk (x o) (y o) (px o) (py o) (vx o) (vy o) (life o) (maxLife o) (size o) (hue o) (kind o) (twPhase o) (twAmp o) (dragMul o) (gravMul o) (windMul o) (crackleTimer o) v.
End Particle.

Module Smoke.
Record t := mk {
  x : Q;
  y : Q;
  vx : Q;
  vy : Q;
  life : Q;
  maxLife : Q;
  r : Q;
  a : Q
}.

(** Field assignments [r.f = v]. *)
Definition set_x (v : Q) (o : t) : t :=
  mk v (y o) (vx o) (vy o) (life o) (maxLife o) (r o) (a o).
Definition set_y (v : Q) (o : t) : t :=
  mk (x o) v (vx o) (vy o) (life o) (maxLife o) (r o) (a o).
Definition set_vx (v : Q) (o : t) : t :=
  mk (x o) (y o) v (vy o) (life o) (maxLife o) (r o) (a o).
Definition set_vy (v : Q) (o : t) : t :=
  mk (x o) (y o) (vx o) v (life o) (maxLife o) (r o) (a o).
Definition set_life (v : Q) (o : t) : t :=
  mk (x o) (y o) (vx o) (vy o) v (maxLife o) (r o) (a o).
Definition set_maxLife (v : Q) (o : t) : t :=
  mk (x o) (y o) (vx o) (vy o) (life o) v (r o) (a o).
Definition set_r (v : Q) (o : t) : t :=
  mk (x o) (y o) (vx o) (vy o) (life o) (maxLife o) v (a o).
Definition set_a (v : Q) (o : t) : t :=
  mk (x o) (y o) (vx o) (vy o) (life o) (maxLife o) (r o) v.
End Smoke.

(** The object literals of [allocRocket], [baseParticle] and [allocSmoke]. *)
Definition freshRocket : Rocket.t :=
  Rocket.mk 0 0 0 0 0 0 0 0 0 Peony 0 false.

Definition baseParticle : Particle.t :=
  Particle.mk 0 0 0 0 0 0 60 60 1.6 0 Spark 0 1 1 1 1 0 1.

Definition freshSmoke : Smoke.t :=
  Smoke.mk 0 0 0 0 60 60 28 0.12.

(** ** State *)

(** What the script reads from its host page. *)
Record Host := mkHost {
  rectWidth : Q;            (* hero.getBoundingClientRect().width *)
  rectHeight : Q;
  innerWidth : Q;           (* window.innerWidth *)
  innerHeight : Q;
  devicePixelRatio : Q;     (* window.devicePixelRatio; 0 stands for a falsy value *)
  now : Q;                  (* performance.now() *)
  sfxEnabled : bool;        (* window.sfxEnabled *)
  smokeSprite : bool        (* the sprite canvas got a 2D context *)
}.

Record Perf := mkPerf {
  fpsSmoothed : Q;
  quality : Q;
  lastQualityTs : Q;
  lastResizeQualityCheck : Q
}.

Record View := mkView { w : Q; h : Q; dpr : Q }.

Record Loop := mkLoop {
  running : bool;
  inited : bool;
  stepRafId : option nat;
  launchRafId : option nat;
  rafCounter : nat;          (* handles given out by requestAnimationFrame *)
  lastTs : option Q;
  lastLaunch : Q;
  ignoreClicksUntil : Q;
  smokeParity : Z;
  currentWind : Q
}.

Record Ents := mkEnts {
  rockets : list Rocket.t;
  particles : list Particle.t;
  smokePuffs : list Smoke.t;
  rocketPool : list Rocket.t;
  particlePool : list Particle.t;
  smokePool : list Smoke.t
}.

Record Sfx := mkSfx {
  popIndex : nat;
  audioUnlocked : bool;
  lastPopMs : Q;
  popsPlayed : nat           (* number of [a.play()] requests issued by playPop *)
}.

(** Callbacks handed to [setTimeout]. *)
Inductive TimerAction :=
| CelebrateBurst (fx fy : Q)
    (* () => burst(w * fx, h * fy) *)
| SecondaryBreak (x y dx dy hue : Q).
    (* the closure created by explodeBurst *)

Record Timer := mkTimer { delay : Z; action : TimerAction }.

Record State := mkState {
  host : Host;
  perf : Perf;
  view : View;
  loop : Loop;
  ents : Ents;
  sfx : Sfx;
  timers : list Timer;
  rpos : nat                 (* results of Math.random consumed so far *)
}.

Definition set_host (f : Host -> Host) (s : State) : State :=
  mkState (f (host s)) (perf s) (view s) (loop s) (ents s) (sfx s) (timers s) (rpos s).
Definition set_perf (f : Perf -> Perf) (s : State) : State :=
  mkState (host s) (f (perf s)) (view s) (loop s) (ents s) (sfx s) (timers s) (rpos s).
Definition set_view (f : View -> View) (s : State) : State :=
  mkState (host s) (perf s) (f (view s)) (loop s) (ents s) (sfx s) (timers s) (rpos s).
Definition set_loop (f : Loop -> Loop) (s : State) : State :=
  mkState (host s) (perf s) (view s) (f (loop s)) (ents s) (sfx s) (timers s) (rpos s).
Definition set_ents (f : Ents -> Ents) (s : State) : State :=
  mkState (host s) (perf s) (view s) (loop s) (f (ents s)) (sfx s) (timers s) (rpos s).
Definition set_sfx (f : Sfx -> Sfx) (s : State) : State :=
  mkState (host s) (perf s) (view s) (loop s) (ents s) (f (sfx s)) (timers s) (rpos s).
Definition set_timers (f : list Timer -> list Timer) (s : State) : State :=
  mkState (host s) (perf s) (view s) (loop s) (ents s) (sfx s) (f (timers s)) (rpos s).
Definition set_rpos (f : nat -> nat) (s : State) : State :=
  mkState (host s) (perf s) (view s) (loop s) (ents s) (sfx s) (timers s) (f (rpos s)).

Definition set_rockets (f : list Rocket.t -> list Rocket.t) : State -> State :=
  set_ents (fun e => mkEnts (f (rockets e)) (particles e) (smokePuffs e)
                            (rocketPool e) (particlePool e) (smokePool e)).
Definition set_particles (f : list Particle.t -> list Particle.t) : State -> State :=
  set_ents (fun e => mkEnts (rockets e) (f (particles e)) (smokePuffs e)
                            (rocketPool e) (particlePool e) (smokePool e)).
Definition set_smokePuffs (f : list Smoke.t -> list Smoke.t) : State -> State :=
  set_ents (fun e => mkEnts (rockets e) (particles e) (f (smokePuffs e))
                            (rocketPool e) (particlePool e) (smokePool e)).
Definition set_rocketPool (f : list Rocket.t -> list Rocket.t) : State -> State :=
  set_ents (fun e => mkEnts (rockets e) (particles e) (smokePuffs e)
                            (f (rocketPool e)) (particlePool e) (smokePool e)).
Definition set_particlePool (f : list Particle.t -> list Particle.t) : State -> State :=
  set_ents (fun e => mkEnts (rockets e) (particles e) (smokePuffs e)
                            (rocketPool e) (f (particlePool e)) (smokePool e)).
Definition set_smokePool (f : list Smoke.t -> list Smoke.t) : State -> State :=
  set_ents (fun e => mkEnts (rockets e) (particles e) (smokePuffs e)
                            (rocketPool e) (particlePool e) (f (smokePool e))).


(** Assignments to the module-level variables. *)
Definition with_fpsSmoothed (v : Q) (o : Perf) : Perf :=
  mkPerf v (quality o) (lastQualityTs o) (lastResizeQualityCheck o).
Definition with_quality (v : Q) (o : Perf) : Perf :=
  mkPerf (fpsSmoothed o) v (lastQualityTs o) (lastResizeQualityCheck o).
Definition with_lastQualityTs (v : Q) (o : Perf) : Perf :=
  mkPerf (fpsSmoothed o) (quality o) v (lastResizeQualityCheck o).
Definition with_lastResizeQualityCheck (v : Q) (o : Perf) : Perf :=
  mkPerf (fpsSmoothed o) (quality o) (lastQualityTs o) v.
Definition with_w (v : Q) (o : View) : View :=
  mkView v (h o) (dpr o).
Definition with_h (v : Q) (o : View) : View :=
  mkView (w o) v (dpr o).
Definition with_dpr (v : Q) (o : View) : View :=
  mkView (w o) (h o) v.
Definition with_running (v : bool) (o : Loop) : Loop :=
  mkLoop v (inited o) (stepRafId o) (launchRafId o) (rafCounter o) (lastTs o) (lastLaunch o) (ignoreClicksUntil o) (smokeParity o) (currentWind o).
Definition with_inited (v : bool) (o : Loop) : Loop :=
  mkLoop (running o) v (stepRafId o) (launchRafId o) (rafCounter o) (lastTs o) (lastLaunch o) (ignoreClicksUntil o) (smokeParity o) (currentWind o).
Definition with_stepRafId (v : option nat) (o : Loop) : Loop :=
  mkLoop (running o) (inited o) v (launchRafId o) (rafCounter o) (lastTs o) (lastLaunch o) (ignoreClicksUntil o) (smokeParity o) (currentWind o).
Definition with_launchRafId (v : option nat) (o : Loop) : Loop :=
  mkLoop (running o) (inited o) (stepRafId o) v (rafCounter o) (lastTs o) (lastLaunch o) (ignoreClicksUntil o) (smokeParity o) (currentWind o).
Definition with_rafCounter (v : nat) (o : Loop) : Loop :=
  mkLoop (running o) (inited o) (stepRafId o) (launchRafId o) v (lastTs o) (lastLaunch o) (ignoreClicksUntil o) (smokeParity o) (currentWind o).
Definition with_lastTs (v : option Q) (o : Loop) : Loop :=
  mkLoop (running o) (inited o) (stepRafId o) (launchRafId o) (rafCounter o) v (lastLaunch o) (ignoreClicksUntil o) (smokeParity o) (currentWind o).
Definition with_lastLaunch (v : Q) (o : Loop) : Loop :=
  mkLoop (running o) (inited o) (stepRafId o) (launchRafId o) (rafCounter o) (lastTs o) v (ignoreClicksUntil o) (smokeParity o) (currentWind o).
Definition with_ignoreClicksUntil (v : Q) (o : Loop) : Loop :=
  mkLoop (running o) (inited o) (stepRafId o) (launchRafId o) (rafCounter o) (lastTs o) (lastLaunch o) v (smokeParity o) (currentWind o).
Definition with_smokeParity (v : Z) (o : Loop) : Loop :=
  mkLoop (running o) (inited o) (stepRafId o) (launchRafId o) (rafCounter o) (lastTs o) (lastLaunch o) (ignoreClicksUntil o) v (currentWind o).
Definition with_currentWind (v : Q) (o : Loop) : Loop :=
  mkLoop (running o) (inited o) (stepRafId o) (launchRafId o) (rafCounter o) (lastTs o) (lastLaunch o) (ignoreClicksUntil o) (smokeParity o) v.
Definition with_popIndex (v : nat) (o : Sfx) : Sfx :=
  mkSfx v (audioUnlocked o) (lastPopMs o) (popsPlayed o).
Definition with_audioUnlocked (v : bool) (o : Sfx) : Sfx :=
  mkSfx (popIndex o) v (lastPopMs o) (popsPlayed o).
Definition with_lastPopMs (v : Q) (o : Sfx) : Sfx :=
  mkSfx (popIndex o) (audioUnlocked o) v (popsPlayed o).
Definition with_popsPlayed (v : nat) (o : Sfx) : Sfx :=
  mkSfx (popIndex o) (audioUnlocked o) (lastPopMs o) v.

(** ** A state monad for the callbacks *)

Definition M (A : Type) : Type := State -> A * State.

Definition ret {A} (a : A) : M A := fun s => (a, s).

Definition bind {A B} (m : M A) (k : A -> M B) : M B :=
  fun s => let r := m s in k (fst r) (snd r).

Definition gets {A} (f : State -> A) : M A := fun s => (f s, s).

Definition modify (f : State -> State) : M unit := fun s => (tt, f s).

Definition exec {A} (m : M A) (s : State) : State := snd (m s).

Notation "x <- m ;; k" := (bind m (fun x => k))
  (at level 100, m at next level, right associativity).
Notation "m ;;; k" := (bind m (fun _ => k))
  (at level 100, right associativity).

Definition when (b : bool) (m : M unit) : M unit :=
  if b then m else ret tt.

(** ** Loops

    [for (let i = 0; i < n; i++) body(i)] and
    [for (let i = n - 1; i >= 0; i--) body(i)]. *)

Fixpoint for_from (i n : nat) (body : nat -> State -> State) (s : State) : State :=
  match n with
  | O => s
  | S n' => for_from (S i) n' body (body i s)
  end.

Definition for_loop (n : nat) (body : nat -> State -> State) : State -> State :=
  for_from 0 n body.

Fixpoint down_loop (n : nat) (body : nat -> State -> State) (s : State) : State :=
  match n with
  | O => s
  | S i => down_loop i body (body i s)
  end.

(** ** The script *)

Section Fireworks.

(** The host's [Math] object. *)
Variable Math_random : nat -> Q.
Variable Math_pow : Q -> Q -> Q.
Variable Math_cos : Q -> Q.
Variable Math_sin : Q -> Q.
Variable Math_PI : Q.

Definition random : M Q :=
  fun s => (Math_random (rpos s), set_rpos S s).

Definition rand (min max : Q) : M Q :=
  r <- random ;; ret (r * (max - min) + min).

Definition nowMs (s : State) : Q := now (host s).

Definition randomHue : M Q := rand 0 360.

(** *** Adaptive quality governor *)

Definition qualityFromFps (fps : Q) : Q :=
  let ratio := clamp (fps / TARGET_FPS) 0 1 in
  let shaped := Math_pow ratio 0.78 in
  clamp shaped MIN_QUALITY MAX_QUALITY.

Definition maxRocketsCap (s : State) : Z :=
  let q := quality (perf s) in
  let v := Math_round (inject_Z BASE_MAX_ROCKETS * lerp 0.62 1.0 q) in
  clampZ v 1 BASE_MAX_ROCKETS.

Definition maxParticlesCap (s : State) : Z :=
  let q := quality (perf s) in
  let v := Math_floor (inject_Z BASE_MAX_PARTICLES * lerp 0.55 1.0 q) in
  clampZ v 22 BASE_MAX_PARTICLES.

Definition maxSmokeCap (s : State) : Z :=
  let q := quality (perf s) in
  let v := Math_floor (inject_Z BASE_MAX_SMOKE * lerp 0.55 1.0 q) in
  clampZ v 10 BASE_MAX_SMOKE.

Definition smokeParityEnabled (s : State) : bool :=
  Qltb (quality (perf s)) 0.92.

Definition launchQualityFactor (s : State) : Q :=
  lerp 0.78 1.0 (quality (perf s)).

(** *** Rendering parameters *)

Definition FADE_ALPHA_BASE : Q := 0.26.
Definition BLOOM_BASE : Q := 7.
Definition BLOOM_MOBILE_SCALE : Q := 0.70.

Definition fadeAlpha (s : State) : Q :=
  clamp (FADE_ALPHA_BASE + (1 - quality (perf s)) * 0.10) 0.22 0.38.

Definition bloomAmount (s : State) : Q :=
  let mobile := Qltb (w (view s)) 600 in
  let base := BLOOM_BASE * (if mobile then BLOOM_MOBILE_SCALE else 1) in
  base * lerp 0.55 1.0 (quality (perf s)).

(** What [drawSmoke] hands to the canvas: the opacity and the half-size of
    the sprite, or nothing when it returns early. *)
Definition drawSmoke (sprite : bool) (p : Smoke.t) : option (Q * Q) :=
  if negb sprite then None
  else
    let t := Smoke.life p / Smoke.maxLife p in
    if Qle_bool t 0 then None
    else
      let a := Smoke.a p * t in
      if Qle_bool a 0.002 then None
      else
        let rr := Smoke.r p * (1.0 + (1 - t) * 0.9) in
        Some (a, rr).

(** *** Loops, sizing *)

Definition stopLoops : State -> State :=
  set_loop (fun l => with_launchRafId None (with_stepRafId None l)).

Definition requestAnimationFrame : M nat :=
  fun s => (rafCounter (loop s),
            set_loop (fun l => with_rafCounter (S (rafCounter l)) l) s).

Definition startLoops (s : State) : State :=
  exec (id1 <- requestAnimationFrame ;;
        modify (set_loop (with_stepRafId (Some id1))) ;;;
        id2 <- requestAnimationFrame ;;
        modify (set_loop (with_launchRafId (Some id2))))
       (stopLoops s).

Definition safeHeroRect (s : State) : Q * Q :=
  let width := if Qltb 2 (rectWidth (host s))
               then rectWidth (host s) else innerWidth (host s) in
  let height := if Qltb 2 (rectHeight (host s))
                then rectHeight (host s) else innerHeight (host s) in
  (width, height).

Definition computeDprCap (width : Q) (s : State) : Q :=
  let baseCap := if Qltb width 600 then 1.10 else 1.35 in
  let scaled := baseCap * lerp 0.74 1.0 (quality (perf s)) in
  clamp scaled 1.0 baseCap.

Definition resize (s : State) : State :=
  let rect := safeHeroRect s in
  let nativeDpr := if Qeq_bool (devicePixelRatio (host s)) 0
                   then 1 else devicePixelRatio (host s) in
  let dprCap := computeDprCap (fst rect) s in
  set_view (fun _ => mkView (inject_Z (Math_floor (fst rect)))
                            (inject_Z (Math_floor (snd rect)))
                            (Qmin dprCap nativeDpr)) s.

Definition qualityWind : M Q := rand (-16) 16.

(** *** Pop sound *)

Definition unlockSfxOnce (s : State) : State :=
  if audioUnlocked (sfx s) then s
  else set_sfx (with_audioUnlocked true) s.

Definition playPop (s : State) : State :=
  if negb (audioUnlocked (sfx s)) || negb (sfxEnabled (host s)) then s
  else
    let now := nowMs s in
    if Qltb (now - lastPopMs (sfx s)) 120 then s
    else
      exec (modify (set_sfx (with_lastPopMs now)) ;;;
            modify (set_sfx (fun x => with_popIndex (S (popIndex x) mod 2)%nat x)) ;;;
            _rate <- rand 0.92 1.08 ;;
            modify (set_sfx (fun x => with_popsPlayed (S (popsPlayed x)) x))) s.

(** *** Entity alloc/recycle (pools) *)

Definition allocRocket : M Rocket.t :=
  fun s => match pop (rocketPool (ents s)) with
           | Some (r, rest) => (r, set_rocketPool (fun _ => rest) s)
           | None => (freshRocket, s)
           end.

Definition freeRocket (r : Rocket.t) : State -> State :=
  set_rocketPool (fun l => push l r).

Definition allocParticle : M Particle.t :=
  fun s => match pop (particlePool (ents s)) with
           | Some (p, rest) => (p, set_particlePool (fun _ => rest) s)
           | None => (baseParticle, s)
           end.

Definition freeParticle (p : Particle.t) : State -> State :=
  set_particlePool (fun l => push l p).

Definition allocSmoke : M Smoke.t :=
  fun s => match pop (smokePool (ents s)) with
           | Some (p, rest) => (p, set_smokePool (fun _ => rest) s)
           | None => (freshSmoke, s)
           end.

Definition freeSmoke (p : Smoke.t) : State -> State :=
  set_smokePool (fun l => push l p).

(** *** Spawning *)

Definition chooseBurstKind : M BurstKind :=
  r <- random ;;
  ret (if Qltb r 0.52 then Peony
       else if Qltb r 0.72 then Ring
       else if Qltb r 0.88 then Palm
       else Crackle).

Definition len {A} (l : list A) : Z := Z.of_nat (length l).

Definition spawnRocket (x : option Q) (s : State) : State :=
  if (len (rockets (ents s)) >=? maxRocketsCap s)%Z then s
  else if Qltb (w (view s)) 10 || Qltb (h (view s)) 10 then s
  else
    exec (r <- allocRocket ;;
          hue <- randomHue ;;
          startX <- match x with
                    | Some v => ret v
                    | None => rand (w (view s) * 0.15) (w (view s) * 0.85)
                    end ;;
          let startY := h (view s) + 10 in
          speed <- rand 900 1200 ;;
          vx <- rand (-80) 80 ;;
          let vy := - speed in
          targetY <- rand (h (view s) * LOWER_LINE_TARGET_FIREWORKS)
                          (h (view s) * UPPER_LINE_TARGET_FIREWORKS) ;;
          let r := Rocket.set_x startX r in
          let r := Rocket.set_y startY r in
          let r := Rocket.set_px startX r in
          let r := Rocket.set_py startY r in
          let r := Rocket.set_vx vx r in
          let r := Rocket.set_vy vy r in
          let r := Rocket.set_targetY targetY r in
          let r := Rocket.set_hue hue r in
          let r := Rocket.set_wind (currentWind (loop s)) r in
          k <- chooseBurstKind ;;
          let r := Rocket.set_kind k r in
          bd <- rand 0.06 0.14 ;;
          let r := Rocket.set_breakDelay bd r in
          let r := Rocket.set_broke false r in
          modify (set_rockets (fun l => push l r))) s.

Definition roomForParticles (s : State) : Z :=
  Z.max 0 (maxParticlesCap s - len (particles (ents s))).

Definition pushParticle (p : Particle.t) (s : State) : State :=
  if (len (particles (ents s)) >=? maxParticlesCap s)%Z
  then freeParticle p s
  else set_particles (fun l => push l p) s.

Definition makeParticle (x y vx vy life size hue : Q) (kind : ParticleKind)
  : M Particle.t :=
  p <- allocParticle ;;
  let p := Particle.set_x x p in
  let p := Particle.set_y y p in
  let p := Particle.set_px x p in
  let p := Particle.set_py y p in
  let p := Particle.set_vx vx p in
  let p := Particle.set_vy vy p in
  let p := Particle.set_life life p in
  let p := Particle.set_maxLife life p in
  let p := Particle.set_size size p in
  let p := Particle.set_hue hue p in
  let p := Particle.set_kind kind p in
  twPhase <- rand 0 (Math_PI * 2) ;;
  let p := Particle.set_twPhase twPhase p in
  twAmp <- rand 0.85 1.15 ;;
  let p := Particle.set_twAmp twAmp p in
  dragMul <- rand 0.92 1.10 ;;
  let p := Particle.set_dragMul dragMul p in
  gravMul <- rand 0.92 1.08 ;;
  let p := Particle.set_gravMul gravMul p in
  windMul <- rand 0.85 1.15 ;;
  let p := Particle.set_windMul windMul p in
  crackleTimer <- rand 0.02 0.07 ;;
  let p := Particle.set_crackleTimer crackleTimer p in
  heat <- rand 0.85 1.15 ;;
  let p := Particle.set_heat heat p in
  ret p.

Definition spawnSmoke (x y : Q) (st : State) : State :=
  if negb (smokeSprite (host st)) then st
  else if (len (smokePuffs (ents st)) >=? maxSmokeCap st)%Z then st
  else
    exec (s <- allocSmoke ;;
          let s := Smoke.set_x x s in
          let s := Smoke.set_y y s in
          vx <- rand (-8) 8 ;;
          let s := Smoke.set_vx vx s in
          vy <- rand (-10) (-2) ;;
          let s := Smoke.set_vy vy s in
          life <- rand 50 80 ;;
          let s := Smoke.set_life life s in
          let s := Smoke.set_maxLife (Smoke.life s) s in
          r <- rand 22 44 ;;
          let s := Smoke.set_r r s in
          a <- rand 0.06 0.12 ;;
          let s := Smoke.set_a a s in
          modify (set_smokePuffs (fun l => push l s))) st.


(** *** Bursts *)

Definition peonySpark (x y hue : Q) : State -> State :=
  exec (ang <- rand 0 (Math_PI * 2) ;;
        sp1 <- rand 280 700 ;;
        sp2 <- rand 0.85 1.10 ;;
        let sp := sp1 * sp2 in
        let vx := Math_cos ang * sp in
        let vy := Math_sin ang * sp in
        life <- rand 52 92 ;;
        size <- rand 1.0 2.4 ;;
        j <- rand (-10) 10 ;;
        let hh := js_mod (hue + j + 360) 360 in
        k <- random ;;
        let kind := if Qltb k 0.10 then Comet else Spark in
        p <- makeParticle x y vx vy life size hh kind ;;
        modify (pushParticle p)).

Definition peonyGlitter (x y hue : Q) : State -> State :=
  exec (ang <- rand 0 (Math_PI * 2) ;;
        sp <- rand 120 260 ;;
        let vx := Math_cos ang * sp in
        let vy := Math_sin ang * sp in
        life <- rand 24 55 ;;
        size <- rand 0.9 1.5 ;;
        j <- rand (-6) 6 ;;
        let hh := js_mod (hue + j + 360) 360 in
        p <- makeParticle x y vx vy life size hh Spark ;;
        modify (pushParticle p)).

Definition explodePeony (x y hue : Q) (s : State) : State :=
  let room := roomForParticles s in
  if (room <=? 0)%Z then s
  else
    exec (c <- rand 110 160 ;;
          let count := Z.min (Math_floor c) room in
          modify (for_loop (Z.to_nat count) (fun _ => peonySpark x y hue)) ;;;
          glitterRoom <- gets roomForParticles ;;
          g <- rand 26 52 ;;
          let glitterCount := Z.min (Math_floor g) glitterRoom in
          modify (for_loop (Z.to_nat glitterCount) (fun _ => peonyGlitter x y hue))) s.

Definition ringSpark (x y hue : Q) (count : Z) (jitter : Q) (i : nat) : State -> State :=
  exec (let t := inject_Z (Z.of_nat i) / inject_Z count in
        j <- rand (- jitter) jitter ;;
        let ang := t * Math_PI * 2 + j in
        sp <- rand 360 640 ;;
        let vx := Math_cos ang * sp in
        let vy := Math_sin ang * sp in
        life <- rand 45 80 ;;
        size <- rand 1.0 2.1 ;;
        hj <- rand (-8) 8 ;;
        let hh := js_mod (hue + hj + 360) 360 in
        p <- makeParticle x y vx vy life size hh Spark ;;
        modify (pushParticle p)).

Definition ringCore (x y hue : Q) : State -> State :=
  exec (ang <- rand 0 (Math_PI * 2) ;;
        sp <- rand 80 180 ;;
        life <- rand 22 42 ;;
        size <- rand 0.9 1.4 ;;
        p <- makeParticle x y (Math_cos ang * sp) (Math_sin ang * sp)
                          life size hue Spark ;;
        modify (pushParticle p)).

Definition explodeRing (x y hue : Q) (s : State) : State :=
  let room := roomForParticles s in
  if (room <=? 0)%Z then s
  else
    exec (c <- rand 90 130 ;;
          let count := Z.min (Math_floor c) room in
          jitter <- rand 0.08 0.18 ;;
          modify (for_loop (Z.to_nat count) (ringSpark x y hue count jitter)) ;;;
          coreRoom <- gets roomForParticles ;;
          g <- rand 18 34 ;;
          let coreCount := Z.min (Math_floor g) coreRoom in
          modify (for_loop (Z.to_nat coreCount) (fun _ => ringCore x y hue))) s.

Definition palmSpark (x y armAng armHue : Q) (perArm : Z) (i : nat) : State -> State :=
  exec (let k := inject_Z (Z.of_nat i) / inject_Z perArm in
        j <- rand (-0.12) 0.12 ;;
        let ang := armAng + j in
        sp0 <- rand 280 680 ;;
        let sp := sp0 * (0.8 + 0.4 * k) in
        let vx := Math_cos ang * sp in
        let vy := Math_sin ang * sp in
        life0 <- rand 52 88 ;;
        let life := life0 + k * 10 in
        size <- rand 1.1 2.3 ;;
        p <- makeParticle x y vx vy life size armHue Comet ;;
        modify (pushParticle p)).

(** The inner loop [for (i = 0; i < perArm && made < total; i++)];
    [n] counts the iterations left, the result carries [made]. *)
Fixpoint palmArm (n i : nat) (x y armAng armHue : Q) (perArm total made : Z)
         (s : State) : Z * State :=
  match n with
  | O => (made, s)
  | S n' =>
      if (made <? total)%Z
      then palmArm n' (S i) x y armAng armHue perArm total (made + 1)%Z
                   (palmSpark x y armAng armHue perArm i s)
      else (made, s)
  end.

(** The outer loop [for (a = 0; a < arms && made < total; a++)]. *)
Fixpoint palmArms (n : nat) (x y hue : Q) (perArm total made : Z)
         (s : State) : Z * State :=
  match n with
  | O => (made, s)
  | S n' =>
      if (made <? total)%Z
      then
        let r1 := rand 0 (Math_PI * 2) s in
        let armAng := fst r1 in
        let r2 := rand (-12) 12 (snd r1) in
        let armHue := js_mod (hue + fst r2 + 360) 360 in
        let r3 := palmArm (Z.to_nat perArm) 0 x y armAng armHue perArm total made
                          (snd r2) in
        palmArms n' x y hue perArm total (fst r3) (snd r3)
      else (made, s)
  end.

Definition explodePalm (x y hue : Q) (s : State) : State :=
  let room := roomForParticles s in
  if (room <=? 0)%Z then s
  else
    exec (a <- rand 6 10 ;;
          let arms := Math_floor a in
          b <- rand 14 20 ;;
          let perArm := Z.max 10 (Math_floor b) in
          let total := Z.min (arms * perArm) room in
          modify (fun s => snd (palmArms (Z.to_nat arms) x y hue perArm total 0 s))) s.

Definition crackleSpark (x y hue : Q) : State -> State :=
  exec (ang <- rand 0 (Math_PI * 2) ;;
        sp <- rand 220 620 ;;
        let vx := Math_cos ang * sp in
        let vy := Math_sin ang * sp in
        life <- rand 40 78 ;;
        size <- rand 1.0 2.0 ;;
        j <- rand (-10) 10 ;;
        let hh := js_mod (hue + j + 360) 360 in
        p <- makeParticle x y vx vy life size hh CrackleSpark ;;
        ct <- rand 0.02 0.07 ;;
        let p := Particle.set_crackleTimer ct p in
        modify (pushParticle p)).

Definition explodeCrackle (x y hue : Q) (s : State) : State :=
  let room := roomForParticles s in
  if (room <=? 0)%Z then s
  else
    exec (c <- rand 90 140 ;;
          let count := Z.min (Math_floor c) room in
          modify (for_loop (Z.to_nat count) (fun _ => crackleSpark x y hue))) s.

Definition setTimeout (a : TimerAction) (ms : Z) : State -> State :=
  set_timers (fun l => push l (mkTimer ms a)).

(** The [switch (kind)] of [explodeBurst]. *)
Definition explodePattern (kind : BurstKind) (x y hue : Q) : State -> State :=
  match kind with
  | Ring => explodeRing x y hue
  | Palm => explodePalm x y hue
  | Crackle => explodeCrackle x y hue
  | Peony => explodePeony x y hue
  end.

(** [explodeBurst] runs three blocks in sequence: the pop sound and the
    smoke puff, the pattern, and the scheduling of the secondary break. *)
Definition popAndSmoke (x y : Q) : State -> State :=
  exec (modify playPop ;;;
        q <- gets (fun s => quality (perf s)) ;;
        let smokeChance := 0.85 * lerp 0.55 1.0 q in
        r <- random ;;
        when (Qltb r smokeChance) (modify (spawnSmoke x y))).

Definition scheduleBreak (x y hue : Q) : State -> State :=
  exec (q <- gets (fun s => quality (perf s)) ;;
        let breakChance := 0.45 * lerp 0.55 1.0 q in
        r <- random ;;
        room <- gets roomForParticles ;;
        when (Qltb r breakChance && (24 <? room)%Z)
             (dx <- rand (-24) 24 ;;
              dy <- rand (-18) 18 ;;
              ms <- rand 70 140 ;;
              modify (setTimeout (SecondaryBreak x y dx dy hue) (Math_floor ms)))).

Definition explodeBurst (x y hue : Q) (kind : BurstKind) (s : State) : State :=
  scheduleBreak x y hue (explodePattern kind x y hue (popAndSmoke x y s)).

Definition burst (x y : option Q) (s : State) : State :=
  let x := match x with Some v => v | None => w (view s) * 0.5 end in
  let y := match y with Some v => v | None => h (view s) * 0.6 end in
  if Qltb (w (view s)) 10 || Qltb (h (view s)) 10 then s
  else
    exec (hue <- randomHue ;;
          kind <- chooseBurstKind ;;
          modify (explodeBurst x y hue kind)) s.

(** What the timer callbacks do when the host delivers them. *)
Definition runTimer (a : TimerAction) (s : State) : State :=
  match a with
  | CelebrateBurst fx fy =>
      burst (Some (w (view s) * fx)) (Some (h (view s) * fy)) s
  | SecondaryBreak x y dx dy hue =>
      if negb (running (loop s)) then s
      else
        exec (j <- rand (-14) 14 ;;
              modify (explodePeony (x + dx) (y + dy) (js_mod (hue + j + 360) 360)) ;;;
              r <- random ;;
              q <- gets (fun s => quality (perf s)) ;;
              when (Qltb r (0.5 * lerp 0.55 1.0 q))
                   (modify (spawnSmoke (x + dx) (y + dy)))) s
  end.

(** *** Main loop *)

(** [updateQuality] has three parts, marked by its comments. *)

(** Measure FPS from real delta (not the clamped simulation dt). *)
Definition measureFps (deltaMs : Q) : State -> State :=
  let d := clamp deltaMs 6 120 in
  let fpsInstant := 1000 / d in
  set_perf (fun p => with_fpsSmoothed
              (fpsSmoothed p + (fpsInstant - fpsSmoothed p) * FPS_EMA) p).

(** Adjust quality at a controlled cadence to avoid oscillation. *)
Definition adjustQuality (ts : Q) (s : State) : State :=
  if Qltb 220 (ts - lastQualityTs (perf s)) then
    let s := set_perf (with_lastQualityTs ts) s in
    let fpsForDecision := Qmin (fpsSmoothed (perf s)) 62 in
    let qTarget := qualityFromFps fpsForDecision in
    let s := set_perf (fun p => with_quality
                 (quality p + (qTarget - quality p) * QUALITY_EMA) p) s in
    set_perf (fun p => with_quality (clamp (quality p) MIN_QUALITY MAX_QUALITY) p) s
  else s.

(** Periodically re-evaluate DPR cap under sustained load. *)
Definition recheckDpr (ts : Q) (s : State) : State :=
  if Qltb RESIZE_CHECK_MS (ts - lastResizeQualityCheck (perf s)) then
    let s := set_perf (with_lastResizeQualityCheck ts) s in
    if running (loop s) then resize s else s
  else s.

Definition updateQuality (ts deltaMs : Q) (s : State) : State :=
  recheckDpr ts (adjustQuality ts (measureFps deltaMs s)).

(** The field assignments made by [drawRocket] and [drawParticle]. *)
Definition drawRocket (r : Rocket.t) : Rocket.t :=
  Rocket.set_py (Rocket.y r) (Rocket.set_px (Rocket.x r) r).

Definition particleAlpha (p : Particle.t) (t : Q) : Q :=
  let tw := 0.72 + 0.28 * Math_sin (Particle.twPhase p + (1 - t) * 10.5) in
  let base := t * tw * Particle.twAmp p in
  match Particle.kind p with
  | Ember => base * 0.65
  | CrackleSpark => base * 0.85
  | Comet => base * 0.95
  | Spark => base
  end.

Definition drawParticle (p : Particle.t) : Particle.t :=
  let t := Particle.life p / Particle.maxLife p in
  if Qle_bool t 0 then p
  else
    let aHead := particleAlpha p t in
    if Qle_bool aHead 0.01 then p
    else Particle.set_py (Particle.y p) (Particle.set_px (Particle.x p) p).

(** The motion of one smoke puff during a tick, and the test that retires it. *)
Definition smokePhysics (dt : Q) (st : State) (s : Smoke.t) : Smoke.t :=
  let s := Smoke.set_x
             (Smoke.x s + (Smoke.vx s + currentWind (loop st) * 0.12) * dt) s in
  let s := Smoke.set_y (Smoke.y s + Smoke.vy s * dt) s in
  Smoke.set_life (Smoke.life s - 60 * dt) s.

Definition smokeGone (st : State) (s : Smoke.t) : bool :=
  Qle_bool (Smoke.life s) 0
  || Qltb (Smoke.x s) (-200) || Qltb (w (view st) + 200) (Smoke.x s)
  || Qltb (Smoke.y s) (-200) || Qltb (h (view st) + 240) (Smoke.y s).

Definition smokeIter (dt : Q) (i : nat) (st : State) : State :=
  match smokePuffs (ents st) !! i with
  | None => st
  | Some s =>
      let s := smokePhysics dt st s in
      if smokeGone st s
      then freeSmoke s (set_smokePuffs (splice1 i) st)
      else set_smokePuffs (fun l => <[i := s]> l) st
  end.

(** Quadratic drag + gravity + wind on a rocket, then [drawRocket]. *)
Definition rocketPhysics (dt : Q) (r : Rocket.t) : Rocket.t :=
  let ax := (- airDrag * Rocket.vx r * Qabs (Rocket.vx r)) + Rocket.wind r * 0.10 in
  let ay := (- airDrag * Rocket.vy r * Qabs (Rocket.vy r)) + gravity in
  let r := Rocket.set_vx (Rocket.vx r + ax * dt) r in
  let r := Rocket.set_vy (Rocket.vy r + ay * dt) r in
  let r := Rocket.set_x (Rocket.x r + Rocket.vx r * dt) r in
  let r := Rocket.set_y (Rocket.y r + Rocket.vy r * dt) r in
  drawRocket r.

Definition shouldExplode (r : Rocket.t) : bool :=
  Qle_bool (Rocket.y r) (Rocket.targetY r) || Qle_bool 0 (Rocket.vy r).

Definition rocketOffscreen (st : State) (r : Rocket.t) : bool :=
  Qltb (Rocket.x r) (-120) || Qltb (w (view st) + 120) (Rocket.x r)
  || Qltb (Rocket.y r) (-180).

Definition rocketIter (dt : Q) (i : nat) (st : State) : State :=
  match rockets (ents st) !! i with
  | None => st
  | Some r =>
      let r := rocketPhysics dt r in
      if shouldExplode r && negb (Rocket.broke r) then
        let r := Rocket.set_broke true r in
        let st := freeRocket r (set_rockets (splice1 i) st) in
        explodeBurst (Rocket.x r) (Rocket.y r) (Rocket.hue r) (Rocket.kind r) st
      else if rocketOffscreen st r
      then freeRocket r (set_rockets (splice1 i) st)
      else set_rockets (fun l => <[i := r]> l) st
  end.

(** One micro-spark of a crackling particle. *)
Definition crackleMicro (p : Particle.t) : State -> State :=
  exec (ang <- rand 0 (Math_PI * 2) ;;
        sp <- rand 70 170 ;;
        let vx := Particle.vx p * 0.08 + Math_cos ang * sp in
        let vy := Particle.vy p * 0.08 + Math_sin ang * sp in
        j <- rand (-8) 8 ;;
        let hh := js_mod (Particle.hue p + j + 360) 360 in
        life <- rand 16 28 ;;
        size <- rand 0.9 1.4 ;;
        m <- makeParticle (Particle.x p) (Particle.y p) vx vy life size hh Spark ;;
        modify (pushParticle m)).

(** The crackle branch of the particle loop; returns the updated parent. *)
Definition crackle (dt : Q) (p : Particle.t) : M Particle.t :=
  let p := Particle.set_crackleTimer (Particle.crackleTimer p - dt) p in
  room <- gets roomForParticles ;;
  if Qle_bool (Particle.crackleTimer p) 0 && (6 <? room)%Z then
    ct <- rand 0.02 0.07 ;;
    let p := Particle.set_crackleTimer ct p in
    q <- gets (fun s => quality (perf s)) ;;
    let microScale := lerp 0.55 1.0 q in
    c <- rand 1 3 ;;
    let microCount := Math_floor (c * microScale) in
    modify (for_loop (Z.to_nat microCount) (fun _ => crackleMicro p)) ;;;
    ret p
  else ret p.

(** Drag, wind and gravity with the per-particle multipliers. *)
Definition particlePhysics (dt : Q) (st : State) (p : Particle.t) : Particle.t :=
  let drag := airDrag * Particle.dragMul p in
  let ax := (- drag * Particle.vx p * Qabs (Particle.vx p))
            + currentWind (loop st) * 0.08 * Particle.windMul p in
  let ay := (- drag * Particle.vy p * Qabs (Particle.vy p))
            + gravity * Particle.gravMul p in
  let p := Particle.set_vx (Particle.vx p + ax * dt) p in
  let p := Particle.set_vy (Particle.vy p + ay * dt) p in
  let p := Particle.set_x (Particle.x p + Particle.vx p * dt) p in
  Particle.set_y (Particle.y p + Particle.vy p * dt) p.

(** Comets cool down; then every particle ages and is drawn. *)
Definition particleAge (dt : Q) (p : Particle.t) : Particle.t :=
  let p := match Particle.kind p with
           | Comet =>
               let p := Particle.set_heat
                          (Qmax 0.35 (Particle.heat p - dt * 0.9)) p in
               Particle.set_size (Particle.size p * (1 - dt * 0.15)) p
           | _ => p
           end in
  let p := Particle.set_life (Particle.life p - 60 * dt) p in
  drawParticle p.

Definition particleGone (st : State) (p : Particle.t) : bool :=
  Qle_bool (Particle.life p) 0
  || Qltb (Particle.x p) (-160) || Qltb (w (view st) + 160) (Particle.x p)
  || Qltb (h (view st) + 220) (Particle.y p).

Definition particleIter (dt : Q) (i : nat) (st : State) : State :=
  match particles (ents st) !! i with
  | None => st
  | Some p =>
      let p := particlePhysics dt st p in
      let r := match Particle.kind p with
               | CrackleSpark => crackle dt p st
               | _ => (p, st)
               end in
      let p := particleAge dt (fst r) in
      let st := snd r in
      if particleGone st p
      then freeParticle p (set_particles (splice1 i) st)
      else set_particles (fun l => <[i := p]> l) st
  end.

(** The elapsed time [step] measures and the time-step it simulates. *)
Definition stepDelta (ts : Q) (s : State) : Q :=
  match lastTs (loop s) with
  | None => ts - ts
  | Some t0 => ts - t0
  end.

Definition stepDt (ts : Q) (s : State) : Q :=
  clamp (stepDelta ts s / 1000) 0 0.033.

(** The part of [step] after the quality update: smoke, rockets, particles,
    and the request for the next frame. *)
Definition simulate (dt : Q) (s : State) : State :=
  let smokeHalfRate := smokeParityEnabled s in
  let s := if smokeHalfRate
           then set_loop (fun l => with_smokeParity (Z.lxor (smokeParity l) 1) l) s
           else s in
  let s := if negb smokeHalfRate || (smokeParity (loop s) =? 0)%Z
           then down_loop (length (smokePuffs (ents s))) (smokeIter dt) s
           else s in
  let s := down_loop (length (rockets (ents s))) (rocketIter dt) s in
  let s := down_loop (length (particles (ents s))) (particleIter dt) s in
  exec (id <- requestAnimationFrame ;;
        modify (set_loop (with_stepRafId (Some id)))) s.

Definition step (ts : Q) (s : State) : State :=
  if negb (running (loop s)) then s
  else
    let deltaMs := stepDelta ts s in
    let dt := stepDt ts s in
    let s := set_loop (with_lastTs (Some ts)) s in
    let s := updateQuality ts deltaMs s in
    simulate dt s.

(** The body of [if (ts - lastLaunch > interval)] in [autoLaunch]. *)
Definition launchNow (ts : Q) : State -> State :=
  exec (modify (set_loop (with_lastLaunch ts)) ;;;
        modify (spawnRocket None) ;;;
        q <- gets (fun s => quality (perf s)) ;;
        let buddyChance := 0.55 * lerp 0.55 1.0 q in
        b <- random ;;
        when (Qltb b buddyChance) (modify (spawnRocket None))).

Definition autoLaunch (ts : Q) (s : State) : State :=
  if negb (running (loop s)) then s
  else
    let base := if Qltb (w (view s)) 600 then AUTO_BASE_MOBILE else AUTO_BASE_DESKTOP in
    let qf := launchQualityFactor s in
    let intervalBase := base / qf in
    exec (r <- random ;;
          let interval := intervalBase + r * intervalBase in
          lastLaunch0 <- gets (fun s => lastLaunch (loop s)) ;;
          when (Qltb interval (ts - lastLaunch0)) (modify (launchNow ts)) ;;;
          id <- requestAnimationFrame ;;
          modify (set_loop (with_launchRafId (Some id)))) s.

(** *** Pause / resume, start / stop *)

Definition pause (s : State) : State :=
  if negb (running (loop s)) then s
  else stopLoops (set_loop (with_running false) s).

Definition resetPerf : State -> State :=
  set_perf (fun _ => mkPerf TARGET_FPS 1.0 0 0).

Definition resume (s : State) : State :=
  let s := set_loop (with_running true) s in
  let s := resize s in
  let s := set_loop (with_lastTs None) s in
  let s := set_loop (with_lastLaunch (nowMs s)) s in
  let s := set_loop (with_ignoreClicksUntil (nowMs s + RESUME_IGNORE_CLICKS_MS)) s in
  let s := exec (wnd <- qualityWind ;;
                 modify (set_loop (fun l =>
                   with_currentWind (currentWind l * 0.6 + wnd * 0.4) l))) s in
  let s := resetPerf s in
  startLoops s.

Definition start (celebrate : option bool) (s : State) : State :=
  let celebrate := match celebrate with Some b => b | None => true end in
  let s := resize s in
  let s := set_loop (with_running true) s in
  let s := set_loop (with_ignoreClicksUntil (nowMs s + IGNORE_CLICKS_MS)) s in
  let s := set_loop (with_lastTs None) s in
  let s := set_loop (with_lastLaunch (nowMs s)) s in
  let s := exec (wnd <- qualityWind ;;
                 modify (set_loop (with_currentWind wnd))) s in
  let s := resetPerf s in
  let s := startLoops s in
  if celebrate then
    let s := setTimeout (CelebrateBurst 0.50 0.62) 90 s in
    let s := setTimeout (CelebrateBurst 0.38 0.58) 170 s in
    setTimeout (CelebrateBurst 0.62 0.60) 240 s
  else s.

(** [while (a.length) free(a.pop())]; [n] bounds the number of iterations. *)
Fixpoint freeAllRockets (n : nat) (s : State) : State :=
  match n with
  | O => s
  | S n' => match pop (rockets (ents s)) with
            | None => s
            | Some (r, rest) => freeAllRockets n' (freeRocket r (set_rockets (fun _ => rest) s))
            end
  end.

Fixpoint freeAllParticles (n : nat) (s : State) : State :=
  match n with
  | O => s
  | S n' => match pop (particles (ents s)) with
            | None => s
            | Some (p, rest) =>
                freeAllParticles n' (freeParticle p (set_particles (fun _ => rest) s))
            end
  end.

Fixpoint freeAllSmoke (n : nat) (s : State) : State :=
  match n with
  | O => s
  | S n' => match pop (smokePuffs (ents s)) with
            | None => s
            | Some (p, rest) =>
                freeAllSmoke n' (freeSmoke p (set_smokePuffs (fun _ => rest) s))
            end
  end.

Definition stop (s : State) : State :=
  let s := pause s in
  let s := freeAllRockets (length (rockets (ents s))) s in
  let s := freeAllParticles (length (particles (ents s))) s in
  let s := freeAllSmoke (length (smokePuffs (ents s))) s in
  resize s.

(** *** Init + event wiring *)

Definition initOnce (s : State) : State :=
  if inited (loop s) then s
  else resize (set_loop (with_inited true) s).

Definition onClick (clientX rectLeft : Q) (s : State) : State :=
  if negb (running (loop s)) then s
  else if Qltb (nowMs s) (ignoreClicksUntil (loop s)) then s
  else
    let x := clientX - rectLeft in
    exec (modify (spawnRocket (Some x)) ;;;
          q <- gets (fun s => quality (perf s)) ;;
          let buddyChance := 0.30 * lerp 0.55 1.0 q in
          b <- random ;;
          when (Qltb b buddyChance)
               (o <- rand (-40) 40 ;; modify (spawnRocket (Some (x + o))))) s.

(** The state when the script has been loaded: the initial values of the
    module variables; [currentWind] is drawn once at load time. *)
Definition init (hst : Host) : State :=
  exec (wnd <- qualityWind ;;
        modify (set_loop (with_currentWind wnd)))
       (mkState hst
                (mkPerf TARGET_FPS 1.0 0 0)
                (mkView 0 0 1)
                (mkLoop false false None None 0 None 0 0 0 0)
                (mkEnts [] [] [] [] [] [])
                (mkSfx 0 false 0 0)
                []
                0).

(** What can happen to the loaded script: calls of its API, and the host
    delivering frames, timers and DOM events (the listeners exist once
    [initOnce] ran) or changing what the script reads from it. *)
Inductive Event :=
| ApiStart (celebrate : option bool)
| ApiStop
| ApiPause
| ApiResume
| ApiResize
| ApiBurst (x y : option Q)
| ApiUnlockSfx
| Frame (ts : Q)
| TimerFires (i : nat)
| Click (clientX rectLeft : Q)
| WindowResize
| VisibilityChange (hidden : bool)
| WindowBlur
| WindowFocus (hidden : bool)
| PageHide
| PageShow (hidden : bool)
| HostChanges (hst : Host).

Definition listening (f : State -> State) (s : State) : State :=
  if inited (loop s) then f s else s.

Definition handle (e : Event) (s : State) : State :=
  match e with
  | ApiStart c => start c (initOnce s)
  | ApiStop => stop (initOnce s)
  | ApiPause => pause (initOnce s)
  | ApiResume => resume (initOnce s)
  | ApiResize => resize (initOnce s)
  | ApiBurst x y => burst x y (initOnce s)
  | ApiUnlockSfx => unlockSfxOnce (initOnce s)
  | Frame ts =>
      let s := match stepRafId (loop s) with Some _ => step ts s | None => s end in
      match launchRafId (loop s) with Some _ => autoLaunch ts s | None => s end
  | TimerFires i =>
      match timers s !! i with
      | Some t => runTimer (action t) (set_timers (splice1 i) s)
      | None => s
      end
  | Click cx rl => listening (onClick cx rl) s
  | WindowResize => listening resize s
  | VisibilityChange hidden => listening (if hidden then pause else resume) s
  | WindowBlur => listening pause s
  | WindowFocus hidden => listening (if hidden then id else resume) s
  | PageHide => listening pause s
  | PageShow hidden => listening (if hidden then id else resume) s
  | HostChanges hst => set_host (fun _ => hst) s
  end.

Definition run (es : list Event) (s : State) : State :=
  fold_left (fun s e => handle e s) es s.


(** * Properties *)

(** ** Basic facts about numbers and arrays *)

Lemma Qltb_lt (a b : Q) : Qltb a b = true <-> a < b.
Proof.
  unfold Qltb. rewrite negb_true_iff.
  destruct (Qle_bool b a) eqn:E.
  - apply Qle_bool_iff in E. split; [discriminate | intros H; exfalso; lra].
  - split; [intros _ | reflexivity].
    apply Qnot_le_lt. intros H. apply Qle_bool_iff in H. congruence.
Qed.

Lemma Qltb_ge (a b : Q) : Qltb a b = false <-> b <= a.
Proof.
  unfold Qltb. rewrite negb_false_iff. apply Qle_bool_iff.
Qed.

Lemma clamp_bounds (n lo hi : Q) : lo <= hi -> lo <= clamp n lo hi <= hi.
Proof.
  intros H. unfold clamp. split.
  - apply Q.le_max_l.
  - apply Q.max_lub; [exact H | apply Q.le_min_l].
Qed.

Lemma clamp_id (n lo hi : Q) : lo <= n <= hi -> clamp n lo hi == n.
Proof.
  intros [H1 H2]. unfold clamp.
  rewrite (Q.min_r hi n) by exact H2. apply Q.max_r. exact H1.
Qed.

Lemma clamp_mono (a b lo hi : Q) : a <= b -> clamp a lo hi <= clamp b lo hi.
Proof.
  intros H. unfold clamp.
  apply Q.max_le_compat_l. apply Q.min_le_compat_l. exact H.
Qed.

Lemma clamp_le_hi (n lo hi : Q) : hi <= lo -> clamp n lo hi == lo.
Proof.
  intros H. unfold clamp. apply Q.max_l.
  eapply Qle_trans; [apply Q.le_min_l | exact H].
Qed.

Lemma pop_nil {A} : pop (@nil A) = None.
Proof. reflexivity. Qed.

Lemma pop_push {A} (l : list A) (x : A) : pop (push l x) = Some (x, l).
Proof.
  unfold pop, push. rewrite rev_app_distr. simpl. now rewrite rev_involutive.
Qed.

Lemma pop_None {A} (l : list A) : pop l = None -> l = [].
Proof.
  unfold pop. destruct (rev l) eqn:E; [| discriminate].
  intros _. rewrite <- (rev_involutive l), E. reflexivity.
Qed.

Lemma pop_Some {A} (l : list A) x r : pop l = Some (x, r) -> l = push r x.
Proof.
  unfold pop, push. destruct (rev l) eqn:E; [discriminate |].
  intros H. injection H as <- <-.
  rewrite <- (rev_involutive l), E. reflexivity.
Qed.

Lemma len_push {A} (l : list A) x : len (push l x) = (len l + 1)%Z.
Proof. unfold len, push. rewrite length_app. simpl. lia. Qed.

Lemma len_nonneg {A} (l : list A) : (0 <= len l)%Z.
Proof. unfold len. lia. Qed.

(** ** Footprints

    A footprint names the components of the state a function may change;
    [agree fp s s'] says that [s'] equals [s] on every other component, and
    that results of [Math.random] were only consumed, never given back. *)

Inductive Comp :=
| CHost | CPerf | CView | CLoop
| CRockets | CParticles | CSmokePuffs
| CRocketPool | CParticlePool | CSmokePool
| CSfx | CTimers | CRpos.

Definition Footprint := Comp -> bool.

Definition same (c : Comp) (s s' : State) : Prop :=
  match c with
  | CHost => host s' = host s
  | CPerf => perf s' = perf s
  | CView => view s' = view s
  | CLoop => loop s' = loop s
  | CRockets => rockets (ents s') = rockets (ents s)
  | CParticles => particles (ents s') = particles (ents s)
  | CSmokePuffs => smokePuffs (ents s') = smokePuffs (ents s)
  | CRocketPool => rocketPool (ents s') = rocketPool (ents s)
  | CParticlePool => particlePool (ents s') = particlePool (ents s)
  | CSmokePool => smokePool (ents s') = smokePool (ents s)
  | CSfx => sfx s' = sfx s
  | CTimers => timers s' = timers s
  | CRpos => rpos s' = rpos s
  end.

Definition agree (fp : Footprint) (s s' : State) : Prop :=
  (forall c, fp c = false -> same c s s') /\ (rpos s <= rpos s')%nat.

Definition fp_none : Footprint := fun _ => false.

Definition fp_union (a b : Footprint) : Footprint := fun c => a c || b c.

Definition fp_le (a b : Footprint) : Prop := forall c, a c = true -> b c = true.

Lemma same_refl c s : same c s s.
Proof. destruct c; reflexivity. Qed.

Lemma same_trans c s1 s2 s3 : same c s1 s2 -> same c s2 s3 -> same c s1 s3.
Proof. destruct c; simpl; congruence. Qed.

Lemma agree_refl fp s : agree fp s s.
Proof. split; [intros c _; apply same_refl | lia]. Qed.

Lemma agree_trans fp s1 s2 s3 : agree fp s1 s2 -> agree fp s2 s3 -> agree fp s1 s3.
Proof.
  intros [H1 L1] [H2 L2]. split; [| lia].
  intros c Hc. eapply same_trans; eauto.
Qed.

Lemma agree_weaken fp fp' s s' : agree fp s s' -> fp_le fp fp' -> agree fp' s s'.
Proof.
  intros [H L] Hle. split; [| exact L].
  intros c Hc. apply H.
  destruct (fp c) eqn:E; [| reflexivity].
  apply Hle in E. congruence.
Qed.

(** A state transformer, or a computation, stays within a footprint. *)
Definition within (fp : Footprint) (f : State -> State) : Prop :=
  forall s, agree fp s (f s).

Definition withinM {A} (fp : Footprint) (m : M A) : Prop :=
  forall s, agree fp s (snd (m s)).

Section Within.
Variable fp : Footprint.

Lemma within_id : within fp (fun s => s).
Proof. intros s. apply agree_refl. Qed.

Lemma within_comp f g : within fp f -> within fp g -> within fp (fun s => g (f s)).
Proof. intros Hf Hg s. eapply agree_trans; [apply Hf | apply Hg]. Qed.

Lemma withinM_ret {A} (a : A) : withinM fp (ret a).
Proof. intros s. apply agree_refl. Qed.

Lemma withinM_gets {A} (f : State -> A) : withinM fp (gets f).
Proof. intros s. apply agree_refl. Qed.

Lemma withinM_modify f : within fp f -> withinM fp (modify f).
Proof. intros H s. apply H. Qed.

Lemma withinM_bind {A B} (m : M A) (k : A -> M B) :
  withinM fp m -> (forall a, withinM fp (k a)) -> withinM fp (bind m k).
Proof.
  intros Hm Hk s. unfold bind. cbv zeta.
  eapply agree_trans; [apply Hm | apply Hk].
Qed.

Lemma withinM_when b m : withinM fp m -> withinM fp (when b m).
Proof. intros H. destruct b; [exact H | apply withinM_ret]. Qed.

Lemma within_exec {A} (m : M A) : withinM fp m -> within fp (exec m).
Proof. intros H s. apply H. Qed.

Lemma within_for_from body :
  (forall i, within fp (body i)) -> forall n i, within fp (for_from i n body).
Proof.
  intros Hb n. induction n as [| n IH]; intros i s; simpl.
  - apply agree_refl.
  - eapply agree_trans; [apply Hb | apply IH].
Qed.

Lemma within_for_loop body n :
  (forall i, within fp (body i)) -> within fp (for_loop n body).
Proof. intros Hb. apply within_for_from. exact Hb. Qed.

Lemma within_down_loop body n :
  (forall i, within fp (body i)) -> within fp (down_loop n body).
Proof.
  intros Hb. induction n as [| n IH]; intros s; simpl.
  - apply agree_refl.
  - eapply agree_trans; [apply Hb | apply IH].
Qed.
End Within.

Lemma within_weaken fp fp' f : within fp f -> fp_le fp fp' -> within fp' f.
Proof. intros H Hle s. eapply agree_weaken; [apply H | exact Hle]. Qed.

Lemma withinM_weaken {A} fp fp' (m : M A) : withinM fp m -> fp_le fp fp' -> withinM fp' m.
Proof. intros H Hle s. eapply agree_weaken; [apply H | exact Hle]. Qed.

Create HintDb frame discriminated.
#[global] Hint Constants Opaque : frame.
#[global] Hint Variables Opaque : frame.

(** Inclusion of concrete footprints is decided by cases. *)
Ltac fp_incl :=
  let c := fresh "c" in
  intros c; destruct c; cbv; intros; congruence.

(** A setter stays within a footprint that contains its component: by
    computation, component by component. *)
Ltac fp_direct :=
  let s := fresh "s" in let c := fresh "c" in let H := fresh "H" in
  intros s; split;
  [ intros c H; destruct c; try discriminate H; reflexivity
  | cbn; lia ].

Ltac fp_setter :=
  lazymatch goal with
  | |- within _ (set_host _) => fp_direct
  | |- within _ (set_perf _) => fp_direct
  | |- within _ (set_view _) => fp_direct
  | |- within _ (set_loop _) => fp_direct
  | |- within _ (set_ents _) => fp_direct
  | |- within _ (set_sfx _) => fp_direct
  | |- within _ (set_timers _) => fp_direct
  | |- within _ (set_rockets _) => fp_direct
  | |- within _ (set_particles _) => fp_direct
  | |- within _ (set_smokePuffs _) => fp_direct
  | |- within _ (set_rocketPool _) => fp_direct
  | |- within _ (set_particlePool _) => fp_direct
  | |- within _ (set_smokePool _) => fp_direct
  end.

(** Structural decomposition of a goal [within fp f] / [withinM fp m];
    known functions are looked up in the hint database. *)
Ltac frame_leaf :=
  lazymatch goal with
  | |- within _ _ =>
      first [ fp_setter
            | eapply within_weaken; [ solve [ eauto with frame nocore ] | fp_incl ] ]
  | |- withinM _ _ =>
      eapply withinM_weaken; [ solve [ eauto with frame nocore ] | fp_incl ]
  end.

Ltac frame :=
  repeat
    (cbv beta zeta;
     lazymatch goal with
     | |- forall _, _ => intro
     | |- withinM _ (bind _ _) => apply withinM_bind
     | |- withinM _ (ret _) => apply withinM_ret
     | |- withinM _ (gets _) => apply withinM_gets
     | |- withinM _ (when _ _) => apply withinM_when
     | |- withinM _ (modify _) => apply withinM_modify
     | |- withinM _ (match ?x with _ => _ end) => destruct x
     | |- within _ (exec _) => apply within_exec
     | |- within _ (for_loop _ _) => apply within_for_loop
     | |- within _ (down_loop _ _) => apply within_down_loop
     | |- within _ (fun s => s) => apply within_id
     | |- within _ (match ?x with _ => _ end) => destruct x
     | |- agree _ ?s ?s => apply agree_refl
     | |- agree _ ?s (exec ?m ?s) => apply (within_exec _ m)
     | |- agree _ ?s (if ?b then _ else _) => destruct b
     | |- agree _ ?s (match ?x with _ => _ end) => destruct x
     | |- agree ?fp ?s (?f ?s) => refine ((_ : within fp f) s)
     | |- agree ?fp ?s (?f ?t) =>
         apply (agree_trans fp s t (f t)); [ | refine ((_ : within fp f) t) ]
     | |- _ => frame_leaf
     end).

(** Footprints are written as lists of components. *)
Definition comp_index (c : Comp) : nat :=
  match c with
  | CHost => 0 | CPerf => 1 | CView => 2 | CLoop => 3
  | CRockets => 4 | CParticles => 5 | CSmokePuffs => 6
  | CRocketPool => 7 | CParticlePool => 8 | CSmokePool => 9
  | CSfx => 10 | CTimers => 11 | CRpos => 12
  end%nat.

Definition fp (l : list Comp) : Footprint :=
  fun c => existsb (fun d => Nat.eqb (comp_index c) (comp_index d)) l.

(** *** The footprint of every function of the script *)

Lemma within_random : withinM (fp [CRpos]) random.
Proof. fp_direct. Qed.
#[local] Hint Resolve within_random : frame.

Lemma within_rand a b : withinM (fp [CRpos]) (rand a b).
Proof. unfold rand. frame. Qed.
#[local] Hint Resolve within_rand : frame.

Lemma within_randomHue : withinM (fp [CRpos]) randomHue.
Proof. apply within_rand. Qed.

Lemma within_qualityWind : withinM (fp [CRpos]) qualityWind.
Proof. apply within_rand. Qed.

Lemma within_chooseBurstKind : withinM (fp [CRpos]) chooseBurstKind.
Proof. unfold chooseBurstKind. frame. Qed.
#[local] Hint Resolve within_randomHue within_qualityWind within_chooseBurstKind : frame.

Lemma within_stopLoops : within (fp [CLoop]) stopLoops.
Proof. fp_direct. Qed.

Lemma within_requestAnimationFrame : withinM (fp [CLoop]) requestAnimationFrame.
Proof. fp_direct. Qed.
#[local] Hint Resolve within_stopLoops within_requestAnimationFrame : frame.

Lemma within_set_loop f : within (fp [CLoop]) (set_loop f).
Proof. frame. Qed.

Lemma within_set_perf f : within (fp [CPerf]) (set_perf f).
Proof. frame. Qed.

Lemma within_set_sfx f : within (fp [CSfx]) (set_sfx f).
Proof. frame. Qed.

Lemma within_set_timers f : within (fp [CTimers]) (set_timers f).
Proof. frame. Qed.

Lemma within_set_rockets f : within (fp [CRockets]) (set_rockets f).
Proof. frame. Qed.

Lemma within_set_particles f : within (fp [CParticles]) (set_particles f).
Proof. frame. Qed.

Lemma within_set_smokePuffs f : within (fp [CSmokePuffs]) (set_smokePuffs f).
Proof. frame. Qed.
#[local] Hint Resolve within_set_loop within_set_perf within_set_sfx within_set_timers
  within_set_rockets within_set_particles within_set_smokePuffs : frame.

Lemma within_startLoops : within (fp [CLoop]) startLoops.
Proof.
  intros s. unfold startLoops.
  eapply agree_trans; [apply within_stopLoops |]. frame.
Qed.

Lemma within_resize : within (fp [CView]) resize.
Proof. fp_direct. Qed.

Lemma within_unlockSfxOnce : within (fp [CSfx]) unlockSfxOnce.
Proof. intros s. unfold unlockSfxOnce. frame. Qed.

Lemma within_playPop : within (fp [CSfx; CRpos]) playPop.
Proof. intros s. unfold playPop. frame. Qed.
#[local] Hint Resolve within_startLoops within_resize within_unlockSfxOnce
  within_playPop : frame.

Lemma within_allocRocket : withinM (fp [CRocketPool]) allocRocket.
Proof. intros s. unfold allocRocket. destruct (pop _) as [[r rest] |]; simpl; frame. Qed.

Lemma within_freeRocket r : within (fp [CRocketPool]) (freeRocket r).
Proof. fp_direct. Qed.

Lemma within_allocParticle : withinM (fp [CParticlePool]) allocParticle.
Proof. intros s. unfold allocParticle. destruct (pop _) as [[r rest] |]; simpl; frame. Qed.

Lemma within_freeParticle p : within (fp [CParticlePool]) (freeParticle p).
Proof. fp_direct. Qed.

Lemma within_allocSmoke : withinM (fp [CSmokePool]) allocSmoke.
Proof. intros s. unfold allocSmoke. destruct (pop _) as [[r rest] |]; simpl; frame. Qed.

Lemma within_freeSmoke p : within (fp [CSmokePool]) (freeSmoke p).
Proof. fp_direct. Qed.
#[local] Hint Resolve within_allocRocket within_freeRocket within_allocParticle
  within_freeParticle within_allocSmoke within_freeSmoke : frame.

Lemma within_spawnRocket x : within (fp [CRockets; CRocketPool; CRpos]) (spawnRocket x).
Proof. intros s. unfold spawnRocket. frame. Qed.

Lemma within_pushParticle p : within (fp [CParticles; CParticlePool]) (pushParticle p).
Proof. intros s. unfold pushParticle. frame. Qed.

Lemma within_makeParticle x y vx vy life size hue kind :
  withinM (fp [CParticlePool; CRpos]) (makeParticle x y vx vy life size hue kind).
Proof. unfold makeParticle. frame. Qed.

Lemma within_spawnSmoke x y : within (fp [CSmokePuffs; CSmokePool; CRpos]) (spawnSmoke x y).
Proof. intros s. unfold spawnSmoke. frame. Qed.
#[local] Hint Resolve within_spawnRocket within_pushParticle within_makeParticle
  within_spawnSmoke : frame.

Definition fp_spark : Footprint := fp [CParticles; CParticlePool; CRpos].

Lemma within_peonySpark x y hue : within fp_spark (peonySpark x y hue).
Proof. unfold peonySpark. frame. Qed.

Lemma within_peonyGlitter x y hue : within fp_spark (peonyGlitter x y hue).
Proof. unfold peonyGlitter. frame. Qed.

Lemma within_ringSpark x y hue count jitter i :
  within fp_spark (ringSpark x y hue count jitter i).
Proof. unfold ringSpark. frame. Qed.

Lemma within_ringCore x y hue : within fp_spark (ringCore x y hue).
Proof. unfold ringCore. frame. Qed.

Lemma within_palmSpark x y armAng armHue perArm i :
  within fp_spark (palmSpark x y armAng armHue perArm i).
Proof. unfold palmSpark. frame. Qed.

Lemma within_crackleSpark x y hue : within fp_spark (crackleSpark x y hue).
Proof. unfold crackleSpark. frame. Qed.

Lemma within_crackleMicro p : within fp_spark (crackleMicro p).
Proof. unfold crackleMicro. frame. Qed.
#[local] Hint Resolve within_peonySpark within_peonyGlitter within_ringSpark
  within_ringCore within_palmSpark within_crackleSpark within_crackleMicro : frame.

Lemma within_palmArm n : forall i x y armAng armHue perArm total made s,
  agree fp_spark s (snd (palmArm n i x y armAng armHue perArm total made s)).
Proof.
  induction n as [| n IH]; intros; cbn [palmArm].
  - apply agree_refl.
  - destruct (made <? total)%Z; [| apply agree_refl].
    eapply agree_trans; [apply within_palmSpark | apply IH].
Qed.

Lemma within_palmArms n : forall x y hue perArm total made s,
  agree fp_spark s (snd (palmArms n x y hue perArm total made s)).
Proof.
  induction n as [| n IH]; intros; cbn [palmArms].
  - apply agree_refl.
  - destruct (made <? total)%Z; [| apply agree_refl].
    cbv zeta.
    eapply agree_trans; [| apply IH].
    eapply agree_trans; [| apply within_palmArm].
    eapply agree_trans;
      [| eapply agree_weaken; [exact (within_rand (-12) 12 _) | fp_incl]].
    eapply agree_weaken; [exact (within_rand _ _ _) | fp_incl].
Qed.

Lemma within_explodePeony x y hue : within fp_spark (explodePeony x y hue).
Proof. intros s. unfold explodePeony. frame. Qed.

Lemma within_explodeRing x y hue : within fp_spark (explodeRing x y hue).
Proof. intros s. unfold explodeRing. frame. Qed.

Lemma within_explodePalm x y hue : within fp_spark (explodePalm x y hue).
Proof.
  intros s. unfold explodePalm. frame.
  intros s'. apply within_palmArms.
Qed.

Lemma within_explodeCrackle x y hue : within fp_spark (explodeCrackle x y hue).
Proof. intros s. unfold explodeCrackle. frame. Qed.

Lemma within_setTimeout a ms : within (fp [CTimers]) (setTimeout a ms).
Proof. fp_direct. Qed.
#[local] Hint Resolve within_explodePeony within_explodeRing within_explodePalm
  within_explodeCrackle within_setTimeout : frame.

Lemma within_explodePattern kind x y hue : within fp_spark (explodePattern kind x y hue).
Proof. destruct kind; cbn [explodePattern]; frame. Qed.
#[local] Hint Resolve within_explodePattern : frame.

Definition fp_burst : Footprint :=
  fp [CParticles; CParticlePool; CSmokePuffs; CSmokePool; CSfx; CTimers; CRpos].

Lemma within_popAndSmoke x y :
  within (fp [CSmokePuffs; CSmokePool; CSfx; CRpos]) (popAndSmoke x y).
Proof. unfold popAndSmoke. frame. Qed.

Lemma within_scheduleBreak x y hue : within (fp [CTimers; CRpos]) (scheduleBreak x y hue).
Proof. unfold scheduleBreak. frame. Qed.
#[local] Hint Resolve within_popAndSmoke within_scheduleBreak : frame.

Lemma within_explodeBurst x y hue kind : within fp_burst (explodeBurst x y hue kind).
Proof. intros s. unfold explodeBurst. frame. Qed.
#[local] Hint Resolve within_explodeBurst : frame.

Lemma within_burst x y : within fp_burst (burst x y).
Proof. intros s. unfold burst. frame. Qed.

#[local] Hint Resolve within_burst : frame.

Lemma within_runTimer a : within fp_burst (runTimer a).
Proof. intros s. unfold runTimer. frame. Qed.
#[local] Hint Resolve within_runTimer : frame.

Lemma within_measureFps deltaMs : within (fp [CPerf]) (measureFps deltaMs).
Proof. unfold measureFps. frame. Qed.

Lemma within_adjustQuality ts : within (fp [CPerf]) (adjustQuality ts).
Proof.
  intros s. unfold adjustQuality.
  destruct (Qltb 220 _); [| apply agree_refl].
  frame.
Qed.

Lemma within_recheckDpr ts : within (fp [CPerf; CView]) (recheckDpr ts).
Proof.
  intros s. unfold recheckDpr.
  destruct (Qltb RESIZE_CHECK_MS _); [| apply agree_refl].
  frame.
Qed.

Lemma within_updateQuality ts deltaMs : within (fp [CPerf; CView]) (updateQuality ts deltaMs).
Proof.
  intros s. unfold updateQuality.
  eapply agree_trans; [eapply agree_trans |].
  - eapply agree_weaken; [apply within_measureFps | fp_incl].
  - eapply agree_weaken; [apply within_adjustQuality | fp_incl].
  - apply within_recheckDpr.
Qed.
#[local] Hint Resolve within_updateQuality : frame.

Lemma within_smokeIter dt i : within (fp [CSmokePuffs; CSmokePool]) (smokeIter dt i).
Proof.
  intros s. unfold smokeIter.
  destruct (smokePuffs (ents s) !! i) as [p |]; [| apply agree_refl].
  generalize (smokePhysics dt s p). clear p. intros p. cbv zeta.
  frame.
Qed.

Definition fp_rockets : Footprint :=
  fp [CRockets; CRocketPool; CParticles; CParticlePool; CSmokePuffs; CSmokePool;
      CSfx; CTimers; CRpos].

Lemma within_rocketIter dt i : within fp_rockets (rocketIter dt i).
Proof.
  intros s. unfold rocketIter.
  destruct (rockets (ents s) !! i) as [r |]; [| apply agree_refl].
  generalize (rocketPhysics dt r). clear r. intros r. cbv zeta.
  frame.
Qed.

Lemma within_crackle dt p : withinM fp_spark (crackle dt p).
Proof. unfold crackle. frame. Qed.
#[local] Hint Resolve within_smokeIter within_rocketIter within_crackle : frame.

Lemma within_particleIter dt i : within fp_spark (particleIter dt i).
Proof.
  intros s. unfold particleIter.
  destruct (particles (ents s) !! i) as [p |]; [| apply agree_refl].
  generalize (particlePhysics dt s p). clear p. intros p. cbv zeta.
  assert (Hr : agree fp_spark s
                 (snd (match Particle.kind p with
                       | CrackleSpark => crackle dt p s
                       | _ => (p, s)
                       end))).
  { destruct (Particle.kind p); try apply agree_refl. apply within_crackle. }
  revert Hr.
  generalize (match Particle.kind p with
              | CrackleSpark => crackle dt p s
              | _ => (p, s)
              end).
  intros [p' s'] Hr. cbn [fst snd] in *.
  destruct (particleGone s' (particleAge dt p')).
  - eapply agree_trans; [exact Hr |]. frame.
  - eapply agree_trans; [exact Hr |]. frame.
Qed.
#[local] Hint Resolve within_particleIter : frame.

Definition fp_simulate : Footprint :=
  fp [CLoop; CRockets; CParticles; CSmokePuffs; CRocketPool; CParticlePool;
      CSmokePool; CSfx; CTimers; CRpos].

Lemma within_simulate dt : within fp_simulate (simulate dt).
Proof. intros s. unfold simulate. frame. Qed.
#[local] Hint Resolve within_simulate : frame.

Lemma within_launchNow ts :
  within (fp [CLoop; CRockets; CRocketPool; CRpos]) (launchNow ts).
Proof. unfold launchNow. frame. Qed.
#[local] Hint Resolve within_launchNow : frame.

Lemma within_autoLaunch ts :
  within (fp [CLoop; CRockets; CRocketPool; CRpos]) (autoLaunch ts).
Proof. intros s. unfold autoLaunch. frame. Qed.

Lemma within_pause : within (fp [CLoop]) pause.
Proof. intros s. unfold pause. frame. Qed.

Lemma within_resetPerf : within (fp [CPerf]) resetPerf.
Proof. unfold resetPerf. frame. Qed.
#[local] Hint Resolve within_autoLaunch within_pause within_resetPerf : frame.

Lemma within_resume : within (fp [CPerf; CView; CLoop; CRpos]) resume.
Proof. intros s. unfold resume. frame. Qed.

Lemma within_start c : within (fp [CPerf; CView; CLoop; CTimers; CRpos]) (start c).
Proof. intros s. unfold start. frame. Qed.

Lemma within_freeAllRockets n : within (fp [CRockets; CRocketPool]) (freeAllRockets n).
Proof.
  induction n as [| n IH]; intros s; cbn [freeAllRockets]; [apply agree_refl |].
  destruct (pop _) as [[r rest] |]; [| apply agree_refl].
  eapply agree_trans; [| apply IH]. frame.
Qed.

Lemma within_freeAllParticles n :
  within (fp [CParticles; CParticlePool]) (freeAllParticles n).
Proof.
  induction n as [| n IH]; intros s; cbn [freeAllParticles]; [apply agree_refl |].
  destruct (pop _) as [[r rest] |]; [| apply agree_refl].
  eapply agree_trans; [| apply IH]. frame.
Qed.

Lemma within_freeAllSmoke n : within (fp [CSmokePuffs; CSmokePool]) (freeAllSmoke n).
Proof.
  induction n as [| n IH]; intros s; cbn [freeAllSmoke]; [apply agree_refl |].
  destruct (pop _) as [[r rest] |]; [| apply agree_refl].
  eapply agree_trans; [| apply IH]. frame.
Qed.
#[local] Hint Resolve within_resume within_start within_freeAllRockets
  within_freeAllParticles within_freeAllSmoke : frame.

Definition fp_stop : Footprint :=
  fp [CView; CLoop; CRockets; CParticles; CSmokePuffs; CRocketPool; CParticlePool;
      CSmokePool].

Lemma within_stop : within fp_stop stop.
Proof. intros s. unfold stop. frame. Qed.

Lemma within_initOnce : within (fp [CView; CLoop]) initOnce.
Proof. intros s. unfold initOnce. frame. Qed.

Lemma within_onClick cx rl : within (fp [CRockets; CRocketPool; CRpos]) (onClick cx rl).
Proof. intros s. unfold onClick. frame. Qed.
#[local] Hint Resolve within_stop within_initOnce within_onClick : frame.

(** Reading a component back from an agreement. *)
Lemma agree_perf fpr s s' : agree fpr s s' -> fpr CPerf = false -> perf s' = perf s.
Proof. intros [H _] E. exact (H CPerf E). Qed.

Lemma agree_view fpr s s' : agree fpr s s' -> fpr CView = false -> view s' = view s.
Proof. intros [H _] E. exact (H CView E). Qed.

Lemma agree_loop fpr s s' : agree fpr s s' -> fpr CLoop = false -> loop s' = loop s.
Proof. intros [H _] E. exact (H CLoop E). Qed.

Lemma agree_host fpr s s' : agree fpr s s' -> fpr CHost = false -> host s' = host s.
Proof. intros [H _] E. exact (H CHost E). Qed.

Lemma agree_timers fpr s s' : agree fpr s s' -> fpr CTimers = false -> timers s' = timers s.
Proof. intros [H _] E. exact (H CTimers E). Qed.

Lemma agree_particles fpr s s' :
  agree fpr s s' -> fpr CParticles = false -> particles (ents s') = particles (ents s).
Proof. intros [H _] E. exact (H CParticles E). Qed.

Lemma agree_rockets fpr s s' :
  agree fpr s s' -> fpr CRockets = false -> rockets (ents s') = rockets (ents s).
Proof. intros [H _] E. exact (H CRockets E). Qed.

Lemma agree_smokePuffs fpr s s' :
  agree fpr s s' -> fpr CSmokePuffs = false -> smokePuffs (ents s') = smokePuffs (ents s).
Proof. intros [H _] E. exact (H CSmokePuffs E). Qed.

(** The footprint that leaves out one component only. *)
Definition fp_except (c : Comp) : Footprint :=
  fun d => negb (Nat.eqb (comp_index c) (comp_index d)).

Lemma agree_except c s s' : agree (fp_except c) s s' -> same c s s'.
Proof. intros [H _]. apply H. destruct c; reflexivity. Qed.

(** [keeps c] proves [same c s (f s)] from the footprint of [f]. *)
Ltac keeps c :=
  match goal with
  | |- _ ?s' = _ ?s => change (same c s s'); apply agree_except; frame
  | |- _ (_ ?s') = _ (_ ?s) => change (same c s s'); apply agree_except; frame
  end.

(** ** The quality scalar stays in [0.55, 1] *)

Definition quality_ok (s : State) : Prop :=
  MIN_QUALITY <= quality (perf s) <= MAX_QUALITY.

Lemma quality_ok_same s s' : same CPerf s s' -> quality_ok s -> quality_ok s'.
Proof. unfold quality_ok. simpl. intros ->. auto. Qed.

Lemma quality_ok_within fpr f s :
  within fpr f -> fpr CPerf = false -> quality_ok s -> quality_ok (f s).
Proof.
  intros Hf E. apply quality_ok_same. exact (proj1 (Hf s) CPerf E).
Qed.

Lemma qualityFromFps_range fps :
  MIN_QUALITY <= qualityFromFps fps <= MAX_QUALITY.
Proof. unfold qualityFromFps. apply clamp_bounds. unfold MIN_QUALITY, MAX_QUALITY. lra. Qed.

Lemma quality_adjustQuality ts s :
  quality (perf (adjustQuality ts s)) =
    if Qltb 220 (ts - lastQualityTs (perf s))
    then clamp (quality (perf s)
                + (qualityFromFps (Qmin (fpsSmoothed (perf s)) 62) - quality (perf s))
                  * QUALITY_EMA)
               MIN_QUALITY MAX_QUALITY
    else quality (perf s).
Proof. unfold adjustQuality. destruct (Qltb 220 _); reflexivity. Qed.

Lemma quality_recheckDpr ts s : perf (recheckDpr ts s) = with_lastResizeQualityCheck
    (if Qltb RESIZE_CHECK_MS (ts - lastResizeQualityCheck (perf s))
     then ts else lastResizeQualityCheck (perf s)) (perf s).
Proof.
  unfold recheckDpr. destruct (Qltb RESIZE_CHECK_MS _).
  - cbv zeta. destruct (running _); reflexivity.
  - destruct (perf s); reflexivity.
Qed.

Lemma quality_updateQuality ts deltaMs s :
  quality (perf (updateQuality ts deltaMs s)) =
    if Qltb 220 (ts - lastQualityTs (perf s))
    then clamp (quality (perf s)
                + (qualityFromFps (Qmin (fpsSmoothed (perf (measureFps deltaMs s))) 62)
                   - quality (perf s)) * QUALITY_EMA)
               MIN_QUALITY MAX_QUALITY
    else quality (perf s).
Proof.
  unfold updateQuality. rewrite quality_recheckDpr. cbn [quality with_lastResizeQualityCheck].
  rewrite quality_adjustQuality. reflexivity.
Qed.

Lemma quality_ok_updateQuality ts deltaMs s :
  quality_ok s -> quality_ok (updateQuality ts deltaMs s).
Proof.
  unfold quality_ok. rewrite quality_updateQuality.
  destruct (Qltb 220 _); [intros _ | auto].
  apply clamp_bounds. unfold MIN_QUALITY, MAX_QUALITY. lra.
Qed.

Lemma perf_resetPerf s : perf (resetPerf s) = mkPerf TARGET_FPS 1.0 0 0.
Proof. reflexivity. Qed.

Lemma quality_ok_reset s : perf s = mkPerf TARGET_FPS 1.0 0 0 -> quality_ok s.
Proof. unfold quality_ok. intros ->. cbn. unfold MIN_QUALITY, MAX_QUALITY. lra. Qed.

Lemma perf_init hst : perf (init hst) = mkPerf TARGET_FPS 1.0 0 0.
Proof. reflexivity. Qed.

Lemma perf_start c s : perf (start c s) = mkPerf TARGET_FPS 1.0 0 0.
Proof.
  unfold start. cbv zeta.
  match goal with
  | |- context [resetPerf ?t] => generalize t; intros s1
  end.
  rewrite <- (perf_resetPerf s1).
  destruct (match c with Some b => b | None => true end); keeps CPerf.
Qed.

Lemma perf_resume s : perf (resume s) = mkPerf TARGET_FPS 1.0 0 0.
Proof.
  unfold resume. cbv zeta.
  match goal with
  | |- context [resetPerf ?t] => generalize t; intros s1
  end.
  rewrite <- (perf_resetPerf s1). keeps CPerf.
Qed.

Lemma quality_ok_step ts s : quality_ok s -> quality_ok (step ts s).
Proof.
  intros H. unfold step. destruct (negb _); [exact H |]. cbv zeta.
  eapply quality_ok_within; [apply within_simulate | reflexivity |].
  apply quality_ok_updateQuality.
  eapply quality_ok_within; [apply within_set_loop | reflexivity | exact H].
Qed.

Lemma quality_ok_handle e s : quality_ok s -> quality_ok (handle e s).
Proof.
  intros H.
  assert (Hi : quality_ok (initOnce s)).
  { eapply quality_ok_within; [apply within_initOnce | reflexivity | exact H]. }
  destruct e; cbn [handle]; unfold listening.
  - apply quality_ok_reset, perf_start.
  - eapply quality_ok_within; [apply within_stop | reflexivity | exact Hi].
  - eapply quality_ok_within; [apply within_pause | reflexivity | exact Hi].
  - apply quality_ok_reset, perf_resume.
  - eapply quality_ok_within; [apply within_resize | reflexivity | exact Hi].
  - eapply quality_ok_within; [apply within_burst | reflexivity | exact Hi].
  - eapply quality_ok_within; [apply within_unlockSfxOnce | reflexivity | exact Hi].
  - assert (H1 : quality_ok
                   (match stepRafId (loop s) with Some _ => step ts s | None => s end)).
    { destruct (stepRafId _); [apply quality_ok_step |]; exact H. }
    cbv zeta. destruct (launchRafId _); [| exact H1].
    eapply quality_ok_within; [apply within_autoLaunch | reflexivity | exact H1].
  - destruct (timers s !! i); [| exact H].
    eapply quality_ok_within; [apply within_runTimer | reflexivity |].
    eapply quality_ok_within; [apply within_set_timers | reflexivity | exact H].
  - destruct (inited _); [| exact H].
    eapply quality_ok_within; [apply within_onClick | reflexivity | exact H].
  - destruct (inited _); [| exact H].
    eapply quality_ok_within; [apply within_resize | reflexivity | exact H].
  - destruct (inited _); [| exact H]. destruct hidden.
    + eapply quality_ok_within; [apply within_pause | reflexivity | exact H].
    + apply quality_ok_reset, perf_resume.
  - destruct (inited _); [| exact H].
    eapply quality_ok_within; [apply within_pause | reflexivity | exact H].
  - destruct (inited _); [| exact H]. destruct hidden; [exact H |].
    apply quality_ok_reset, perf_resume.
  - destruct (inited _); [| exact H].
    eapply quality_ok_within; [apply within_pause | reflexivity | exact H].
  - destruct (inited _); [| exact H]. destruct hidden; [exact H |].
    apply quality_ok_reset, perf_resume.
  - exact H.
Qed.

Lemma quality_ok_run es : forall s, quality_ok s -> quality_ok (run es s).
Proof.
  induction es as [| e es IH]; intros s H; [exact H |].
  apply IH, quality_ok_handle, H.
Qed.

(** C4. The quality scalar is 1.0 when the script is loaded and after every
    [resetPerf] (so after [start] and [resume]); [updateQuality] either
    leaves it alone or moves it by the EMA toward
    [qualityFromFps (min fpsSmoothed 62)] and clamps the result; and
    whatever happens to the script -- API calls, frames, timers, DOM events,
    changes of the host -- it stays within [0.55, 1.0]. *)
Theorem quality_always_within_bounds (hst : Host) (es : list Event) :
  quality (perf (init hst)) == 1
  /\ (forall s, quality (perf (resetPerf s)) == 1)
  /\ (forall c s, quality (perf (start c s)) == 1)
  /\ (forall s, quality (perf (resume s)) == 1)
  /\ (forall ts deltaMs s,
        quality (perf (updateQuality ts deltaMs s)) =
          if Qltb 220 (ts - lastQualityTs (perf s))
          then clamp (lerp (quality (perf s))
                           (qualityFromFps
                              (Qmin (fpsSmoothed (perf (measureFps deltaMs s))) 62))
                           QUALITY_EMA)
                     MIN_QUALITY MAX_QUALITY
          else quality (perf s))
  /\ (forall fps, 0.55 <= qualityFromFps fps <= 1)
  /\ 0.55 <= quality (perf (run es (init hst))) <= 1.
Proof.
  assert (Hrun : quality_ok (run es (init hst))).
  { apply quality_ok_run. apply quality_ok_reset, perf_init. }
  split; [reflexivity |].
  split; [intros s; reflexivity |].
  split; [intros c s; rewrite perf_start; reflexivity |].
  split; [intros s; rewrite perf_resume; reflexivity |].
  split; [intros ts deltaMs s; apply quality_updateQuality |].
  split; [intros fps; apply qualityFromFps_range |].
  exact Hrun.
Qed.

(** ** Pause, resume and the simulated time-step *)

Lemma ents_pause s : ents (pause s) = ents s.
Proof. unfold pause. destruct (negb _); reflexivity. Qed.

Lemma ents_resume s : ents (resume s) = ents s.
Proof. reflexivity. Qed.

Lemma lastTs_resume s : lastTs (loop (resume s)) = None.
Proof. reflexivity. Qed.

Lemma running_resume s : running (loop (resume s)) = true.
Proof. reflexivity. Qed.

Lemma stepDt_le ts s : stepDt ts s <= 0.033.
Proof. unfold stepDt. apply clamp_bounds. lra. Qed.

Lemma stepDt_ge ts s : 0 <= stepDt ts s.
Proof. unfold stepDt. apply clamp_bounds. lra. Qed.

Lemma step_running ts s :
  running (loop s) = true ->
  step ts s = simulate (stepDt ts s)
                (updateQuality ts (stepDelta ts s) (set_loop (with_lastTs (Some ts)) s)).
Proof. intros H. unfold step. rewrite H. reflexivity. Qed.

(** C6. [pause] and [resume] leave the rockets, particles and smoke puffs
    (and the pools) exactly as they are, so [pause] followed by [resume]
    changes no live-entity count; and whatever the host's clock and sizes
    have become while paused ([hst]), the step that follows [resume], at
    any timestamp [ts], measures an elapsed time of 0 and simulates with a
    time-step of at most 0.033 s (as does every step). *)
Theorem pause_resume_keeps_entities_and_dt_clamped (s : State) (hst : Host) (ts : Q) :
  let paused := pause s in
  let resumed := resume (set_host (fun _ => hst) paused) in
  ents paused = ents s
  /\ ents resumed = ents s
  /\ ents (resume (pause s)) = ents s
  /\ length (rockets (ents resumed)) = length (rockets (ents s))
  /\ length (particles (ents resumed)) = length (particles (ents s))
  /\ length (smokePuffs (ents resumed)) = length (smokePuffs (ents s))
  /\ step ts resumed
     = simulate (stepDt ts resumed)
         (updateQuality ts (stepDelta ts resumed)
            (set_loop (with_lastTs (Some ts)) resumed))
  /\ stepDelta ts resumed == 0
  /\ stepDt ts resumed == 0
  /\ stepDt ts resumed <= 0.033
  /\ (forall ts' s', stepDt ts' s' <= 0.033).
Proof.
  cbv zeta.
  assert (E : ents (resume (set_host (fun _ => hst) (pause s))) = ents s).
  { rewrite ents_resume. cbn [ents set_host]. apply ents_pause. }
  assert (D : stepDelta ts (resume (set_host (fun _ => hst) (pause s))) == 0).
  { unfold stepDelta. rewrite lastTs_resume. ring. }
  split; [apply ents_pause |].
  split; [exact E |].
  split; [rewrite ents_resume; apply ents_pause |].
  split; [now rewrite E |].
  split; [now rewrite E |].
  split; [now rewrite E |].
  split; [apply step_running, running_resume |].
  split; [exact D |].
  split.
  { unfold stepDt.
    assert (D' : stepDelta ts (resume (set_host (fun _ => hst) (pause s))) / 1000 == 0)
      by (rewrite D; reflexivity).
    eapply Qeq_trans; [apply clamp_id | exact D'].
    rewrite D'. lra. }
  split; [apply stepDt_le |].
  intros ts' s'. apply stepDt_le.
Qed.

(** ** Stop releases every live entity *)

Lemma freeAllRockets_spec n : forall s,
  (length (rockets (ents s)) <= n)%nat ->
  rockets (ents (freeAllRockets n s)) = []
  /\ rocketPool (ents (freeAllRockets n s))
     = rocketPool (ents s) ++ rev (rockets (ents s)).
Proof.
  induction n as [| n IH]; intros s Hn; cbn [freeAllRockets].
  - destruct (rockets (ents s)); [| simpl in Hn; lia].
    simpl. rewrite app_nil_r. auto.
  - destruct (pop (rockets (ents s))) as [[r rest] |] eqn:E.
    + apply pop_Some in E.
      specialize (IH (freeRocket r (set_rockets (fun _ => rest) s))).
      cbn [ents rockets rocketPool freeRocket set_rockets set_rocketPool set_ents] in IH.
      destruct IH as [IH1 IH2].
      { rewrite E in Hn. unfold push in Hn. rewrite length_app in Hn. simpl in Hn. lia. }
      split; [exact IH1 |].
      rewrite IH2, E. unfold push. rewrite rev_app_distr. simpl.
      now rewrite <- app_assoc.
    + apply pop_None in E. rewrite E. simpl. rewrite app_nil_r. auto.
Qed.

Lemma freeAllParticles_spec n : forall s,
  (length (particles (ents s)) <= n)%nat ->
  particles (ents (freeAllParticles n s)) = []
  /\ particlePool (ents (freeAllParticles n s))
     = particlePool (ents s) ++ rev (particles (ents s)).
Proof.
  induction n as [| n IH]; intros s Hn; cbn [freeAllParticles].
  - destruct (particles (ents s)); [| simpl in Hn; lia].
    simpl. rewrite app_nil_r. auto.
  - destruct (pop (particles (ents s))) as [[r rest] |] eqn:E.
    + apply pop_Some in E.
      specialize (IH (freeParticle r (set_particles (fun _ => rest) s))).
      cbn [ents particles particlePool freeParticle set_particles set_particlePool
           set_ents] in IH.
      destruct IH as [IH1 IH2].
      { rewrite E in Hn. unfold push in Hn. rewrite length_app in Hn. simpl in Hn. lia. }
      split; [exact IH1 |].
      rewrite IH2, E. unfold push. rewrite rev_app_distr. simpl.
      now rewrite <- app_assoc.
    + apply pop_None in E. rewrite E. simpl. rewrite app_nil_r. auto.
Qed.

Lemma freeAllSmoke_spec n : forall s,
  (length (smokePuffs (ents s)) <= n)%nat ->
  smokePuffs (ents (freeAllSmoke n s)) = []
  /\ smokePool (ents (freeAllSmoke n s))
     = smokePool (ents s) ++ rev (smokePuffs (ents s)).
Proof.
  induction n as [| n IH]; intros s Hn; cbn [freeAllSmoke].
  - destruct (smokePuffs (ents s)); [| simpl in Hn; lia].
    simpl. rewrite app_nil_r. auto.
  - destruct (pop (smokePuffs (ents s))) as [[r rest] |] eqn:E.
    + apply pop_Some in E.
      specialize (IH (freeSmoke r (set_smokePuffs (fun _ => rest) s))).
      cbn [ents smokePuffs smokePool freeSmoke set_smokePuffs set_smokePool set_ents] in IH.
      destruct IH as [IH1 IH2].
      { rewrite E in Hn. unfold push in Hn. rewrite length_app in Hn. simpl in Hn. lia. }
      split; [exact IH1 |].
      rewrite IH2, E. unfold push. rewrite rev_app_distr. simpl.
      now rewrite <- app_assoc.
    + apply pop_None in E. rewrite E. simpl. rewrite app_nil_r. auto.
Qed.

(** After [stop] no particle is live. *)
Lemma stop_particles_empty (s : State) : particles (ents (stop s)) = [].
Proof.
  unfold stop. cbv zeta.
  set (s1 := freeAllRockets _ (pause s)).
  set (s2 := freeAllParticles _ s1).
  set (s3 := freeAllSmoke _ s2).
  change (particles (ents s3) = []).
  assert (A3 : agree (fp [CSmokePuffs; CSmokePool]) s2 s3) by apply within_freeAllSmoke.
  rewrite (proj1 A3 CParticles eq_refl : particles (ents s3) = _).
  exact (proj1 (freeAllParticles_spec (length (particles (ents s1))) s1 (le_n _))).
Qed.

(** C7. When [stop] returns there is no live rocket, particle or smoke
    puff, and each pool holds what it held before followed by the records
    that were live (last live record first): every entity that was live is
    in its own pool, ready for reuse. *)
Theorem stop_empties_live_and_fills_pools (s : State) :
  rockets (ents (stop s)) = []
  /\ particles (ents (stop s)) = []
  /\ smokePuffs (ents (stop s)) = []
  /\ rocketPool (ents (stop s)) = rocketPool (ents s) ++ rev (rockets (ents s))
  /\ particlePool (ents (stop s)) = particlePool (ents s) ++ rev (particles (ents s))
  /\ smokePool (ents (stop s)) = smokePool (ents s) ++ rev (smokePuffs (ents s))
  /\ (forall r, In r (rockets (ents s)) -> In r (rocketPool (ents (stop s))))
  /\ (forall p, In p (particles (ents s)) -> In p (particlePool (ents (stop s))))
  /\ (forall p, In p (smokePuffs (ents s)) -> In p (smokePool (ents (stop s)))).
Proof.
  unfold stop. cbv zeta.
  set (s0 := pause s).
  assert (E0 : ents s0 = ents s) by apply ents_pause.
  set (s1 := freeAllRockets (length (rockets (ents s0))) s0).
  set (s2 := freeAllParticles (length (particles (ents s1))) s1).
  set (s3 := freeAllSmoke (length (smokePuffs (ents s2))) s2).
  destruct (freeAllRockets_spec (length (rockets (ents s0))) s0 (le_n _)) as [R1 R2].
  destruct (freeAllParticles_spec (length (particles (ents s1))) s1 (le_n _)) as [P1 P2].
  destruct (freeAllSmoke_spec (length (smokePuffs (ents s2))) s2 (le_n _)) as [S1 S2].
  fold s1 in R1, R2. fold s2 in P1, P2. fold s3 in S1, S2.
  assert (A1 : agree (fp [CRockets; CRocketPool]) s0 s1) by apply within_freeAllRockets.
  assert (A2 : agree (fp [CParticles; CParticlePool]) s1 s2)
    by apply within_freeAllParticles.
  assert (A3 : agree (fp [CSmokePuffs; CSmokePool]) s2 s3) by apply within_freeAllSmoke.
  assert (Er : rockets (ents (resize s3)) = []).
  { change (rockets (ents s3) = []).
    rewrite (proj1 A3 CRockets eq_refl : rockets (ents s3) = _).
    rewrite (proj1 A2 CRockets eq_refl : rockets (ents s2) = _). exact R1. }
  assert (Ep : particles (ents (resize s3)) = []).
  { change (particles (ents s3) = []).
    rewrite (proj1 A3 CParticles eq_refl : particles (ents s3) = _). exact P1. }
  assert (Es : smokePuffs (ents (resize s3)) = []) by exact S1.
  assert (Erp : rocketPool (ents (resize s3))
                = rocketPool (ents s) ++ rev (rockets (ents s))).
  { change (rocketPool (ents s3) = rocketPool (ents s) ++ rev (rockets (ents s))).
    rewrite (proj1 A3 CRocketPool eq_refl : rocketPool (ents s3) = _).
    rewrite (proj1 A2 CRocketPool eq_refl : rocketPool (ents s2) = _).
    rewrite R2, E0. reflexivity. }
  assert (Epp : particlePool (ents (resize s3))
                = particlePool (ents s) ++ rev (particles (ents s))).
  { change (particlePool (ents s3)
            = particlePool (ents s) ++ rev (particles (ents s))).
    rewrite (proj1 A3 CParticlePool eq_refl : particlePool (ents s3) = _).
    rewrite P2.
    rewrite (proj1 A1 CParticlePool eq_refl : particlePool (ents s1) = _).
    rewrite (proj1 A1 CParticles eq_refl : particles (ents s1) = _).
    rewrite E0. reflexivity. }
  assert (Esp : smokePool (ents (resize s3))
                = smokePool (ents s) ++ rev (smokePuffs (ents s))).
  { change (smokePool (ents s3) = smokePool (ents s) ++ rev (smokePuffs (ents s))).
    rewrite S2.
    rewrite (proj1 A2 CSmokePool eq_refl : smokePool (ents s2) = _).
    rewrite (proj1 A2 CSmokePuffs eq_refl : smokePuffs (ents s2) = _).
    rewrite (proj1 A1 CSmokePool eq_refl : smokePool (ents s1) = _).
    rewrite (proj1 A1 CSmokePuffs eq_refl : smokePuffs (ents s1) = _).
    rewrite E0. reflexivity. }
  repeat split; try assumption.
  - intros r Hr. rewrite Erp. apply in_or_app. right. now apply in_rev in Hr.
  - intros r Hr. rewrite Epp. apply in_or_app. right. now apply in_rev in Hr.
  - intros r Hr. rewrite Esp. apply in_or_app. right. now apply in_rev in Hr.
Qed.

(** ** Pools *)

Lemma set_rocketPool_push_pop r s :
  set_rocketPool (fun _ => rocketPool (ents s)) (freeRocket r s) = s.
Proof. destruct s as [? ? ? ? [] ? ? ?]. reflexivity. Qed.

Lemma set_particlePool_push_pop p s :
  set_particlePool (fun _ => particlePool (ents s)) (freeParticle p s) = s.
Proof. destruct s as [? ? ? ? [] ? ? ?]. reflexivity. Qed.

Lemma set_smokePool_push_pop p s :
  set_smokePool (fun _ => smokePool (ents s)) (freeSmoke p s) = s.
Proof. destruct s as [? ? ? ? [] ? ? ?]. reflexivity. Qed.

Lemma allocRocket_freeRocket r s : allocRocket (freeRocket r s) = (r, s).
Proof.
  unfold allocRocket. cbn [freeRocket set_rocketPool set_ents ents rocketPool].
  rewrite pop_push. f_equal. apply set_rocketPool_push_pop.
Qed.

Lemma allocParticle_freeParticle p s : allocParticle (freeParticle p s) = (p, s).
Proof.
  unfold allocParticle. cbn [freeParticle set_particlePool set_ents ents particlePool].
  rewrite pop_push. f_equal. apply set_particlePool_push_pop.
Qed.

Lemma allocSmoke_freeSmoke p s : allocSmoke (freeSmoke p s) = (p, s).
Proof.
  unfold allocSmoke. cbn [freeSmoke set_smokePool set_ents ents smokePool].
  rewrite pop_push. f_equal. apply set_smokePool_push_pop.
Qed.

(** C2, as the code has it.  For each entity kind, acquiring from a pool
    that holds a released record returns the record released last exactly
    as it was released, with every field as its previous use left it, and
    takes it out of the pool; only an empty pool yields the default-valued
    record of the object literal (and the pool stays empty). *)
Theorem alloc_returns_released_record_as_is (s : State) :
  (forall r, allocRocket (freeRocket r s) = (r, s))
  /\ (forall p, allocParticle (freeParticle p s) = (p, s))
  /\ (forall p, allocSmoke (freeSmoke p s) = (p, s))
  /\ (rocketPool (ents s) = [] -> allocRocket s = (freshRocket, s))
  /\ (particlePool (ents s) = [] -> allocParticle s = (baseParticle, s))
  /\ (smokePool (ents s) = [] -> allocSmoke s = (freshSmoke, s)).
Proof.
  split; [intros r; apply allocRocket_freeRocket |].
  split; [intros r; apply allocParticle_freeParticle |].
  split; [intros r; apply allocSmoke_freeSmoke |].
  split; [| split].
  - intros E. unfold allocRocket. rewrite E. reflexivity.
  - intros E. unfold allocParticle. rewrite E. reflexivity.
  - intros E. unfold allocSmoke. rewrite E. reflexivity.
Qed.

(** ** Recycled records are overwritten before they go live *)

Lemma makeParticle_ignores_pool x y vx vy life size hue kind s pool1 pool2 :
  fst (makeParticle x y vx vy life size hue kind (set_particlePool (fun _ => pool1) s))
  = fst (makeParticle x y vx vy life size hue kind (set_particlePool (fun _ => pool2) s)).
Proof.
  unfold makeParticle, bind, allocParticle.
  cbn [set_particlePool set_ents ents particlePool].
  destruct (pop pool1) as [[p1 r1] |], (pop pool2) as [[p2 r2] |]; reflexivity.
Qed.

Lemma makeParticle_life x y vx vy life size hue kind s :
  Particle.life (fst (makeParticle x y vx vy life size hue kind s)) = life
  /\ Particle.maxLife (fst (makeParticle x y vx vy life size hue kind s)) = life.
Proof.
  unfold makeParticle, bind, allocParticle.
  destruct (pop _) as [[p1 r1] |]; split; reflexivity.
Qed.

Lemma spawnRocket_ignores_pool x s pool1 pool2 :
  rockets (ents (spawnRocket x (set_rocketPool (fun _ => pool1) s)))
  = rockets (ents (spawnRocket x (set_rocketPool (fun _ => pool2) s))).
Proof.
  unfold spawnRocket.
  change (maxRocketsCap (set_rocketPool (fun _ => pool1) s)) with (maxRocketsCap s).
  change (maxRocketsCap (set_rocketPool (fun _ => pool2) s)) with (maxRocketsCap s).
  cbn [set_rocketPool set_ents ents rockets view loop].
  destruct (len (rockets (ents s)) >=? maxRocketsCap s)%Z; [reflexivity |].
  destruct (Qltb (w (view s)) 10 || Qltb (h (view s)) 10); [reflexivity |].
  unfold exec, bind, allocRocket.
  cbn [set_rocketPool set_ents ents rocketPool].
  destruct (pop pool1) as [[p1 r1] |], (pop pool2) as [[p2 r2] |]; destruct x; reflexivity.
Qed.

Lemma spawnSmoke_ignores_pool x y s pool1 pool2 :
  smokePuffs (ents (spawnSmoke x y (set_smokePool (fun _ => pool1) s)))
  = smokePuffs (ents (spawnSmoke x y (set_smokePool (fun _ => pool2) s))).
Proof.
  unfold spawnSmoke.
  change (maxSmokeCap (set_smokePool (fun _ => pool1) s)) with (maxSmokeCap s).
  change (maxSmokeCap (set_smokePool (fun _ => pool2) s)) with (maxSmokeCap s).
  cbn [set_smokePool set_ents ents smokePuffs host].
  destruct (negb (smokeSprite (host s))); [reflexivity |].
  destruct (len (smokePuffs (ents s)) >=? maxSmokeCap s)%Z; [reflexivity |].
  unfold exec, bind, allocSmoke.
  cbn [set_smokePool set_ents ents smokePool].
  destruct (pop pool1) as [[p1 r1] |], (pop pool2) as [[p2 r2] |]; reflexivity.
Qed.

(** C3. The record [spawnRocket], [makeParticle] and [spawnSmoke] put into
    play does not depend on what the pool held: whichever record the pool
    hands out ([pool1] or [pool2], or none), the live rockets, the particle
    returned for [pushParticle], and the live smoke puffs are the same,
    because every field is assigned before the record goes live.  A
    particle made with a non-zero [life] has [life = maxLife], hence a life
    fraction of 1. *)
Theorem recycled_records_fully_overwritten :
  (forall x s pool1 pool2,
      rockets (ents (spawnRocket x (set_rocketPool (fun _ => pool1) s)))
      = rockets (ents (spawnRocket x (set_rocketPool (fun _ => pool2) s))))
  /\ (forall x y vx vy life size hue kind s pool1 pool2,
        fst (makeParticle x y vx vy life size hue kind
               (set_particlePool (fun _ => pool1) s))
        = fst (makeParticle x y vx vy life size hue kind
                 (set_particlePool (fun _ => pool2) s)))
  /\ (forall x y s pool1 pool2,
        smokePuffs (ents (spawnSmoke x y (set_smokePool (fun _ => pool1) s)))
        = smokePuffs (ents (spawnSmoke x y (set_smokePool (fun _ => pool2) s))))
  /\ (forall x y vx vy life size hue kind s,
        ~ life == 0 ->
        let p := fst (makeParticle x y vx vy life size hue kind s) in
        Particle.life p / Particle.maxLife p == 1).
Proof.
  split; [exact spawnRocket_ignores_pool |].
  split; [exact makeParticle_ignores_pool |].
  split; [exact spawnSmoke_ignores_pool |].
  intros x y vx vy life size hue kind s Hl p.
  destruct (makeParticle_life x y vx vy life size hue kind s) as [E1 E2].
  subst p. rewrite E1, E2. field. exact Hl.
Qed.

(** ** Manual bursts *)

(** What [burst] does once it is past its size guard. *)
Definition burstGenerator (x y : Q) : State -> State :=
  exec (hue <- randomHue ;;
        kind <- chooseBurstKind ;;
        modify (explodeBurst x y hue kind)).

Definition orDefault (o : option Q) (d : Q) : Q :=
  match o with Some v => v | None => d end.

Lemma burst_guard x y s :
  burst x y s =
    if Qltb (w (view s)) 10 || Qltb (h (view s)) 10 then s
    else burstGenerator (orDefault x (w (view s) * 0.5)) (orDefault y (h (view s) * 0.6)) s.
Proof. unfold burst. destruct x, y; reflexivity. Qed.

Lemma rpos_burstGenerator x y s : (rpos s + 2 <= rpos (burstGenerator x y s))%nat.
Proof.
  unfold burstGenerator, exec, bind, modify. cbn [fst snd].
  match goal with
  | |- (_ <= rpos (explodeBurst ?a ?b ?c ?d ?t))%nat =>
      pose proof (proj2 (within_explodeBurst a b c d t)) as H
  end.
  cbn [rpos chooseBurstKind randomHue rand random bind ret set_rpos fst snd] in H |- *.
  lia.
Qed.

(** C9, as the code has it.  Whatever the lifecycle state ([running] is not
    consulted), [burst] runs the burst generator -- consuming at least two
    results of [Math.random] -- when the surface is at least 10 px wide and
    10 px high, and is dropped, leaving the state untouched, when the width
    or the height is below 10 px. *)
Theorem burst_accepted_iff_surface_at_least_10px (x y : option Q) (s : State) :
  (10 <= w (view s) /\ 10 <= h (view s) ->
     burst x y s
     = burstGenerator (orDefault x (w (view s) * 0.5)) (orDefault y (h (view s) * 0.6)) s
     /\ (rpos s + 2 <= rpos (burst x y s))%nat)
  /\ (w (view s) < 10 \/ h (view s) < 10 -> burst x y s = s).
Proof.
  rewrite burst_guard. split.
  - intros [Hw Hh].
    apply Qltb_ge in Hw. apply Qltb_ge in Hh. rewrite Hw, Hh. cbn [orb].
    split; [reflexivity | apply rpos_burstGenerator].
  - intros [Hw | Hh].
    + apply Qltb_lt in Hw. rewrite Hw. reflexivity.
    + apply Qltb_lt in Hh. rewrite Hh, orb_true_r. reflexivity.
Qed.

(** ** Particle capacity *)

Definition plen (s : State) : Z := len (particles (ents s)).

Lemma plen_nonneg s : (0 <= plen s)%Z.
Proof. apply len_nonneg. Qed.

Lemma maxParticlesCap_perf s s' : perf s' = perf s -> maxParticlesCap s' = maxParticlesCap s.
Proof. unfold maxParticlesCap. intros ->. reflexivity. Qed.

Lemma maxParticlesCap_range s : (22 <= maxParticlesCap s <= 50)%Z.
Proof. unfold maxParticlesCap, clampZ, BASE_MAX_PARTICLES. lia. Qed.

Lemma roomForParticles_eq s : roomForParticles s = Z.max 0 (maxParticlesCap s - plen s).
Proof. reflexivity. Qed.

(** Functions that change neither the quality state nor the live particles. *)
Definition fp_quiet : Footprint :=
  fp [CHost; CView; CLoop; CRockets; CSmokePuffs; CRocketPool; CParticlePool;
      CSmokePool; CSfx; CTimers; CRpos].

Lemma quiet_perf s s' : agree fp_quiet s s' -> perf s' = perf s.
Proof. intros H. exact (proj1 H CPerf eq_refl). Qed.

Lemma quiet_plen s s' : agree fp_quiet s s' -> plen s' = plen s.
Proof. intros H. unfold plen. now rewrite (proj1 H CParticles eq_refl : particles _ = _). Qed.

Lemma quiet_cap s s' : agree fp_quiet s s' -> maxParticlesCap s' = maxParticlesCap s.
Proof. intros H. apply maxParticlesCap_perf, quiet_perf, H. Qed.

(** [pushParticle] adds the particle exactly when the array is below the cap. *)
Definition pushed (s s' : State) : Prop :=
  perf s' = perf s
  /\ plen s' = (if (plen s >=? maxParticlesCap s)%Z then plen s else plen s + 1)%Z.

Lemma pushParticle_pushed p s : pushed s (pushParticle p s).
Proof.
  unfold pushed, pushParticle, plen.
  destruct (len (particles (ents s)) >=? maxParticlesCap s)%Z.
  - split; reflexivity.
  - split; [reflexivity |].
    cbn [set_particles set_ents ents particles]. apply len_push.
Qed.

Definition adds_one (f : State -> State) : Prop := forall s, pushed s (f s).

Definition adds_oneM (m : M unit) : Prop := forall s, pushed s (snd (m s)).

Lemma adds_oneM_push p : adds_oneM (modify (pushParticle p)).
Proof. intros s. apply pushParticle_pushed. Qed.

Lemma adds_oneM_bind {A} (m : M A) (k : A -> M unit) :
  withinM fp_quiet m -> (forall a, adds_oneM (k a)) -> adds_oneM (bind m k).
Proof.
  intros Hm Hk s. unfold bind. cbv zeta.
  destruct (Hk (fst (m s)) (snd (m s))) as [E1 E2].
  pose proof (Hm s) as Hq.
  unfold pushed. rewrite E1, E2.
  rewrite (quiet_perf _ _ Hq), (quiet_plen _ _ Hq), (quiet_cap _ _ Hq). auto.
Qed.

Lemma adds_one_exec m : adds_oneM m -> adds_one (exec m).
Proof. intros H s. apply H. Qed.

Ltac adds_one :=
  apply adds_one_exec;
  repeat (cbv beta zeta;
          first [ apply adds_oneM_push
                | apply adds_oneM_bind; [ solve [frame] | intro ] ]).

Lemma adds_one_peonySpark x y hue : adds_one (peonySpark x y hue).
Proof. unfold peonySpark. adds_one. Qed.

Lemma adds_one_peonyGlitter x y hue : adds_one (peonyGlitter x y hue).
Proof. unfold peonyGlitter. adds_one. Qed.

Lemma adds_one_ringSpark x y hue count jitter i : adds_one (ringSpark x y hue count jitter i).
Proof. unfold ringSpark. adds_one. Qed.

Lemma adds_one_ringCore x y hue : adds_one (ringCore x y hue).
Proof. unfold ringCore. adds_one. Qed.

Lemma adds_one_palmSpark x y armAng armHue perArm i :
  adds_one (palmSpark x y armAng armHue perArm i).
Proof. unfold palmSpark. adds_one. Qed.

Lemma adds_one_crackleSpark x y hue : adds_one (crackleSpark x y hue).
Proof. unfold crackleSpark. adds_one. Qed.

Lemma adds_one_crackleMicro p : adds_one (crackleMicro p).
Proof. unfold crackleMicro. adds_one. Qed.

(** [n] attempts add [n] particles, or as many as fit below the cap. *)
Definition grown (n : Z) (s s' : State) : Prop :=
  perf s' = perf s
  /\ plen s' = Z.max (plen s) (Z.min (plen s + n) (maxParticlesCap s)).

Lemma grown_0 s : grown 0 s s.
Proof. split; [reflexivity |]. pose proof (plen_nonneg s). lia. Qed.

Lemma grown_quiet_l n s s0 s' : agree fp_quiet s s0 -> grown n s0 s' -> grown n s s'.
Proof.
  intros Hq [E1 E2]. unfold grown.
  rewrite E1, E2, (quiet_perf _ _ Hq), (quiet_plen _ _ Hq), (quiet_cap _ _ Hq). auto.
Qed.

Lemma grown_quiet_r n s s0 s' : grown n s s0 -> agree fp_quiet s0 s' -> grown n s s'.
Proof.
  intros [E1 E2] Hq. unfold grown.
  rewrite (quiet_perf _ _ Hq), (quiet_plen _ _ Hq), E1, E2. auto.
Qed.

Lemma grown_pushed n s s0 s' :
  (0 <= n)%Z -> pushed s s0 -> grown n s0 s' -> grown (n + 1) s s'.
Proof.
  intros Hn [P1 P2] [E1 E2]. unfold grown.
  rewrite E1, E2, P1, P2, (maxParticlesCap_perf _ _ P1).
  split; [reflexivity |].
  destruct (plen s >=? maxParticlesCap s)%Z eqn:E; lia.
Qed.

Lemma grown_trans n m s s0 s' :
  (0 <= n)%Z -> (0 <= m)%Z -> grown n s s0 -> grown m s0 s' -> grown (n + m) s s'.
Proof.
  intros Hn Hm [P1 P2] [E1 E2]. unfold grown.
  rewrite E1, E2, P1, P2, (maxParticlesCap_perf _ _ P1).
  split; [reflexivity | lia].
Qed.

Lemma grown_for_from body :
  (forall i, adds_one (body i)) ->
  forall n i s, grown (Z.of_nat n) s (for_from i n body s).
Proof.
  intros Hb n. induction n as [| n IH]; intros i s; cbn [for_from].
  - apply grown_0.
  - replace (Z.of_nat (S n)) with (Z.of_nat n + 1)%Z by lia.
    eapply grown_pushed; [lia | apply Hb | apply IH].
Qed.

Lemma grown_for_loop body n s :
  (forall i, adds_one (body i)) -> grown (Z.of_nat n) s (for_loop n body s).
Proof. intros Hb. apply grown_for_from, Hb. Qed.

(** The count each pattern intends, as its first statements compute it. *)
Definition peonyIntended (s : State) : Z := Math_floor (fst (rand 110 160 s)).

Definition ringIntended (s : State) : Z := Math_floor (fst (rand 90 130 s)).

Definition crackleIntended (s : State) : Z := Math_floor (fst (rand 90 140 s)).

Definition palmArmCount (s : State) : Z := Math_floor (fst (rand 6 10 s)).

Definition palmPerArm (s : State) : Z :=
  Z.max 10 (Math_floor (fst (rand 14 20 (snd (rand 6 10 s))))).

Definition palmIntended (s : State) : Z := (palmArmCount s * palmPerArm s)%Z.

Definition intended (kind : BurstKind) (s : State) : Z :=
  match kind with
  | Peony => peonyIntended s
  | Ring => ringIntended s
  | Palm => palmIntended s
  | Crackle => crackleIntended s
  end.

(** What a pattern admits in its first pass: [min(intended, room)]. *)
Definition admitted (kind : BurstKind) (s : State) : Z :=
  Z.max 0 (Z.min (intended kind s) (roomForParticles s)).

Lemma rand_quiet a b s : agree fp_quiet s (snd (rand a b s)).
Proof. eapply agree_weaken; [exact (within_rand a b s) | fp_incl]. Qed.

Lemma explodePeony_grown x y hue s :
  exists extra, (0 <= extra)%Z
    /\ grown (admitted Peony s + extra) s (explodePeony x y hue s).
Proof.
  unfold admitted, intended, peonyIntended, explodePeony.
  destruct (roomForParticles s <=? 0)%Z eqn:E.
  - exists 0%Z. split; [lia |].
    replace (Z.max 0 _ + 0)%Z with 0%Z by lia. apply grown_0.
  - unfold exec, bind, modify, gets. cbn [fst snd].
    set (r1 := rand 110 160 s).
    set (n1 := Z.to_nat (Z.min (Math_floor (fst r1)) (roomForParticles s))).
    set (s1 := for_loop n1 _ (snd r1)).
    set (r2 := rand 26 52 s1).
    set (n2 := Z.to_nat (Z.min (Math_floor (fst r2)) (roomForParticles s1))).
    exists (Z.of_nat n2). split; [lia |].
    replace (Z.max 0 (Z.min (Math_floor (fst r1)) (roomForParticles s)))
      with (Z.of_nat n1) by (unfold n1; lia).
    apply (grown_trans _ _ s s1);
      [apply Nat2Z.is_nonneg | apply Nat2Z.is_nonneg | |].
    + apply (grown_quiet_l _ s (snd r1)); [apply rand_quiet |].
      apply grown_for_loop. intros i. apply adds_one_peonySpark.
    + apply (grown_quiet_l _ s1 (snd r2)); [apply rand_quiet |].
      apply grown_for_loop. intros i. apply adds_one_peonyGlitter.
Qed.

Lemma explodeRing_grown x y hue s :
  exists extra, (0 <= extra)%Z
    /\ grown (admitted Ring s + extra) s (explodeRing x y hue s).
Proof.
  unfold admitted, intended, ringIntended, explodeRing.
  destruct (roomForParticles s <=? 0)%Z eqn:E.
  - exists 0%Z. split; [lia |].
    replace (Z.max 0 _ + 0)%Z with 0%Z by lia. apply grown_0.
  - unfold exec, bind, modify, gets. cbn [fst snd].
    set (r1 := rand 90 130 s).
    set (c := Z.min (Math_floor (fst r1)) (roomForParticles s)).
    set (rj := rand 0.08 0.18 (snd r1)).
    set (s1 := for_loop (Z.to_nat c) _ (snd rj)).
    set (r2 := rand 18 34 s1).
    set (n2 := Z.to_nat (Z.min (Math_floor (fst r2)) (roomForParticles s1))).
    exists (Z.of_nat n2). split; [lia |].
    replace (Z.max 0 c) with (Z.of_nat (Z.to_nat c)) by lia.
    apply (grown_trans _ _ s s1);
      [apply Nat2Z.is_nonneg | apply Nat2Z.is_nonneg | |].
    + apply (grown_quiet_l _ s (snd r1)); [apply rand_quiet |].
      apply (grown_quiet_l _ (snd r1) (snd rj)); [apply rand_quiet |].
      apply grown_for_loop. intros i. apply adds_one_ringSpark.
    + apply (grown_quiet_l _ s1 (snd r2)); [apply rand_quiet |].
      apply grown_for_loop. intros i. apply adds_one_ringCore.
Qed.

Lemma explodeCrackle_grown x y hue s :
  grown (admitted Crackle s) s (explodeCrackle x y hue s).
Proof.
  unfold admitted, intended, crackleIntended, explodeCrackle.
  destruct (roomForParticles s <=? 0)%Z eqn:E.
  - replace (Z.max 0 _) with 0%Z by lia. apply grown_0.
  - unfold exec, bind, modify. cbn [fst snd].
    set (r1 := rand 90 140 s).
    set (c := Z.min (Math_floor (fst r1)) (roomForParticles s)).
    replace (Z.max 0 c) with (Z.of_nat (Z.to_nat c)) by lia.
    apply (grown_quiet_l _ s (snd r1)); [apply rand_quiet |].
    apply grown_for_loop. intros i. apply adds_one_crackleSpark.
Qed.

Lemma palmArm_grown n : forall i x y armAng armHue perArm total made s,
  fst (palmArm n i x y armAng armHue perArm total made s)
  = (made + Z.min (Z.of_nat n) (Z.max 0 (total - made)))%Z
  /\ grown (Z.min (Z.of_nat n) (Z.max 0 (total - made))) s
           (snd (palmArm n i x y armAng armHue perArm total made s)).
Proof.
  induction n as [| n IH]; intros; cbn [palmArm].
  - cbn [fst snd]. replace (Z.min _ _) with 0%Z by lia.
    split; [lia | apply grown_0].
  - destruct (made <? total)%Z eqn:E.
    + specialize (IH (S i) x y armAng armHue perArm total (made + 1)%Z
                     (palmSpark x y armAng armHue perArm i s)).
      destruct IH as [IH1 IH2].
      replace (Z.min (Z.of_nat (S n)) (Z.max 0 (total - made)))
        with (Z.min (Z.of_nat n) (Z.max 0 (total - (made + 1))) + 1)%Z by lia.
      split; [rewrite IH1; lia |].
      eapply grown_pushed; [lia | apply adds_one_palmSpark | exact IH2].
    + cbn [fst snd]. replace (Z.min _ _) with 0%Z by lia.
      split; [lia | apply grown_0].
Qed.

Lemma palmArms_grown n : forall x y hue perArm total made s,
  fst (palmArms n x y hue perArm total made s)
  = (made + Z.min (Z.of_nat n * Z.of_nat (Z.to_nat perArm)) (Z.max 0 (total - made)))%Z
  /\ grown (Z.min (Z.of_nat n * Z.of_nat (Z.to_nat perArm)) (Z.max 0 (total - made))) s
           (snd (palmArms n x y hue perArm total made s)).
Proof.
  induction n as [| n IH]; intros; cbn [palmArms].
  - cbn [fst snd]. replace (Z.min _ _) with 0%Z by lia.
    split; [lia | apply grown_0].
  - set (P := Z.of_nat (Z.to_nat perArm)) in *.
    assert (HP : (0 <= P)%Z) by (subst P; lia).
    assert (HX : (0 <= Z.of_nat n * P)%Z) by nia.
    replace (Z.of_nat (S n) * P)%Z with (Z.of_nat n * P + P)%Z by lia.
    destruct (made <? total)%Z eqn:E.
    + cbv zeta.
      set (r1 := rand 0 (Math_PI * 2) s).
      set (r2 := rand (-12) 12 (snd r1)).
      set (armHue := js_mod (hue + fst r2 + 360) 360).
      destruct (palmArm_grown (Z.to_nat perArm) 0 x y (fst r1) armHue perArm total made
                  (snd r2)) as [A1 A2].
      fold P in A1, A2.
      set (r3 := palmArm (Z.to_nat perArm) 0 x y (fst r1) armHue perArm total made
                   (snd r2)) in *.
      specialize (IH x y hue perArm total (fst r3) (snd r3)).
      destruct IH as [IH1 IH2].
      rewrite A1 in IH1, IH2 |- *.
      set (k1 := Z.min P (Z.max 0 (total - made))) in *.
      set (K' := Z.min (Z.of_nat n * P) (Z.max 0 (total - (made + k1)))) in *.
      replace (Z.min (Z.of_nat n * P + P) (Z.max 0 (total - made))) with (k1 + K')%Z
        by (unfold K', k1; lia).
      split; [rewrite IH1; lia |].
      apply (grown_trans _ _ s (snd r3)); [unfold k1; lia | unfold K'; lia | | exact IH2].
      apply (grown_quiet_l _ s (snd r1)); [apply rand_quiet |].
      apply (grown_quiet_l _ (snd r1) (snd r2)); [apply rand_quiet |].
      exact A2.
    + cbn [fst snd]. replace (Z.min _ _) with 0%Z by lia.
      split; [lia | apply grown_0].
Qed.

Lemma explodePalm_grown x y hue s :
  grown (admitted Palm s) s (explodePalm x y hue s).
Proof.
  unfold admitted, intended, palmIntended, palmArmCount, palmPerArm, explodePalm.
  destruct (roomForParticles s <=? 0)%Z eqn:E.
  - replace (Z.max 0 _) with 0%Z by lia. apply grown_0.
  - unfold exec, bind, modify. cbn [fst snd].
    set (r1 := rand 6 10 s).
    set (r2 := rand 14 20 (snd r1)).
    set (arms := Math_floor (fst r1)).
    set (perArm := Z.max 10 (Math_floor (fst r2))).
    set (total := Z.min (arms * perArm) (roomForParticles s)).
    destruct (palmArms_grown (Z.to_nat arms) x y hue perArm total 0 (snd r2)) as [_ G].
    replace (Z.min (Z.of_nat (Z.to_nat arms) * Z.of_nat (Z.to_nat perArm))
                   (Z.max 0 (total - 0)))
      with (Z.max 0 total) in G.
    + apply (grown_quiet_l _ s (snd r1)); [apply rand_quiet |].
      apply (grown_quiet_l _ (snd r1) (snd r2)); [apply rand_quiet |]. exact G.
    + assert (Hp : (10 <= perArm)%Z) by (subst perArm; lia).
      replace (Z.of_nat (Z.to_nat perArm)) with perArm by lia.
      destruct (Z.le_gt_cases 0 arms) as [Ha | Ha].
      * replace (Z.of_nat (Z.to_nat arms)) with arms by lia.
        assert (0 <= arms * perArm)%Z by nia. subst total. lia.
      * replace (Z.of_nat (Z.to_nat arms)) with 0%Z by lia.
        assert (arms * perArm < 0)%Z by nia. subst total. lia.
Qed.

Lemma explodePattern_grown kind x y hue s :
  exists extra, (0 <= extra)%Z
    /\ grown (admitted kind s + extra) s (explodePattern kind x y hue s).
Proof.
  destruct kind; cbn [explodePattern].
  - apply explodePeony_grown.
  - apply explodeRing_grown.
  - exists 0%Z. split; [lia |]. rewrite Z.add_0_r. apply explodePalm_grown.
  - exists 0%Z. split; [lia |]. rewrite Z.add_0_r. apply explodeCrackle_grown.
Qed.

(** Some function grew the particle array by a number of attempts. *)
Definition grows (s s' : State) : Prop := exists n, (0 <= n)%Z /\ grown n s s'.

Lemma grows_refl s : grows s s.
Proof. exists 0%Z. split; [lia | apply grown_0]. Qed.

Lemma grows_trans s s0 s' : grows s s0 -> grows s0 s' -> grows s s'.
Proof.
  intros [n [Hn G1]] [m [Hm G2]]. exists (n + m)%Z. split; [lia |].
  eapply grown_trans; eauto.
Qed.

Lemma grows_quiet s s' : agree fp_quiet s s' -> grows s s'.
Proof.
  intros H. exists 0%Z. split; [lia |].
  eapply grown_quiet_r; [apply grown_0 | exact H].
Qed.

Lemma grows_bounds s s' :
  grows s s' ->
  perf s' = perf s
  /\ maxParticlesCap s' = maxParticlesCap s
  /\ (plen s <= plen s' <= Z.max (plen s) (maxParticlesCap s))%Z.
Proof.
  intros [n [Hn [E1 E2]]].
  split; [exact E1 |]. split; [apply maxParticlesCap_perf, E1 |]. lia.
Qed.

Lemma quiet_within fpr f s : within fpr f -> fp_le fpr fp_quiet -> agree fp_quiet s (f s).
Proof. intros H Hle. eapply agree_weaken; [apply H | exact Hle]. Qed.

Lemma popAndSmoke_quiet x y s : agree fp_quiet s (popAndSmoke x y s).
Proof. eapply quiet_within; [apply within_popAndSmoke | fp_incl]. Qed.

Lemma scheduleBreak_quiet x y hue s : agree fp_quiet s (scheduleBreak x y hue s).
Proof. eapply quiet_within; [apply within_scheduleBreak | fp_incl]. Qed.

Lemma explodeBurst_grown x y hue kind s :
  exists extra, (0 <= extra)%Z
    /\ grown (admitted kind (popAndSmoke x y s) + extra) s (explodeBurst x y hue kind s).
Proof.
  unfold explodeBurst.
  destruct (explodePattern_grown kind x y hue (popAndSmoke x y s)) as [extra [He G]].
  exists extra. split; [exact He |].
  eapply grown_quiet_r; [| apply scheduleBreak_quiet].
  eapply grown_quiet_l; [apply popAndSmoke_quiet | exact G].
Qed.

Lemma admitted_nonneg kind s : (0 <= admitted kind s)%Z.
Proof. unfold admitted. lia. Qed.

Lemma explodeBurst_grows x y hue kind s : grows s (explodeBurst x y hue kind s).
Proof.
  destruct (explodeBurst_grown x y hue kind s) as [extra [He G]].
  exists (admitted kind (popAndSmoke x y s) + extra)%Z.
  split; [pose proof (admitted_nonneg kind (popAndSmoke x y s)); lia | exact G].
Qed.

Lemma burstGenerator_grows x y s : grows s (burstGenerator x y s).
Proof.
  unfold burstGenerator, exec, bind, modify. cbn [fst snd].
  eapply grows_trans; [| apply explodeBurst_grows].
  apply grows_quiet.
  eapply agree_trans.
  - eapply agree_weaken; [exact (within_randomHue s) | fp_incl].
  - eapply agree_weaken; [exact (within_chooseBurstKind _) | fp_incl].
Qed.

Lemma burst_grows x y s : grows s (burst x y s).
Proof.
  rewrite burst_guard. destruct (_ || _); [apply grows_refl | apply burstGenerator_grows].
Qed.

Lemma explodePeony_grows x y hue s : grows s (explodePeony x y hue s).
Proof.
  destruct (explodePeony_grown x y hue s) as [extra [He G]].
  exists (admitted Peony s + extra)%Z.
  split; [pose proof (admitted_nonneg Peony s); lia | exact G].
Qed.

Lemma exec_bind {A B} (m : M A) (k : A -> M B) s :
  exec (bind m k) s = exec (k (fst (m s))) (snd (m s)).
Proof. reflexivity. Qed.

Lemma exec_modify f s : exec (modify f) s = f s.
Proof. reflexivity. Qed.

Lemma runTimer_grows a s : grows s (runTimer a s).
Proof.
  destruct a as [fx fy | x y dx dy hue]; cbn [runTimer].
  - apply burst_grows.
  - destruct (negb _); [apply grows_refl |].
    rewrite exec_bind, exec_bind.
    change (snd (modify ?f ?t)) with (f t).
    match goal with
    | |- grows s (exec ?m (explodePeony ?a ?b ?c ?t)) =>
        apply (grows_trans s t); [apply grows_quiet, rand_quiet |];
        apply (grows_trans t (explodePeony a b c t)); [apply explodePeony_grows |];
        apply grows_quiet;
        apply (quiet_within (fp [CSmokePuffs; CSmokePool; CRpos]) (exec m));
        [frame | fp_incl]
    end.
Qed.

Lemma crackle_grows dt p s : grows s (snd (crackle dt p s)).
Proof.
  unfold crackle, bind, gets, modify, ret. cbn [fst snd].
  destruct (_ && _); cbn [snd]; [| apply grows_refl].
  set (r1 := rand 0.02 0.07 s).
  set (r2 := rand 1 3 (snd r1)).
  apply (grows_trans s (snd r1)); [apply grows_quiet, rand_quiet |].
  apply (grows_trans (snd r1) (snd r2)); [apply grows_quiet, rand_quiet |].
  eexists. split; [apply Nat2Z.is_nonneg |].
  apply grown_for_loop. intros i. apply adds_one_crackleMicro.
Qed.

(** The ways particles get spawned: a manual burst, a rocket's explosion, a
    delivered timer, and the micro-sparks of a crackling particle. *)
Inductive SpawnOp :=
| OpBurst (x y : option Q)
| OpExplode (x y hue : Q) (kind : BurstKind)
| OpTimer (a : TimerAction)
| OpCrackle (dt : Q) (p : Particle.t).

Definition spawn (op : SpawnOp) (s : State) : State :=
  match op with
  | OpBurst x y => burst x y s
  | OpExplode x y hue kind => explodeBurst x y hue kind s
  | OpTimer a => runTimer a s
  | OpCrackle dt p => snd (crackle dt p s)
  end.

Definition spawns (ops : list SpawnOp) (s : State) : State :=
  fold_left (fun s op => spawn op s) ops s.

Lemma spawn_grows op s : grows s (spawn op s).
Proof.
  destruct op; cbn [spawn].
  - apply burst_grows.
  - apply explodeBurst_grows.
  - apply runTimer_grows.
  - apply crackle_grows.
Qed.

Lemma spawns_grows ops : forall s, grows s (spawns ops s).
Proof.
  induction ops as [| op ops IH]; intros s; cbn [spawns fold_left].
  - apply grows_refl.
  - eapply grows_trans; [apply spawn_grows | apply IH].
Qed.

Lemma pushParticle_plen p s :
  plen (pushParticle p s)
  = (if (plen s <? maxParticlesCap s)%Z then plen s + 1 else plen s)%Z.
Proof.
  destruct (pushParticle_pushed p s) as [_ E]. rewrite E.
  destruct (plen s >=? maxParticlesCap s)%Z eqn:E1,
           (plen s <? maxParticlesCap s)%Z eqn:E2; lia.
Qed.

(** C1. Let [C] be the particle capacity in force and [L <= C] the live
    count.
    - A pattern whose intended count is at least the headroom [C - L] adds
      exactly [C - L] particles, and so does a whole burst (whose pattern
      starts once the pop sound and the smoke puff are done).
    - In general a pattern admits [min(intended, C - L)] particles in its
      first pass (palm and crackle have no other) and never goes past [C].
    - [pushParticle] adds its particle exactly when the count is below [C].
    - After any sequence of manual bursts, rocket explosions, delivered
      timers and crackle micro-spawns the live count is still at most [C],
      the capacity being unchanged by them; and in any state whatever, a
      push that adds a particle leaves the count within the capacity. *)
Theorem bursts_clipped_to_particle_headroom (s : State) :
  (plen s <= maxParticlesCap s)%Z ->
  let C := maxParticlesCap s in
  let L := plen s in
  (forall kind x y hue,
      (C - L <= intended kind s)%Z ->
      (plen (explodePattern kind x y hue s) - L = C - L)%Z)
  /\ (forall kind x y hue,
        (C - L <= intended kind (popAndSmoke x y s))%Z ->
        (plen (explodeBurst x y hue kind s) - L = C - L)%Z)
  /\ (forall kind x y hue,
        (L + Z.max 0 (Z.min (intended kind s) (C - L))
         <= plen (explodePattern kind x y hue s) <= C)%Z)
  /\ (forall x y hue,
        plen (explodePalm x y hue s) = (L + Z.max 0 (Z.min (palmIntended s) (C - L)))%Z)
  /\ (forall x y hue,
        plen (explodeCrackle x y hue s)
        = (L + Z.max 0 (Z.min (crackleIntended s) (C - L)))%Z)
  /\ (forall p,
        plen (pushParticle p s) = (if (L <? C)%Z then L + 1 else L)%Z)
  /\ (forall ops,
        (plen (spawns ops s) <= C)%Z /\ maxParticlesCap (spawns ops s) = C)
  /\ (forall p s',
        plen (pushParticle p s') = (plen s' + 1)%Z ->
        (plen (pushParticle p s') <= maxParticlesCap (pushParticle p s'))%Z).
Proof.
  intros HL C L.
  assert (Hroom : forall s0, agree fp_quiet s s0 -> roomForParticles s0 = (C - L)%Z).
  { intros s0 H0. rewrite roomForParticles_eq, (quiet_cap _ _ H0), (quiet_plen _ _ H0).
    subst C L. lia. }
  assert (Hpat : forall kind x y hue,
             (plen (explodePattern kind x y hue s) - L = C - L)%Z
             \/ (intended kind s < C - L)%Z).
  { intros kind x y hue.
    destruct (explodePattern_grown kind x y hue s) as [extra [He [_ G]]].
    unfold admitted in G. rewrite (Hroom s (agree_refl _ _)) in G.
    fold C L in G. lia. }
  split.
  { intros kind x y hue Hi. destruct (Hpat kind x y hue); lia. }
  split.
  { intros kind x y hue Hi.
    destruct (explodeBurst_grown x y hue kind s) as [extra [He [_ G]]].
    unfold admitted in G. rewrite (Hroom _ (popAndSmoke_quiet x y s)) in G.
    fold C L in G. lia. }
  split.
  { intros kind x y hue.
    destruct (explodePattern_grown kind x y hue s) as [extra [He [_ G]]].
    unfold admitted in G. rewrite (Hroom s (agree_refl _ _)) in G.
    fold C L in G. lia. }
  split.
  { intros x y hue. destruct (explodePalm_grown x y hue s) as [_ G].
    unfold admitted, intended in G. rewrite (Hroom s (agree_refl _ _)) in G.
    fold C L in G. lia. }
  split.
  { intros x y hue. destruct (explodeCrackle_grown x y hue s) as [_ G].
    unfold admitted, intended in G. rewrite (Hroom s (agree_refl _ _)) in G.
    fold C L in G. lia. }
  split.
  { intros p. apply pushParticle_plen. }
  split.
  { intros ops. destruct (grows_bounds _ _ (spawns_grows ops s)) as [_ [Ec Hb]].
    fold C L in Hb. split; [lia | exact Ec]. }
  intros p s' H.
  rewrite pushParticle_plen in H.
  destruct (pushParticle_pushed p s') as [Ep El].
  rewrite (maxParticlesCap_perf _ _ Ep), pushParticle_plen.
  destruct (plen s' <? maxParticlesCap s')%Z eqn:E; lia.
Qed.

(** ** Quality under a constant low frame rate *)

(** The instantaneous FPS [updateQuality] derives from a frame delta. *)
Definition fpsInstantOf (deltaMs : Q) : Q := 1000 / clamp deltaMs 6 120.

(** [updateQuality] called once per timestamp of [tss], with the same delta. *)
Definition feed (deltaMs : Q) (tss : list Q) (s : State) : State :=
  fold_left (fun s ts => updateQuality ts deltaMs s) tss s.

(** The smoothed FPS is not below the signal, and the quality is not below
    what the smoothed FPS calls for: the governor has no catching up to do
    in the upward direction. *)
Definition settled (f : Q) (s : State) : Prop :=
  f <= fpsSmoothed (perf s)
  /\ qualityFromFps (Qmin (fpsSmoothed (perf s)) 62) <= quality (perf s)
  /\ quality_ok s.

Lemma fpsSmoothed_updateQuality ts deltaMs s :
  fpsSmoothed (perf (updateQuality ts deltaMs s))
  = fpsSmoothed (perf s) + (fpsInstantOf deltaMs - fpsSmoothed (perf s)) * FPS_EMA.
Proof.
  unfold updateQuality. rewrite quality_recheckDpr. cbn [fpsSmoothed with_lastResizeQualityCheck].
  unfold adjustQuality. destruct (Qltb 220 _); reflexivity.
Qed.

Lemma lastQualityTs_updateQuality ts deltaMs s :
  lastQualityTs (perf (updateQuality ts deltaMs s))
  = if Qltb 220 (ts - lastQualityTs (perf s)) then ts else lastQualityTs (perf s).
Proof.
  unfold updateQuality. rewrite quality_recheckDpr.
  cbn [lastQualityTs with_lastResizeQualityCheck].
  unfold adjustQuality. destruct (Qltb 220 _); reflexivity.
Qed.

Lemma fpsSmoothed_measureFps deltaMs s :
  fpsSmoothed (perf (measureFps deltaMs s))
  = fpsSmoothed (perf s) + (fpsInstantOf deltaMs - fpsSmoothed (perf s)) * FPS_EMA.
Proof. reflexivity. Qed.

Section LowFps.

(** What is used of [Math.pow(x, 0.78)]: it is monotone on [0, 1]. *)
Hypothesis pow_monotone :
  forall a b, 0 <= a -> a <= b -> b <= 1 -> Math_pow a 0.78 <= Math_pow b 0.78.

Lemma div_TARGET_FPS_mono a b : a <= b -> a / TARGET_FPS <= b / TARGET_FPS.
Proof.
  intros H. unfold Qdiv. apply Qmult_le_compat_r; [exact H |]. discriminate.
Qed.

Lemma ratio_bounds fps : 0 <= clamp (fps / TARGET_FPS) 0 1 <= 1.
Proof. apply clamp_bounds. lra. Qed.

Lemma qualityFromFps_mono f1 f2 : f1 <= f2 -> qualityFromFps f1 <= qualityFromFps f2.
Proof.
  intros H. unfold qualityFromFps. apply clamp_mono.
  apply pow_monotone.
  - apply ratio_bounds.
  - apply clamp_mono, div_TARGET_FPS_mono, H.
  - apply ratio_bounds.
Qed.

Lemma qualityFromFps_min62 f1 f2 :
  f1 <= f2 -> qualityFromFps f1 <= qualityFromFps (Qmin f2 62).
Proof.
  intros H. unfold qualityFromFps. apply clamp_mono.
  apply pow_monotone; [apply ratio_bounds | | apply ratio_bounds].
  destruct (Q.min_spec f2 62) as [[Hlt E] | [Hle E]].
  - apply clamp_mono, div_TARGET_FPS_mono. rewrite E. exact H.
  - unfold clamp at 2.
    assert (E1 : Qmin 1 (Qmin f2 62 / TARGET_FPS) == 1).
    { apply Q.min_l. rewrite E. vm_compute. discriminate. }
    rewrite E1. rewrite Q.max_r by lra. apply ratio_bounds.
Qed.

Lemma settled_updateQuality ts deltaMs s :
  settled (fpsInstantOf deltaMs) s ->
  settled (fpsInstantOf deltaMs) (updateQuality ts deltaMs s)
  /\ quality (perf (updateQuality ts deltaMs s)) <= quality (perf s)
  /\ qualityFromFps (fpsInstantOf deltaMs) <= quality (perf (updateQuality ts deltaMs s)).
Proof.
  intros [Hf [Hq [Hlo Hhi]]].
  set (f := fpsInstantOf deltaMs) in *.
  set (F := fpsSmoothed (perf s)) in *.
  set (Qy := quality (perf s)) in *.
  set (F' := F + (f - F) * FPS_EMA).
  assert (HF' : f <= F' /\ F' <= F) by (unfold F', FPS_EMA; lra).
  set (T := qualityFromFps (Qmin F' 62)).
  assert (HT1 : T <= Qy).
  { eapply Qle_trans; [| exact Hq]. apply qualityFromFps_mono.
    apply Q.min_le_compat_r. apply HF'. }
  assert (HT2 : qualityFromFps f <= T) by (apply qualityFromFps_min62, HF').
  assert (HT3 : MIN_QUALITY <= T <= MAX_QUALITY) by apply qualityFromFps_range.
  assert (EF : fpsSmoothed (perf (updateQuality ts deltaMs s)) = F')
    by apply fpsSmoothed_updateQuality.
  assert (EQ : quality (perf (updateQuality ts deltaMs s))
               = if Qltb 220 (ts - lastQualityTs (perf s))
                 then clamp (Qy + (T - Qy) * QUALITY_EMA) MIN_QUALITY MAX_QUALITY
                 else Qy).
  { rewrite quality_updateQuality, fpsSmoothed_measureFps. reflexivity. }
  unfold settled, quality_ok. rewrite EF, EQ. fold T.
  unfold MIN_QUALITY, MAX_QUALITY, QUALITY_EMA in *.
  destruct (Qltb 220 _).
  - assert (Hv : 0.55 <= Qy + (T - Qy) * 0.045 <= 1) by lra.
    rewrite (clamp_id _ _ _ Hv). repeat split; lra.
  - repeat split; lra.
Qed.

Lemma settled_feed deltaMs tss : forall s,
  settled (fpsInstantOf deltaMs) s ->
  settled (fpsInstantOf deltaMs) (feed deltaMs tss s)
  /\ quality (perf (feed deltaMs tss s)) <= quality (perf s).
Proof.
  induction tss as [| ts tss IH]; intros s H; cbn [feed fold_left].
  - split; [exact H | lra].
  - destruct (settled_updateQuality ts deltaMs s H) as [H1 [H2 _]].
    destruct (IH _ H1) as [H3 H4]. split; [exact H3 |].
    unfold feed in H4. lra.
Qed.

(** C5, as the code has it.  Feed [updateQuality] a constant frame delta,
    at any timestamps.  If the smoothed FPS estimate is already not below
    the instantaneous FPS of that delta, and the quality is not below
    [qualityFromFps] of the smoothed estimate (both hold right after
    [resetPerf] for a delta of 1000/60 ms or more), then every further
    invocation leaves the quality where it is or lowers it, and the quality
    never falls below [qualityFromFps fpsInstant]. *)
Theorem quality_descends_to_target_under_constant_low_fps
    (deltaMs : Q) (s : State) (tss : list Q) (ts : Q) :
  settled (fpsInstantOf deltaMs) s ->
  let before := feed deltaMs tss s in
  let after := updateQuality ts deltaMs before in
  quality (perf after) <= quality (perf before)
  /\ quality (perf before) <= quality (perf s)
  /\ qualityFromFps (fpsInstantOf deltaMs) <= quality (perf after)
  /\ qualityFromFps (fpsInstantOf deltaMs) <= quality (perf before)
  /\ settled (fpsInstantOf deltaMs) after.
Proof.
  intros H before after.
  destruct (settled_feed deltaMs tss s H) as [H1 H2]. fold before in H1, H2.
  destruct (settled_updateQuality ts deltaMs before H1) as [H3 [H4 H5]].
  fold after in H3, H4, H5.
  split; [exact H4 |]. split; [exact H2 |]. split; [exact H5 |].
  split; [| exact H3].
  destruct H1 as [Hf [Hq _]].
  eapply Qle_trans; [| exact Hq]. apply qualityFromFps_min62, Hf.
Qed.

Lemma settled_reset deltaMs s :
  fpsInstantOf deltaMs <= 60 ->
  perf s = mkPerf TARGET_FPS 1.0 0 0 ->
  settled (fpsInstantOf deltaMs) s.
Proof.
  intros Hf E. unfold settled. rewrite E. cbn [fpsSmoothed quality].
  split; [exact Hf |]. split.
  - destruct (qualityFromFps_range (Qmin TARGET_FPS 62)) as [_ H].
    unfold MAX_QUALITY in H. lra.
  - apply quality_ok_reset, E.
Qed.

End LowFps.

(** ** When the smoothed estimate runs ahead of the signal *)

Section HighEstimate.

(** What is used of [Math.pow(x, 0.78)] here: it is 1 at 1. *)
Hypothesis pow_one : forall x, x == 1 -> Math_pow x 0.78 == 1.

Lemma qualityFromFps_full F : 60 <= F -> qualityFromFps (Qmin F 62) == 1.
Proof.
  intros H. unfold qualityFromFps. cbv zeta.
  assert (Hm : 60 <= Qmin F 62) by (apply Q.min_glb; lra).
  assert (Hr : 1 <= Qmin F 62 / TARGET_FPS).
  { unfold TARGET_FPS. apply Qle_shift_div_l; lra. }
  assert (E : clamp (Qmin F 62 / TARGET_FPS) 0 1 == 1).
  { unfold clamp. rewrite (Q.min_l 1 _ Hr). apply Q.max_r. lra. }
  apply pow_one in E.
  set (shaped := Math_pow _ _) in *.
  assert (Em : Qmin 1 shaped == 1) by (apply Q.min_l; lra).
  unfold clamp, MIN_QUALITY, MAX_QUALITY.
  eapply Qeq_trans; [apply Q.max_r; lra | exact Em].
Qed.

(** The target follows the smoothed estimate, not the frame delta just
    measured: while the estimate is at 60 or above, an adjustment raises
    any quality below 1, however slow the frame that triggers it. *)
Lemma quality_rises_while_estimate_high ts deltaMs s :
  quality_ok s ->
  quality (perf s) < 1 ->
  60 <= fpsSmoothed (perf (measureFps deltaMs s)) ->
  220 < ts - lastQualityTs (perf s) ->
  quality (perf s) < quality (perf (updateQuality ts deltaMs s)).
Proof.
  intros [Hlo Hhi] Hq HF Hts.
  rewrite quality_updateQuality.
  apply Qltb_lt in Hts. rewrite Hts.
  pose proof (qualityFromFps_full _ HF) as ET.
  set (T := qualityFromFps _) in *.
  unfold MIN_QUALITY, MAX_QUALITY, QUALITY_EMA in *.
  assert (Hv : 0.55 <= quality (perf s) + (T - quality (perf s)) * 0.045 <= 1) by lra.
  rewrite (clamp_id _ _ _ Hv). lra.
Qed.

(** Such a state is reached from [resetPerf] by one slow frame followed by
    two fast ones within 12 ms: the slow frame lowers the quality, the fast
    ones lift the estimate back above 62 before the next adjustment. *)
Definition hiccup (s : State) : State :=
  updateQuality 252 6 (updateQuality 246 6 (updateQuality 240 120 s)).

Hypothesis pow_monotone :
  forall a b, 0 <= a -> a <= b -> b <= 1 -> Math_pow a 0.78 <= Math_pow b 0.78.

Hypothesis pow_below_one : forall x, 0 <= x -> x < 1 -> Math_pow x 0.78 < 1.

Lemma quality_rises_after_hiccup s :
  perf s = mkPerf TARGET_FPS 1.0 0 0 ->
  qualityFromFps (fpsInstantOf 120) < quality (perf (hiccup s))
  /\ quality (perf (feed 120 [372] (hiccup s))) = quality (perf (hiccup s))
  /\ quality (perf (hiccup s)) < quality (perf (feed 120 [372; 492] (hiccup s))).
Proof.
  intros E. unfold hiccup, feed. cbn [fold_left].
  set (s1 := updateQuality 240 120 s).
  set (s2 := updateQuality 246 6 s1).
  set (s3 := updateQuality 252 6 s2).
  set (s4 := updateQuality 372 120 s3).
  assert (F1 : fpsSmoothed (perf s1) = 60 + (fpsInstantOf 120 - 60) * FPS_EMA).
  { unfold s1. rewrite fpsSmoothed_updateQuality, E. reflexivity. }
  assert (L1 : lastQualityTs (perf s1) = 240).
  { unfold s1. rewrite lastQualityTs_updateQuality, E. reflexivity. }
  assert (Q1 : qualityFromFps (fpsInstantOf 120) < quality (perf s1)
               /\ quality (perf s1) < 1).
  { unfold s1. rewrite quality_updateQuality, fpsSmoothed_measureFps, E.
    cbn [lastQualityTs fpsSmoothed quality].
    change (Qltb 220 (240 - 0)) with true. cbv iota.
    set (F := TARGET_FPS + (fpsInstantOf 120 - TARGET_FPS) * FPS_EMA).
    assert (HT : qualityFromFps (fpsInstantOf 120) <= qualityFromFps (Qmin F 62))
      by (apply (qualityFromFps_min62 pow_monotone); vm_compute; discriminate).
    assert (HT1 : qualityFromFps (Qmin F 62) < 1).
    { unfold qualityFromFps. cbv zeta.
      set (ratio := clamp (Qmin F 62 / TARGET_FPS) 0 1).
      assert (Hp : Math_pow ratio 0.78 < 1)
        by (apply pow_below_one; vm_compute; [discriminate | reflexivity]).
      unfold clamp, MIN_QUALITY, MAX_QUALITY.
      apply Q.max_lub_lt; [reflexivity |].
      eapply Qle_lt_trans; [apply Q.le_min_r | exact Hp]. }
    pose proof (qualityFromFps_range (Qmin F 62)) as HR.
    set (T := qualityFromFps (Qmin F 62)) in *.
    unfold MIN_QUALITY, MAX_QUALITY, QUALITY_EMA in *.
    assert (Hv : 0.55 <= 1.0 + (T - 1.0) * 0.045 <= 1) by lra.
    rewrite (clamp_id _ _ _ Hv). split; lra. }
  assert (Q2 : quality (perf s2) = quality (perf s1)
               /\ lastQualityTs (perf s2) = 240).
  { unfold s2. rewrite quality_updateQuality, lastQualityTs_updateQuality, L1.
    split; reflexivity. }
  destruct Q2 as [Q2 L2].
  assert (Q3 : quality (perf s3) = quality (perf s1)
               /\ lastQualityTs (perf s3) = 240).
  { unfold s3. rewrite quality_updateQuality, lastQualityTs_updateQuality, L2.
    split; [exact Q2 | reflexivity]. }
  destruct Q3 as [Q3 L3].
  assert (Q4 : quality (perf s4) = quality (perf s3)
               /\ lastQualityTs (perf s4) = 240).
  { unfold s4. rewrite quality_updateQuality, lastQualityTs_updateQuality, L3.
    split; reflexivity. }
  destruct Q4 as [Q4 L4].
  split; [rewrite Q3; apply Q1 |].
  split; [exact Q4 |].
  rewrite <- Q4.
  apply quality_rises_while_estimate_high.
  - unfold s4, s3, s2, s1.
    do 4 apply quality_ok_updateQuality. apply quality_ok_reset, E.
  - rewrite Q4, Q3. apply Q1.
  - rewrite fpsSmoothed_measureFps. unfold s4, s3, s2.
    rewrite !fpsSmoothed_updateQuality, F1. vm_compute. discriminate.
  - rewrite L4. reflexivity.
Qed.

End HighEstimate.

(** ** Timers *)

Lemma timers_pause s : timers (pause s) = timers s.
Proof. keeps CTimers. Qed.

Lemma timers_stop s : timers (stop s) = timers s.
Proof. keeps CTimers. Qed.

Lemma running_pause s : running (loop (pause s)) = false.
Proof.
  unfold pause. destruct (running (loop s)) eqn:E; cbn [negb]; [reflexivity | exact E].
Qed.

Lemma running_stop s : running (loop (stop s)) = false.
Proof.
  unfold stop. cbv zeta.
  match goal with
  | |- running (loop (resize ?t)) = _ => change (running (loop t) = false)
  end.
  rewrite <- (running_pause s). f_equal.
  match goal with
  | |- loop ?t = loop ?u => change (same CLoop u t)
  end.
  apply agree_except. frame.
Qed.

Definition celebration : list Timer :=
  [mkTimer 90 (CelebrateBurst 0.50 0.62);
   mkTimer 170 (CelebrateBurst 0.38 0.58);
   mkTimer 240 (CelebrateBurst 0.62 0.60)].

Lemma timers_start c s :
  timers (start c s)
  = if match c with Some b => b | None => true end
    then timers s ++ celebration else timers s.
Proof.
  unfold start. cbv zeta.
  destruct (match c with Some b => b | None => true end).
  - cbn [setTimeout set_timers timers push].
    match goal with
    | |- context [timers (startLoops ?t)] =>
        replace (timers (startLoops t)) with (timers s) by (symmetry; keeps CTimers)
    end.
    unfold celebration, push. now rewrite <- !app_assoc.
  - keeps CTimers.
Qed.

(** ** Bursts always add particles when there is room *)

Section NonNegativeRandom.

(** [Math.random] returns numbers in [[0, 1)]. *)
Hypothesis random_range : forall n, 0 <= Math_random n < 1.

Lemma rand_range a b s : a <= b -> a <= fst (rand a b s) <= b.
Proof.
  intros H. unfold rand, bind, random, ret. cbn [fst snd].
  destruct (random_range (rpos s)) as [H0 H1].
  split; nra.
Qed.

Lemma floor_ge z x : inject_Z z <= x -> (z <= Math_floor x)%Z.
Proof.
  intros H. unfold Math_floor. rewrite <- (Qfloor_Z z). apply Qfloor_resp_le, H.
Qed.

Lemma intended_ge_60 kind s : (60 <= intended kind s)%Z.
Proof.
  destruct kind; cbn [intended].
  - unfold peonyIntended.
    assert (110 <= Math_floor (fst (rand 110 160 s)))%Z; [| lia].
    apply floor_ge. apply (rand_range 110 160). lra.
  - unfold ringIntended.
    assert (90 <= Math_floor (fst (rand 90 130 s)))%Z; [| lia].
    apply floor_ge. apply (rand_range 90 130). lra.
  - unfold palmIntended, palmArmCount, palmPerArm.
    assert (6 <= Math_floor (fst (rand 6 10 s)))%Z.
    { apply floor_ge. apply (rand_range 6 10). lra. }
    nia.
  - unfold crackleIntended.
    assert (90 <= Math_floor (fst (rand 90 140 s)))%Z; [| lia].
    apply floor_ge. apply (rand_range 90 140). lra.
Qed.

Lemma explodeBurst_adds x y hue kind s :
  (plen s < maxParticlesCap s)%Z -> (plen s < plen (explodeBurst x y hue kind s))%Z.
Proof.
  intros H.
  destruct (explodeBurst_grown x y hue kind s) as [extra [He [_ G]]].
  pose proof (intended_ge_60 kind (popAndSmoke x y s)) as Hi.
  unfold admitted in G.
  rewrite roomForParticles_eq, (quiet_cap _ _ (popAndSmoke_quiet x y s)),
    (quiet_plen _ _ (popAndSmoke_quiet x y s)) in G.
  lia.
Qed.

Lemma burst_adds x y s :
  10 <= w (view s) -> 10 <= h (view s) ->
  (plen s < maxParticlesCap s)%Z -> (plen s < plen (burst x y s))%Z.
Proof.
  intros Hw Hh H. rewrite burst_guard.
  apply Qltb_ge in Hw. apply Qltb_ge in Hh. rewrite Hw, Hh. cbn [orb].
  unfold burstGenerator, exec, bind, modify. cbn [fst snd].
  match goal with
  | |- (_ < plen (explodeBurst _ _ _ _ ?t))%Z =>
      assert (Hq : agree fp_quiet s t)
  end.
  { eapply agree_trans.
    - eapply agree_weaken; [exact (within_randomHue s) | fp_incl].
    - eapply agree_weaken; [exact (within_chooseBurstKind _) | fp_incl]. }
  rewrite <- (quiet_plen _ _ Hq) at 1.
  apply explodeBurst_adds.
  rewrite (quiet_plen _ _ Hq), (quiet_cap _ _ Hq). exact H.
Qed.

Lemma spawnSmoke_adds x y s :
  smokeSprite (host s) = true ->
  (len (smokePuffs (ents s)) < maxSmokeCap s)%Z ->
  len (smokePuffs (ents (spawnSmoke x y s))) = (len (smokePuffs (ents s)) + 1)%Z.
Proof.
  intros Hs Hc. unfold spawnSmoke. rewrite Hs. cbn [negb].
  destruct (len (smokePuffs (ents s)) >=? maxSmokeCap s)%Z eqn:E; [lia |].
  unfold exec, bind, allocSmoke.
  destruct (pop _) as [[p r] |]; cbn; apply len_push.
Qed.

(** The draw [explodeBurst] compares with the smoke chance. *)
Definition smokeDraw (s : State) : Q := fst (random (playPop s)).

Lemma maxSmokeCap_perf s s' : perf s' = perf s -> maxSmokeCap s' = maxSmokeCap s.
Proof. unfold maxSmokeCap. intros ->. reflexivity. Qed.

Lemma popAndSmoke_adds_smoke x y s :
  smokeSprite (host s) = true ->
  (len (smokePuffs (ents s)) < maxSmokeCap s)%Z ->
  smokeDraw s < 0.85 * lerp 0.55 1.0 (quality (perf s)) ->
  len (smokePuffs (ents (popAndSmoke x y s))) = (len (smokePuffs (ents s)) + 1)%Z.
Proof.
  intros Hs Hc Hd. unfold popAndSmoke, exec, bind, modify, gets. cbn [fst snd].
  assert (A : agree (fp [CSfx; CRpos]) s (snd (random (playPop s)))).
  { eapply agree_trans; [apply within_playPop |].
    eapply agree_weaken; [exact (within_random _) | fp_incl]. }
  assert (Ep : perf (playPop s) = perf s) by keeps CPerf.
  rewrite Ep. fold (smokeDraw s).
  apply Qltb_lt in Hd. rewrite Hd. cbn [when snd].
  rewrite spawnSmoke_adds.
  - now rewrite (proj1 A CSmokePuffs eq_refl : smokePuffs _ = _).
  - now rewrite (proj1 A CHost eq_refl : host _ = _).
  - rewrite (proj1 A CSmokePuffs eq_refl : smokePuffs _ = _).
    rewrite (maxSmokeCap_perf s _ (proj1 A CPerf eq_refl)). exact Hc.
Qed.

Lemma smokePuffs_explodeBurst x y hue kind s :
  smokePuffs (ents (explodeBurst x y hue kind s)) = smokePuffs (ents (popAndSmoke x y s)).
Proof. unfold explodeBurst. keeps CSmokePuffs. Qed.

(** The state in which [burst] calls [explodeBurst]: two draws later. *)
Definition afterHueAndKind (s : State) : State :=
  snd (chooseBurstKind (snd (randomHue s))).

Lemma afterHueAndKind_quiet s : agree (fp [CRpos]) s (afterHueAndKind s).
Proof.
  unfold afterHueAndKind. eapply agree_trans.
  - exact (within_randomHue s).
  - exact (within_chooseBurstKind _).
Qed.

Lemma burst_adds_smoke x y s :
  10 <= w (view s) -> 10 <= h (view s) ->
  smokeSprite (host s) = true ->
  (len (smokePuffs (ents s)) < maxSmokeCap s)%Z ->
  smokeDraw (afterHueAndKind s) < 0.85 * lerp 0.55 1.0 (quality (perf s)) ->
  len (smokePuffs (ents (burst x y s))) = (len (smokePuffs (ents s)) + 1)%Z.
Proof.
  intros Hw Hh Hs Hc Hd. rewrite burst_guard.
  apply Qltb_ge in Hw. apply Qltb_ge in Hh. rewrite Hw, Hh. cbn [orb].
  unfold burstGenerator, exec, bind, modify. cbn [fst snd].
  fold (afterHueAndKind s).
  pose proof (afterHueAndKind_quiet s) as A.
  rewrite smokePuffs_explodeBurst, popAndSmoke_adds_smoke.
  - now rewrite (proj1 A CSmokePuffs eq_refl : smokePuffs _ = _).
  - now rewrite (proj1 A CHost eq_refl : host _ = _).
  - rewrite (proj1 A CSmokePuffs eq_refl : smokePuffs _ = _).
    rewrite (maxSmokeCap_perf s _ (proj1 A CPerf eq_refl)). exact Hc.
  - now rewrite (proj1 A CPerf eq_refl : perf _ = _).
Qed.

(** C10. [start] with [celebrate] on (the default) hands three callbacks
    to [setTimeout], for 90, 170 and 240 ms; [pause] and [stop] leave the
    pending timers alone and clear [running].  A delivered celebratory
    callback is a plain [burst]: it does not look at [running].  So in a
    state that is not running, on a surface of at least 10 x 10 px, it adds
    live particles whenever the particle array is below its cap (always the
    case right after [stop]), and a smoke puff when the smoke draw
    succeeds; the callback of the delayed secondary break, in contrast,
    does nothing unless [running] holds. *)
Theorem celebratory_timers_ignore_running (s : State) :
  timers (start (Some true) s) = timers s ++ celebration
  /\ timers (start None s) = timers s ++ celebration
  /\ timers (pause s) = timers s
  /\ timers (stop s) = timers s
  /\ running (loop (pause s)) = false
  /\ running (loop (stop s)) = false
  /\ (forall fx fy,
        runTimer (CelebrateBurst fx fy) s
        = burst (Some (w (view s) * fx)) (Some (h (view s) * fy)) s)
  /\ (forall fx fy,
        running (loop s) = false ->
        10 <= w (view s) -> 10 <= h (view s) ->
        (plen s < maxParticlesCap s)%Z ->
        (plen s < plen (runTimer (CelebrateBurst fx fy) s))%Z)
  /\ (forall fx fy,
        10 <= w (view (stop s)) -> 10 <= h (view (stop s)) ->
        (0 < plen (runTimer (CelebrateBurst fx fy) (stop s)))%Z)
  /\ (forall fx fy,
        running (loop s) = false ->
        10 <= w (view s) -> 10 <= h (view s) ->
        smokeSprite (host s) = true ->
        (len (smokePuffs (ents s)) < maxSmokeCap s)%Z ->
        smokeDraw (afterHueAndKind s) < 0.85 * lerp 0.55 1.0 (quality (perf s)) ->
        len (smokePuffs (ents (runTimer (CelebrateBurst fx fy) s)))
        = (len (smokePuffs (ents s)) + 1)%Z)
  /\ (forall x y dx dy hue,
        running (loop s) = false -> runTimer (SecondaryBreak x y dx dy hue) s = s).
Proof.
  split; [apply (timers_start (Some true)) |].
  split; [apply (timers_start None) |].
  split; [apply timers_pause |].
  split; [apply timers_stop |].
  split; [apply running_pause |].
  split; [apply running_stop |].
  split; [reflexivity |].
  split; [intros fx fy _ Hw Hh Hr; cbn [runTimer]; now apply burst_adds |].
  split.
  { intros fx fy Hw Hh. cbn [runTimer].
    pose proof (stop_particles_empty s) as Ep.
    assert (E0 : plen (stop s) = 0%Z) by (unfold plen; now rewrite Ep).
    rewrite <- E0 at 1. apply burst_adds; [exact Hw | exact Hh |].
    rewrite E0. pose proof (maxParticlesCap_range (stop s)). lia. }
  split; [intros fx fy _ Hw Hh Hs Hc Hd; cbn [runTimer]; now apply burst_adds_smoke |].
  intros x y dx dy hue Hr. cbn [runTimer]. rewrite Hr. reflexivity.
Qed.

(** ** The launch scheduler *)

(** The interval an [autoLaunch] frame draws, and its verdict. *)
Definition launchBase (s : State) : Q :=
  if Qltb (w (view s)) 600 then AUTO_BASE_MOBILE else AUTO_BASE_DESKTOP.

Definition drawnInterval (s : State) : Q :=
  let intervalBase := launchBase s / launchQualityFactor s in
  intervalBase + Math_random (rpos s) * intervalBase.

Definition launches (ts : Q) (s : State) : bool :=
  Qltb (drawnInterval s) (ts - lastLaunch (loop s)).

Lemma spawnRocket_cases x s :
  rockets (ents (spawnRocket x s)) = rockets (ents s)
  \/ exists r, rockets (ents (spawnRocket x s)) = push (rockets (ents s)) r.
Proof.
  unfold spawnRocket.
  destruct (len (rockets (ents s)) >=? maxRocketsCap s)%Z; [now left |].
  destruct (_ || _); [now left |]. right.
  unfold exec, bind, allocRocket.
  destruct (pop _) as [[p r] |]; destruct x; eexists; reflexivity.
Qed.

Lemma maxRocketsCap_ge_1 s : (1 <= maxRocketsCap s)%Z.
Proof. unfold maxRocketsCap, clampZ. lia. Qed.

Lemma spawnRocket_first x s :
  rockets (ents s) = [] -> 10 <= w (view s) -> 10 <= h (view s) ->
  exists r, rockets (ents (spawnRocket x s)) = [r].
Proof.
  intros E Hw Hh. unfold spawnRocket. rewrite E.
  pose proof (maxRocketsCap_ge_1 s).
  change (len (@nil Rocket.t)) with 0%Z.
  destruct (0 >=? maxRocketsCap s)%Z eqn:E1; [lia |].
  apply Qltb_ge in Hw. apply Qltb_ge in Hh. rewrite Hw, Hh. cbn [orb].
  unfold exec, bind, allocRocket.
  destruct (pop _) as [[p r] |]; destruct x; cbn; rewrite E; eexists; reflexivity.
Qed.

(** The request for the next launch frame, which ends [autoLaunch]. *)
Definition nextLaunchFrame : State -> State :=
  exec (id <- requestAnimationFrame ;;
        modify (set_loop (with_launchRafId (Some id)))).

Lemma autoLaunch_running ts s :
  running (loop s) = true ->
  autoLaunch ts s
  = nextLaunchFrame (if launches ts s then launchNow ts (set_rpos S s) else set_rpos S s).
Proof.
  intros Hr. unfold autoLaunch. rewrite Hr. cbn [negb]. cbv zeta.
  unfold launches, drawnInterval, launchBase, nextLaunchFrame.
  rewrite exec_bind. cbn [random fst snd]. cbv zeta.
  rewrite exec_bind. cbn [gets fst snd loop set_rpos set_loop].
  rewrite exec_bind.
  destruct (Qltb _ _); reflexivity.
Qed.

Lemma autoLaunch_skips ts s :
  running (loop s) = true -> launches ts s = false ->
  ents (autoLaunch ts s) = ents s
  /\ perf (autoLaunch ts s) = perf s
  /\ view (autoLaunch ts s) = view s
  /\ timers (autoLaunch ts s) = timers s
  /\ running (loop (autoLaunch ts s)) = true
  /\ lastLaunch (loop (autoLaunch ts s)) = lastLaunch (loop s)
  /\ rpos (autoLaunch ts s) = S (rpos s).
Proof.
  intros Hr Hl. rewrite (autoLaunch_running ts s Hr), Hl.
  repeat split; try reflexivity. exact Hr.
Qed.

Lemma launchNow_spec ts s :
  lastLaunch (loop (launchNow ts s)) = ts
  /\ (rockets (ents s) = [] -> 10 <= w (view s) -> 10 <= h (view s) ->
      (1 <= length (rockets (ents (launchNow ts s))) <= 2)%nat).
Proof.
  unfold launchNow.
  rewrite exec_bind. change (snd (modify ?f ?t)) with (f t).
  rewrite exec_bind. change (snd (modify ?f ?t)) with (f t).
  set (s1 := set_loop (with_lastLaunch ts) s).
  set (s2 := spawnRocket None s1).
  rewrite exec_bind. cbn [gets fst snd]. cbv zeta.
  rewrite exec_bind. cbn [random fst snd].
  set (s3 := set_rpos S s2).
  assert (L2 : loop s2 = loop s1) by (unfold s2; keeps CLoop).
  split.
  - destruct (Qltb _ _); cbn [when].
    + rewrite exec_modify.
      replace (loop (spawnRocket None s3)) with (loop s3) by (symmetry; keeps CLoop).
      cbn [s3 loop set_rpos]. now rewrite L2.
    + cbn. now rewrite L2.
  - intros E Hw Hh.
    destruct (spawnRocket_first None s1 E Hw Hh) as [r1 E1]. fold s2 in E1.
    destruct (Qltb _ _); cbn [when].
    + rewrite exec_modify.
      destruct (spawnRocket_cases None s3) as [E2 | [r2 E2]]; rewrite E2;
        cbn [s3 ents set_rpos]; rewrite E1; cbn; lia.
    + cbn. rewrite E1. cbn. lia.
Qed.

Lemma autoLaunch_fires ts s :
  running (loop s) = true -> launches ts s = true ->
  lastLaunch (loop (autoLaunch ts s)) = ts
  /\ (rockets (ents s) = [] -> 10 <= w (view s) -> 10 <= h (view s) ->
      (1 <= length (rockets (ents (autoLaunch ts s))) <= 2)%nat).
Proof.
  intros Hr Hl. rewrite (autoLaunch_running ts s Hr), Hl.
  destruct (launchNow_spec ts (set_rpos S s)) as [E1 E2].
  split; [exact E1 | exact E2].
Qed.

Lemma launchQualityFactor_range s :
  quality_ok s -> 0 < launchQualityFactor s <= 1.
Proof.
  unfold quality_ok, launchQualityFactor, lerp, MIN_QUALITY, MAX_QUALITY. lra.
Qed.

(** Whatever the width and the quality, the interval is at least 1050 ms. *)
Lemma drawnInterval_ge_1050 s : quality_ok s -> 1050 <= drawnInterval s.
Proof.
  intros Hq. destruct (launchQualityFactor_range s Hq) as [Hf0 Hf1].
  destruct (random_range (rpos s)) as [Hr0 _].
  unfold drawnInterval. cbv zeta.
  set (ib := launchBase s / launchQualityFactor s).
  assert (Hb : 1050 <= launchBase s).
  { unfold launchBase, AUTO_BASE_MOBILE, AUTO_BASE_DESKTOP. destruct (Qltb _ _); lra. }
  assert (Hib : 1050 <= ib).
  { subst ib. apply Qle_shift_div_l; [exact Hf0 | nra]. }
  nra.
Qed.

(** On a surface at least 600 px wide and at full quality it is below 2100 ms. *)
Lemma drawnInterval_desktop s :
  600 <= w (view s) -> quality (perf s) == 1 -> 1050 <= drawnInterval s < 2100.
Proof.
  intros Hw Hq. destruct (random_range (rpos s)) as [Hr0 Hr1].
  unfold drawnInterval, launchBase. cbv zeta.
  apply Qltb_ge in Hw. rewrite Hw.
  assert (E : AUTO_BASE_DESKTOP / launchQualityFactor s == 1050).
  { unfold launchQualityFactor, lerp, AUTO_BASE_DESKTOP. rewrite Hq. reflexivity. }
  rewrite E. nra.
Qed.

(** Waiting for the first rocket since [t0]. *)
Definition awaiting (t0 : Q) (s : State) : Prop :=
  running (loop s) = true
  /\ 600 <= w (view s) /\ 10 <= h (view s)
  /\ quality (perf s) == 1
  /\ lastLaunch (loop s) = t0
  /\ rockets (ents s) = [].

Lemma awaiting_skip t0 ts s :
  awaiting t0 s -> launches ts s = false -> awaiting t0 (autoLaunch ts s).
Proof.
  intros [Hr [Hw [Hh [Hq [Hl He]]]]] Hn.
  destruct (autoLaunch_skips ts s Hr Hn) as [E1 [E2 [E3 [_ [E5 [E6 _]]]]]].
  unfold awaiting. rewrite E1, E2, E3, E5, E6. repeat split; assumption.
Qed.

Lemma start_awaiting s :
  rockets (ents s) = [] ->
  600 <= inject_Z (Math_floor (fst (safeHeroRect s))) ->
  10 <= inject_Z (Math_floor (snd (safeHeroRect s))) ->
  awaiting (now (host s)) (start (Some false) s).
Proof.
  intros He Hw Hh. unfold awaiting.
  rewrite perf_start.
  split; [reflexivity |]. split; [exact Hw |]. split; [exact Hh |].
  split; [reflexivity |]. split; [reflexivity |]. exact He.
Qed.

(** C8, as the code has it.  [start({celebrate:false})] schedules no timer.
    If no rocket is live and the surface is at least 600 px wide and 10 px
    high (800 x 600, say), it leaves the scheduler waiting since the clock
    value at [start], at quality 1.0.  While it waits, each [autoLaunch]
    frame draws a fresh interval in [[1050, 2100)] and launches exactly
    when the time since [start] exceeds it: a frame no later than 1050 ms
    launches nothing and leaves the scheduler waiting, a frame at 2100 ms
    or later puts the first rocket (or two) into play, and a frame in
    between does one or the other, by its draw.  Whatever the quality, the
    interval is at least 1050 ms. *)
Theorem first_launch_after_1050ms_by_frame_draw (s : State) (t0 ts : Q) :
  timers (start (Some false) s) = timers s
  /\ (rockets (ents s) = [] ->
      600 <= inject_Z (Math_floor (fst (safeHeroRect s))) ->
      10 <= inject_Z (Math_floor (snd (safeHeroRect s))) ->
      awaiting (now (host s)) (start (Some false) s))
  /\ (awaiting t0 s -> 1050 <= drawnInterval s < 2100)
  /\ (awaiting t0 s -> ts - t0 <= 1050 ->
      launches ts s = false /\ awaiting t0 (autoLaunch ts s))
  /\ (awaiting t0 s -> launches ts s = false -> awaiting t0 (autoLaunch ts s))
  /\ (awaiting t0 s -> launches ts s = true ->
      1050 < ts - t0
      /\ lastLaunch (loop (autoLaunch ts s)) = ts
      /\ (1 <= length (rockets (ents (autoLaunch ts s))) <= 2)%nat)
  /\ (awaiting t0 s -> 2100 <= ts - t0 -> launches ts s = true)
  /\ (quality_ok s -> 1050 <= drawnInterval s).
Proof.
  split; [apply (timers_start (Some false)) |].
  split; [apply start_awaiting |].
  split.
  { intros [_ [Hw [_ [Hq _]]]]. now apply drawnInterval_desktop. }
  split.
  { intros Ha Hts.
    assert (Hn : launches ts s = false).
    { destruct Ha as [_ [Hw [_ [Hq [Hl _]]]]].
      destruct (drawnInterval_desktop s Hw Hq) as [Hd _].
      unfold launches. apply Qltb_ge. rewrite Hl. lra. }
    split; [exact Hn | now apply awaiting_skip]. }
  split; [apply awaiting_skip |].
  split.
  { intros [Hr [Hw [Hh [Hq [Hl He]]]]] Hy.
    destruct (autoLaunch_fires ts s Hr Hy) as [E1 E2].
    destruct (drawnInterval_desktop s Hw Hq) as [Hd _].
    unfold launches in Hy. apply Qltb_lt in Hy. rewrite Hl in Hy.
    split; [lra |]. split; [exact E1 |].
    apply E2; [exact He | lra | exact Hh]. }
  split.
  { intros [_ [Hw [_ [Hq [Hl _]]]]] Hts.
    destruct (drawnInterval_desktop s Hw Hq) as [_ Hd].
    unfold launches. apply Qltb_lt. rewrite Hl. lra. }
  apply drawnInterval_ge_1050.
Qed.

End NonNegativeRandom.


(** * Further properties *)

(** ** Hard caps on live entities and on the records in existence *)

(** The census of the entity records: live rockets and pooled ones never
    number more than [BASE_MAX_ROCKETS] together, likewise for smoke puffs;
    live particles never number more than [BASE_MAX_PARTICLES], and with the
    pooled ones at most one more. *)
Definition census_ok (e : Ents) : Prop :=
  (len (rockets e) + len (rocketPool e) <= BASE_MAX_ROCKETS
   /\ len (particles e) <= BASE_MAX_PARTICLES
   /\ len (particles e) + len (particlePool e) <= BASE_MAX_PARTICLES + 1
   /\ len (smokePuffs e) + len (smokePool e) <= BASE_MAX_SMOKE)%Z.

(** Between [makeParticle] and [pushParticle] the caller holds one particle
    record that is neither live nor pooled. *)
Definition census_in_flight (e : Ents) : Prop :=
  (len (rockets e) + len (rocketPool e) <= BASE_MAX_ROCKETS
   /\ len (particles e) <= BASE_MAX_PARTICLES
   /\ len (particles e) + len (particlePool e) <= BASE_MAX_PARTICLES
   /\ len (smokePuffs e) + len (smokePool e) <= BASE_MAX_SMOKE)%Z.

(** Triples over the entity records, for state transformers and for
    computations. *)
Definition triple (P : Ents -> Prop) (f : State -> State) (Q : Ents -> Prop) : Prop :=
  forall s, P (ents s) -> Q (ents (f s)).

Definition tripleM {A} (P : Ents -> Prop) (m : M A) (Q : Ents -> Prop) : Prop :=
  forall s, P (ents s) -> Q (ents (snd (m s))).

Definition fp_noents : Footprint :=
  fp [CHost; CPerf; CView; CLoop; CSfx; CTimers; CRpos].

Lemma noents_ents s s' : agree fp_noents s s' -> ents s' = ents s.
Proof.
  intros [H _].
  pose proof (H CRockets eq_refl) as H1. pose proof (H CParticles eq_refl) as H2.
  pose proof (H CSmokePuffs eq_refl) as H3. pose proof (H CRocketPool eq_refl) as H4.
  pose proof (H CParticlePool eq_refl) as H5. pose proof (H CSmokePool eq_refl) as H6.
  cbn [same] in *.
  destruct (ents s), (ents s'). cbn in *. congruence.
Qed.

Section Triples.
Variable P : Ents -> Prop.

Lemma triple_quiet f : within fp_noents f -> triple P f P.
Proof. intros H s Hs. now rewrite (noents_ents _ _ (H s)). Qed.

Lemma tripleM_quiet {A} (m : M A) : withinM fp_noents m -> tripleM P m P.
Proof. intros H s Hs. now rewrite (noents_ents _ _ (H s)). Qed.

Lemma tripleM_bind {A B} (R Q : Ents -> Prop) (m : M A) (k : A -> M B) :
  tripleM P m R -> (forall a, tripleM R (k a) Q) -> tripleM P (bind m k) Q.
Proof. intros Hm Hk s Hs. unfold bind. cbv zeta. apply Hk, Hm, Hs. Qed.

Lemma tripleM_ret {A} (a : A) : tripleM P (ret a) P.
Proof. intros s Hs. exact Hs. Qed.

Lemma tripleM_gets {A} (f : State -> A) : tripleM P (gets f) P.
Proof. intros s Hs. exact Hs. Qed.

Lemma tripleM_modify Q f : triple P f Q -> tripleM P (modify f) Q.
Proof. intros H s Hs. apply H, Hs. Qed.

Lemma tripleM_when b m : tripleM P m P -> tripleM P (when b m) P.
Proof. intros H. destruct b; [exact H | apply tripleM_ret]. Qed.

Lemma triple_exec {A} Q (m : M A) : tripleM P m Q -> triple P (exec m) Q.
Proof. intros H s Hs. apply H, Hs. Qed.

Lemma triple_for_from body :
  (forall i, triple P (body i) P) -> forall n i, triple P (for_from i n body) P.
Proof.
  intros Hb n. induction n as [| n IH]; intros i s Hs; cbn [for_from].
  - exact Hs.
  - apply IH, Hb, Hs.
Qed.

Lemma triple_for_loop body n :
  (forall i, triple P (body i) P) -> triple P (for_loop n body) P.
Proof. intros Hb. apply triple_for_from, Hb. Qed.

Lemma triple_down_loop body n :
  (forall i, triple P (body i) P) -> triple P (down_loop n body) P.
Proof.
  intros Hb. induction n as [| n IH]; intros s Hs; cbn [down_loop].
  - exact Hs.
  - apply IH, Hb, Hs.
Qed.
End Triples.

Ltac census_lia :=
  unfold census_ok, census_in_flight, BASE_MAX_ROCKETS, BASE_MAX_PARTICLES,
    BASE_MAX_SMOKE in *;
  cbn [rockets particles smokePuffs rocketPool particlePool smokePool] in *;
  lia.

(** With an empty pool, the live particles are all the particle records. *)
Lemma census_fresh e : census_ok e -> particlePool e = [] -> census_in_flight e.
Proof.
  intros H E. unfold census_ok, census_in_flight in *. rewrite E in *.
  change (len (@nil Particle.t)) with 0%Z in *. census_lia.
Qed.

Lemma makeParticle_census x y vx vy life size hue kind :
  tripleM census_ok (makeParticle x y vx vy life size hue kind) census_in_flight.
Proof.
  intros s H.
  change (census_in_flight (ents (snd (allocParticle s)))).
  unfold allocParticle.
  destruct (pop (particlePool (ents s))) as [[p rest] |] eqn:E; cbn.
  - apply pop_Some in E. unfold census_ok in H. rewrite E, len_push in H. census_lia.
  - exact (census_fresh _ H (pop_None _ E)).
Qed.

Lemma pushParticle_census p : triple census_in_flight (pushParticle p) census_ok.
Proof.
  intros s H. unfold pushParticle.
  pose proof (maxParticlesCap_range s) as Hc.
  destruct (len (particles (ents s)) >=? maxParticlesCap s)%Z eqn:E; cbn;
    unfold census_ok; cbn; rewrite len_push; census_lia.
Qed.

(** A spark body: draws, one [makeParticle], one [pushParticle]. *)
Ltac census :=
  repeat (cbv beta zeta;
          lazymatch goal with
          | |- tripleM _ (modify (pushParticle _)) _ =>
              apply tripleM_modify; apply pushParticle_census
          | |- tripleM _ (bind (makeParticle _ _ _ _ _ _ _ _) _) _ =>
              eapply tripleM_bind; [ apply makeParticle_census | intro ]
          | |- tripleM _ (bind _ _) _ =>
              eapply tripleM_bind; [ apply tripleM_quiet; solve [frame] | intro ]
          end).

Lemma peonySpark_census x y hue : triple census_ok (peonySpark x y hue) census_ok.
Proof. unfold peonySpark. apply triple_exec. census. Qed.

Lemma peonyGlitter_census x y hue : triple census_ok (peonyGlitter x y hue) census_ok.
Proof. unfold peonyGlitter. apply triple_exec. census. Qed.

Lemma ringSpark_census x y hue count jitter i :
  triple census_ok (ringSpark x y hue count jitter i) census_ok.
Proof. unfold ringSpark. apply triple_exec. census. Qed.

Lemma ringCore_census x y hue : triple census_ok (ringCore x y hue) census_ok.
Proof. unfold ringCore. apply triple_exec. census. Qed.

Lemma palmSpark_census x y armAng armHue perArm i :
  triple census_ok (palmSpark x y armAng armHue perArm i) census_ok.
Proof. unfold palmSpark. apply triple_exec. census. Qed.

Lemma crackleSpark_census x y hue : triple census_ok (crackleSpark x y hue) census_ok.
Proof. unfold crackleSpark. apply triple_exec. census. Qed.

Lemma crackleMicro_census p : triple census_ok (crackleMicro p) census_ok.
Proof. unfold crackleMicro. apply triple_exec. census. Qed.

(** Loops of spark bodies, between draws. *)
Ltac census_loops :=
  repeat (cbv beta zeta;
          lazymatch goal with
          | |- tripleM _ (gets _) _ => apply tripleM_gets
          | |- tripleM _ (ret _) _ => apply tripleM_ret
          | |- tripleM _ (modify (for_loop _ _)) _ =>
              apply tripleM_modify; apply triple_for_loop; intro
          | |- tripleM _ (bind (modify (for_loop _ _)) _) _ =>
              eapply tripleM_bind;
              [ apply tripleM_modify; apply triple_for_loop; intro | intro ]
          | |- tripleM _ (bind (gets _) _) _ =>
              eapply tripleM_bind; [ apply tripleM_gets | intro ]
          | |- tripleM _ (bind _ _) _ =>
              eapply tripleM_bind; [ apply tripleM_quiet; solve [frame] | intro ]
          end).

Lemma explodePeony_census x y hue : triple census_ok (explodePeony x y hue) census_ok.
Proof.
  intros s H. unfold explodePeony. cbv zeta.
  destruct (roomForParticles s <=? 0)%Z; [exact H |].
  generalize (roomForParticles s). intros room.
  revert s H. apply triple_exec. census_loops.
  - apply peonySpark_census.
  - apply peonyGlitter_census.
Qed.

Lemma explodeRing_census x y hue : triple census_ok (explodeRing x y hue) census_ok.
Proof.
  intros s H. unfold explodeRing. cbv zeta.
  destruct (roomForParticles s <=? 0)%Z; [exact H |].
  generalize (roomForParticles s). intros room.
  revert s H. apply triple_exec. census_loops.
  - apply ringSpark_census.
  - apply ringCore_census.
Qed.

Lemma explodeCrackle_census x y hue : triple census_ok (explodeCrackle x y hue) census_ok.
Proof.
  intros s H. unfold explodeCrackle. cbv zeta.
  destruct (roomForParticles s <=? 0)%Z; [exact H |].
  generalize (roomForParticles s). intros room.
  revert s H. apply triple_exec. census_loops.
  apply crackleSpark_census.
Qed.

Lemma palmArm_census n : forall i x y armAng armHue perArm total made s,
  census_ok (ents s) ->
  census_ok (ents (snd (palmArm n i x y armAng armHue perArm total made s))).
Proof.
  induction n as [| n IH]; intros i x y armAng armHue perArm total made s H;
    cbn [palmArm]; [exact H |].
  destruct (made <? total)%Z; [| exact H].
  apply IH, palmSpark_census, H.
Qed.

Lemma palmArms_census n : forall x y hue perArm total made s,
  census_ok (ents s) ->
  census_ok (ents (snd (palmArms n x y hue perArm total made s))).
Proof.
  induction n as [| n IH]; intros x y hue perArm total made s H;
    cbn [palmArms]; [exact H |].
  destruct (made <? total)%Z; [| exact H].
  cbv zeta. apply IH, palmArm_census. exact H.
Qed.

Lemma explodePalm_census x y hue : triple census_ok (explodePalm x y hue) census_ok.
Proof.
  intros s H. unfold explodePalm. cbv zeta.
  destruct (roomForParticles s <=? 0)%Z; [exact H |].
  unfold exec, bind, modify. cbn [fst snd].
  apply palmArms_census. exact H.
Qed.

Lemma explodePattern_census kind x y hue :
  triple census_ok (explodePattern kind x y hue) census_ok.
Proof.
  destruct kind; cbn [explodePattern].
  - apply explodePeony_census.
  - apply explodeRing_census.
  - apply explodePalm_census.
  - apply explodeCrackle_census.
Qed.

Lemma maxRocketsCap_le s : (maxRocketsCap s <= BASE_MAX_ROCKETS)%Z.
Proof. unfold maxRocketsCap, clampZ, BASE_MAX_ROCKETS. lia. Qed.

Lemma maxSmokeCap_le s : (maxSmokeCap s <= BASE_MAX_SMOKE)%Z.
Proof. unfold maxSmokeCap, clampZ, BASE_MAX_SMOKE. lia. Qed.

(** What the pool is left with once a record was taken from it. *)
Definition poolRest {A} (pool : list A) : list A :=
  match pop pool with Some (_, rest) => rest | None => pool end.

Lemma len_poolRest {A} (pool : list A) :
  len (poolRest pool) = Z.max 0 (len pool - 1).
Proof.
  unfold poolRest. destruct (pop pool) as [[x rest] |] eqn:E.
  - apply pop_Some in E. rewrite E, len_push. pose proof (len_nonneg rest). lia.
  - apply pop_None in E. rewrite E. reflexivity.
Qed.

(** [spawnRocket] either returns at one of its guards, or takes a record
    and pushes it, below the cap. *)
Lemma spawnRocket_ents x s :
  ents (spawnRocket x s) = ents s
  \/ (len (rockets (ents s)) < maxRocketsCap s)%Z
     /\ exists r, ents (spawnRocket x s)
                 = mkEnts (push (rockets (ents s)) r) (particles (ents s))
                          (smokePuffs (ents s)) (poolRest (rocketPool (ents s)))
                          (particlePool (ents s)) (smokePool (ents s)).
Proof.
  unfold spawnRocket, poolRest.
  destruct (len (rockets (ents s)) >=? maxRocketsCap s)%Z eqn:E; [now left |].
  destruct (_ || _); [now left |]. right. split; [lia |].
  unfold exec, bind, allocRocket.
  destruct (pop _) as [[p r] |]; destruct x; eexists; reflexivity.
Qed.

Lemma spawnSmoke_ents x y s :
  ents (spawnSmoke x y s) = ents s
  \/ (len (smokePuffs (ents s)) < maxSmokeCap s)%Z
     /\ exists p, ents (spawnSmoke x y s)
                 = mkEnts (rockets (ents s)) (particles (ents s))
                          (push (smokePuffs (ents s)) p) (rocketPool (ents s))
                          (particlePool (ents s)) (poolRest (smokePool (ents s))).
Proof.
  unfold spawnSmoke, poolRest.
  destruct (negb _); [now left |].
  destruct (len (smokePuffs (ents s)) >=? maxSmokeCap s)%Z eqn:E; [now left |].
  right. split; [lia |].
  unfold exec, bind, allocSmoke.
  destruct (pop _) as [[p r] |]; eexists; reflexivity.
Qed.

Lemma spawnRocket_census x : triple census_ok (spawnRocket x) census_ok.
Proof.
  intros s H.
  destruct (spawnRocket_ents x s) as [-> | [Hc [r ->]]]; [exact H |].
  pose proof (maxRocketsCap_le s). pose proof (len_nonneg (rocketPool (ents s))).
  unfold census_ok in *. cbn. rewrite len_push, len_poolRest. census_lia.
Qed.

Lemma spawnSmoke_census x y : triple census_ok (spawnSmoke x y) census_ok.
Proof.
  intros s H.
  destruct (spawnSmoke_ents x y s) as [-> | [Hc [r ->]]]; [exact H |].
  pose proof (maxSmokeCap_le s). pose proof (len_nonneg (smokePool (ents s))).
  unfold census_ok in *. cbn. rewrite len_push, len_poolRest. census_lia.
Qed.

Lemma popAndSmoke_census x y : triple census_ok (popAndSmoke x y) census_ok.
Proof.
  unfold popAndSmoke. apply triple_exec.
  eapply tripleM_bind; [apply tripleM_modify, triple_quiet; frame | intros _].
  eapply tripleM_bind; [apply tripleM_gets | intros q].
  eapply tripleM_bind; [apply tripleM_quiet; frame | intros r].
  cbv zeta. apply tripleM_when, tripleM_modify, spawnSmoke_census.
Qed.

Lemma explodeBurst_census x y hue kind :
  triple census_ok (explodeBurst x y hue kind) census_ok.
Proof.
  intros s H. unfold explodeBurst.
  apply (triple_quiet census_ok (scheduleBreak x y hue)); [frame |].
  apply explodePattern_census, popAndSmoke_census, H.
Qed.

Lemma burst_census x y : triple census_ok (burst x y) census_ok.
Proof.
  intros s H. rewrite burst_guard.
  destruct (_ || _); [exact H |].
  generalize (orDefault x (w (view s) * 0.5)), (orDefault y (h (view s) * 0.6)).
  intros x' y'. revert s H. unfold burstGenerator. apply triple_exec.
  eapply tripleM_bind; [apply tripleM_quiet; frame | intros hue].
  eapply tripleM_bind; [apply tripleM_quiet; frame | intros kind].
  apply tripleM_modify, explodeBurst_census.
Qed.

Lemma runTimer_census a : triple census_ok (runTimer a) census_ok.
Proof.
  intros s H. destruct a as [fx fy | x y dx dy hue]; cbn [runTimer].
  - apply burst_census, H.
  - destruct (negb _); [exact H |].
    revert s H. apply triple_exec.
    eapply tripleM_bind; [apply tripleM_quiet; frame | intros j].
    eapply tripleM_bind; [apply tripleM_modify, explodePeony_census | intros _].
    eapply tripleM_bind; [apply tripleM_quiet; frame | intros r].
    eapply tripleM_bind; [apply tripleM_gets | intros q].
    apply tripleM_when, tripleM_modify, spawnSmoke_census.
Qed.

Lemma len_splice1 {A} (l : list A) i x :
  l !! i = Some x -> len (splice1 i l) = (len l - 1)%Z.
Proof.
  intros E. unfold len, splice1.
  rewrite length_delete by (exists x; exact E).
  apply lookup_lt_Some in E. lia.
Qed.

Lemma len_insert {A} (l : list A) i x : len (<[i := x]> l) = len l.
Proof. unfold len. now rewrite length_insert. Qed.

Ltac ents_cbn :=
  cbn [ents rockets particles smokePuffs rocketPool particlePool smokePool
       set_ents set_rockets set_particles set_smokePuffs set_rocketPool
       set_particlePool set_smokePool freeRocket freeParticle freeSmoke].

Lemma smokeIter_census dt i : triple census_ok (smokeIter dt i) census_ok.
Proof.
  intros s H. unfold smokeIter.
  destruct (smokePuffs (ents s) !! i) as [p |] eqn:E; [| exact H].
  cbv zeta. generalize (smokePhysics dt s p). intros p'.
  unfold census_ok in *.
  destruct (smokeGone s p'); ents_cbn.
  - rewrite len_push, (len_splice1 _ _ _ E). census_lia.
  - rewrite len_insert. census_lia.
Qed.

Lemma rocketIter_census dt i : triple census_ok (rocketIter dt i) census_ok.
Proof.
  intros s H. unfold rocketIter.
  destruct (rockets (ents s) !! i) as [r |] eqn:E; [| exact H].
  cbv zeta. generalize (rocketPhysics dt r). intros r'.
  assert (Hfree : forall q, census_ok (ents (freeRocket q (set_rockets (splice1 i) s)))).
  { intros q. unfold census_ok in *. ents_cbn.
    rewrite len_push, (len_splice1 _ _ _ E). census_lia. }
  destruct (_ && _).
  - apply explodeBurst_census, Hfree.
  - destruct (rocketOffscreen s r'); [apply Hfree |].
    unfold census_ok in *. ents_cbn. rewrite len_insert. census_lia.
Qed.

Lemma crackle_census dt p : tripleM census_ok (crackle dt p) census_ok.
Proof.
  unfold crackle. cbv zeta.
  eapply tripleM_bind; [apply tripleM_gets | intros room].
  destruct (_ && _); [| apply tripleM_ret].
  census_loops. apply crackleMicro_census.
Qed.

Lemma particleIter_census dt i : triple census_ok (particleIter dt i) census_ok.
Proof.
  intros s H. unfold particleIter.
  destruct (particles (ents s) !! i) as [p |] eqn:E; [| exact H].
  cbv zeta. generalize (particlePhysics dt s p). intros p'.
  set (r := match Particle.kind p' with
            | CrackleSpark => crackle dt p' s
            | _ => (p', s)
            end).
  assert (Hr : census_ok (ents (snd r))
               /\ exists x, particles (ents (snd r)) !! i = Some x).
  { unfold r. destruct (Particle.kind p'); cbn [snd];
      try (split; [exact H | exists p; exact E]).
    split; [apply crackle_census, H |].
    destruct (grows_bounds _ _ (crackle_grows dt p' s)) as [_ [_ Hl]].
    apply lookup_lt_Some in E.
    apply lookup_lt_is_Some_2. unfold plen, len in Hl. lia. }
  destruct Hr as [Hr [x Ex]].
  generalize (particleAge dt (fst r)). intros p''.
  unfold census_ok in *.
  destruct (particleGone (snd r) p''); ents_cbn.
  - rewrite len_push, (len_splice1 _ _ _ Ex). census_lia.
  - rewrite len_insert. census_lia.
Qed.

Lemma simulate_census dt : triple census_ok (simulate dt) census_ok.
Proof.
  intros s H. unfold simulate. cbv zeta.
  set (s1 := if smokeParityEnabled s then _ else s).
  assert (H1 : census_ok (ents s1)) by (unfold s1; destruct (smokeParityEnabled s); exact H).
  clearbody s1.
  set (s2 := if _ || _ then _ else s1).
  assert (H2 : census_ok (ents s2)).
  { unfold s2. destruct (_ || _); [| exact H1].
    apply triple_down_loop; [apply smokeIter_census | exact H1]. }
  clearbody s2.
  apply (triple_down_loop census_ok); [apply particleIter_census |].
  apply (triple_down_loop census_ok); [apply rocketIter_census | exact H2].
Qed.

Lemma step_census ts : triple census_ok (step ts) census_ok.
Proof.
  intros s H. unfold step. destruct (negb _); [exact H |]. cbv zeta.
  apply simulate_census.
  apply (triple_quiet census_ok (updateQuality ts (stepDelta ts s))); [frame |].
  exact H.
Qed.

Lemma launchNow_census ts : triple census_ok (launchNow ts) census_ok.
Proof.
  unfold launchNow. apply triple_exec.
  eapply tripleM_bind; [apply tripleM_modify, triple_quiet; frame | intros _].
  eapply tripleM_bind; [apply tripleM_modify, spawnRocket_census | intros _].
  eapply tripleM_bind; [apply tripleM_gets | intros q].
  eapply tripleM_bind; [apply tripleM_quiet; frame | intros b].
  cbv zeta. apply tripleM_when, tripleM_modify, spawnRocket_census.
Qed.

Lemma autoLaunch_census ts : triple census_ok (autoLaunch ts) census_ok.
Proof.
  intros s H. unfold autoLaunch. destruct (negb _); [exact H |]. cbv zeta.
  generalize (launchQualityFactor s), (if Qltb (w (view s)) 600
                                       then AUTO_BASE_MOBILE else AUTO_BASE_DESKTOP).
  intros qf base. revert s H. apply triple_exec.
  eapply tripleM_bind; [apply tripleM_quiet; frame | intros r].
  eapply tripleM_bind; [apply tripleM_gets | intros l].
  eapply tripleM_bind;
    [cbv zeta; apply tripleM_when, tripleM_modify, launchNow_census | intros _].
  apply tripleM_quiet. frame.
Qed.

Lemma onClick_census cx rl : triple census_ok (onClick cx rl) census_ok.
Proof.
  intros s H. unfold onClick. destruct (negb _); [exact H |].
  destruct (Qltb _ _); [exact H |]. cbv zeta.
  revert s H. apply triple_exec.
  eapply tripleM_bind; [apply tripleM_modify, spawnRocket_census | intros _].
  eapply tripleM_bind; [apply tripleM_gets | intros q].
  eapply tripleM_bind; [apply tripleM_quiet; frame | intros b].
  cbv zeta. apply tripleM_when.
  eapply tripleM_bind; [apply tripleM_quiet; frame | intros o].
  apply tripleM_modify, spawnRocket_census.
Qed.

Lemma freeAllRockets_census n : triple census_ok (freeAllRockets n) census_ok.
Proof.
  induction n as [| n IH]; intros s H; cbn [freeAllRockets]; [exact H |].
  destruct (pop (rockets (ents s))) as [[r rest] |] eqn:E; [| exact H].
  apply IH. apply pop_Some in E.
  unfold census_ok in *. rewrite E, len_push in H.
  ents_cbn. rewrite len_push. census_lia.
Qed.

Lemma freeAllParticles_census n : triple census_ok (freeAllParticles n) census_ok.
Proof.
  induction n as [| n IH]; intros s H; cbn [freeAllParticles]; [exact H |].
  destruct (pop (particles (ents s))) as [[r rest] |] eqn:E; [| exact H].
  apply IH. apply pop_Some in E.
  unfold census_ok in *. rewrite E, len_push in H.
  ents_cbn. rewrite len_push. census_lia.
Qed.

Lemma freeAllSmoke_census n : triple census_ok (freeAllSmoke n) census_ok.
Proof.
  induction n as [| n IH]; intros s H; cbn [freeAllSmoke]; [exact H |].
  destruct (pop (smokePuffs (ents s))) as [[r rest] |] eqn:E; [| exact H].
  apply IH. apply pop_Some in E.
  unfold census_ok in *. rewrite E, len_push in H.
  ents_cbn. rewrite len_push. census_lia.
Qed.

Lemma stop_census : triple census_ok stop census_ok.
Proof.
  intros s H. unfold stop. cbv zeta.
  apply (triple_quiet census_ok resize); [frame |].
  apply freeAllSmoke_census, freeAllParticles_census, freeAllRockets_census.
  apply (triple_quiet census_ok pause); [frame | exact H].
Qed.

Lemma handle_census e : triple census_ok (handle e) census_ok.
Proof.
  intros s H.
  assert (Hi : census_ok (ents (initOnce s)))
    by (apply (triple_quiet census_ok initOnce); [frame | exact H]).
  assert (Hresume : forall t, census_ok (ents t) -> census_ok (ents (resume t)))
    by (apply (triple_quiet census_ok resume); frame).
  assert (Hpause : forall t, census_ok (ents t) -> census_ok (ents (pause t)))
    by (apply (triple_quiet census_ok pause); frame).
  assert (Hresize : forall t, census_ok (ents t) -> census_ok (ents (resize t)))
    by (apply (triple_quiet census_ok resize); frame).
  destruct e; cbn [handle]; unfold listening.
  - apply (triple_quiet census_ok (start celebrate)); [frame | exact Hi].
  - apply stop_census, Hi.
  - apply Hpause, Hi.
  - apply Hresume, Hi.
  - apply Hresize, Hi.
  - apply burst_census, Hi.
  - apply (triple_quiet census_ok unlockSfxOnce); [frame | exact Hi].
  - cbv zeta.
    assert (H1 : census_ok
                   (ents (match stepRafId (loop s) with
                          | Some _ => step ts s | None => s end))).
    { destruct (stepRafId _); [apply step_census |]; exact H. }
    destruct (launchRafId _); [apply autoLaunch_census |]; exact H1.
  - destruct (timers s !! i); [| exact H].
    apply runTimer_census. exact H.
  - destruct (inited _); [apply onClick_census |]; exact H.
  - destruct (inited _); [apply Hresize |]; exact H.
  - destruct (inited _); [| exact H]. destruct hidden; [apply Hpause | apply Hresume]; exact H.
  - destruct (inited _); [apply Hpause |]; exact H.
  - destruct (inited _); [| exact H]. destruct hidden; [| apply Hresume]; exact H.
  - destruct (inited _); [apply Hpause |]; exact H.
  - destruct (inited _); [| exact H]. destruct hidden; [| apply Hresume]; exact H.
  - exact H.
Qed.

Lemma run_census es : triple census_ok (run es) census_ok.
Proof.
  induction es as [| e es IH]; intros s H; [exact H |].
  apply IH, handle_census, H.
Qed.

Lemma init_census hst : census_ok (ents (init hst)).
Proof. unfold census_ok. cbn. unfold len. cbn [length]. census_lia. Qed.

(** X1. Whatever happens to the loaded script -- API calls, frames, timers,
    DOM events, changes of the host, in any order -- there are never more
    than [BASE_MAX_ROCKETS] = 2 live rockets, [BASE_MAX_PARTICLES] = 50 live
    particles and [BASE_MAX_SMOKE] = 28 live smoke puffs: the adaptive caps
    checked by [spawnRocket], [pushParticle] and [spawnSmoke] never exceed
    the base caps, and nothing else adds a live entity. *)
Theorem live_entities_never_exceed_base_caps (hst : Host) (es : list Event) :
  let s := run es (init hst) in
  (len (rockets (ents s)) <= 2)%Z
  /\ (len (particles (ents s)) <= 50)%Z
  /\ (len (smokePuffs (ents s)) <= 28)%Z.
Proof.
  cbv zeta.
  pose proof (run_census es _ (init_census hst)) as H.
  pose proof (len_nonneg (rocketPool (ents (run es (init hst))))).
  pose proof (len_nonneg (smokePool (ents (run es (init hst))))).
  census_lia.
Qed.

(** X2. The pools bound the memory the script uses for entities: in every
    reachable state the rocket records in existence (live or pooled) number
    at most 2, the smoke records at most 28 and the particle records at most
    51 -- a record is created only when its pool is empty, and a particle
    made while the array is full goes straight to the pool. *)
Theorem entity_records_in_existence_are_bounded (hst : Host) (es : list Event) :
  let s := run es (init hst) in
  (len (rockets (ents s)) + len (rocketPool (ents s)) <= 2)%Z
  /\ (len (particles (ents s)) + len (particlePool (ents s)) <= 51)%Z
  /\ (len (smokePuffs (ents s)) + len (smokePool (ents s)) <= 28)%Z.
Proof.
  cbv zeta.
  pose proof (run_census es _ (init_census hst)) as H.
  census_lia.
Qed.

(** ** The adaptive caps *)

Lemma Qfloor_between (x : Q) (a b : Z) :
  inject_Z a <= x -> x < inject_Z b -> (a <= Qfloor x < b)%Z.
Proof.
  intros Ha Hb. split.
  - rewrite <- (Qfloor_Z a). apply Qfloor_resp_le, Ha.
  - rewrite Zlt_Qlt. eapply Qle_lt_trans; [apply Qfloor_le | exact Hb].
Qed.

Lemma clampZ_mono a b lo hi : (a <= b)%Z -> (clampZ a lo hi <= clampZ b lo hi)%Z.
Proof. unfold clampZ. lia. Qed.

Lemma caps_mono s s' :
  quality (perf s) <= quality (perf s') ->
  (maxRocketsCap s <= maxRocketsCap s')%Z
  /\ (maxParticlesCap s <= maxParticlesCap s')%Z
  /\ (maxSmokeCap s <= maxSmokeCap s')%Z.
Proof.
  intros H. unfold maxRocketsCap, maxParticlesCap, maxSmokeCap, Math_round, Math_floor.
  cbv zeta. unfold BASE_MAX_ROCKETS, BASE_MAX_PARTICLES, BASE_MAX_SMOKE, lerp.
  repeat split; apply clampZ_mono, Qfloor_resp_le;
    change (inject_Z 2) with 2; change (inject_Z 50) with 50;
    change (inject_Z 28) with 28; lra.
Qed.

Lemma caps_governed s :
  quality_ok s ->
  maxRocketsCap s = 2%Z
  /\ (39 <= maxParticlesCap s <= 50)%Z
  /\ (22 <= maxSmokeCap s <= 28)%Z.
Proof.
  unfold quality_ok, MIN_QUALITY, MAX_QUALITY. intros [Hlo Hhi].
  unfold maxRocketsCap, maxParticlesCap, maxSmokeCap, Math_round, Math_floor.
  cbv zeta. unfold BASE_MAX_ROCKETS, BASE_MAX_PARTICLES, BASE_MAX_SMOKE, lerp, clampZ.
  change (inject_Z 2) with 2. change (inject_Z 50) with 50. change (inject_Z 28) with 28.
  set (q := quality (perf s)) in *.
  assert (R : (2 <= Qfloor (2 * (0.62 + (1.0 - 0.62) * q) + 0.5) < 3)%Z)
    by (apply Qfloor_between; change (inject_Z 2) with 2; change (inject_Z 3) with 3; lra).
  assert (Pt : (39 <= Qfloor (50 * (0.55 + (1.0 - 0.55) * q)) < 51)%Z)
    by (apply Qfloor_between; change (inject_Z 39) with 39;
        change (inject_Z 51) with 51; lra).
  assert (Sm : (22 <= Qfloor (28 * (0.55 + (1.0 - 0.55) * q)) < 29)%Z)
    by (apply Qfloor_between; change (inject_Z 22) with 22;
        change (inject_Z 29) with 29; lra).
  lia.
Qed.

(** X3. The caps grow with the quality and stay within their clamps
    whatever the quality; and since the governor keeps the quality in
    [[0.55, 1]], in every reachable state the rocket cap is exactly 2 (it
    never adapts), the particle cap is between 39 and 50 and the smoke cap
    between 22 and 28: the lower clamps 1, 22 and 10 are never reached. *)
Theorem adaptive_caps_in_every_reachable_state :
  (forall s s', quality (perf s) <= quality (perf s') ->
     (maxRocketsCap s <= maxRocketsCap s')%Z
     /\ (maxParticlesCap s <= maxParticlesCap s')%Z
     /\ (maxSmokeCap s <= maxSmokeCap s')%Z)
  /\ (forall s, (1 <= maxRocketsCap s <= 2)%Z
               /\ (22 <= maxParticlesCap s <= 50)%Z
               /\ (10 <= maxSmokeCap s <= 28)%Z)
  /\ (forall hst es,
        let s := run es (init hst) in
        maxRocketsCap s = 2%Z
        /\ (39 <= maxParticlesCap s <= 50)%Z
        /\ (22 <= maxSmokeCap s <= 28)%Z).
Proof.
  split; [exact caps_mono |]. split.
  - intros s. unfold maxRocketsCap, maxParticlesCap, maxSmokeCap, clampZ,
      BASE_MAX_ROCKETS, BASE_MAX_PARTICLES, BASE_MAX_SMOKE. lia.
  - intros hst es. cbv zeta. apply caps_governed, quality_ok_run.
    apply quality_ok_reset, perf_init.
Qed.

(** ** The FPS estimate *)

(** An invariant of the governor's variables holds in every reachable
    state if it holds after [resetPerf] and [updateQuality] keeps it. *)
Section PerfInvariant.
Variable I : Perf -> Prop.
Hypothesis I_reset : I (mkPerf TARGET_FPS 1.0 0 0).
Hypothesis I_update : forall ts deltaMs s,
  I (perf s) -> I (perf (updateQuality ts deltaMs s)).

Lemma perf_inv_within fpr f s :
  within fpr f -> fpr CPerf = false -> I (perf s) -> I (perf (f s)).
Proof. intros Hf E H. now rewrite (agree_perf _ _ _ (Hf s) E). Qed.

Lemma perf_inv_step ts s : I (perf s) -> I (perf (step ts s)).
Proof.
  intros H. unfold step. destruct (negb _); [exact H |]. cbv zeta.
  eapply perf_inv_within; [apply within_simulate | reflexivity |].
  apply I_update.
  eapply perf_inv_within; [apply within_set_loop | reflexivity | exact H].
Qed.

Lemma perf_inv_handle e s : I (perf s) -> I (perf (handle e s)).
Proof.
  intros H.
  assert (Hi : I (perf (initOnce s)))
    by (eapply perf_inv_within; [apply within_initOnce | reflexivity | exact H]).
  assert (Hstart : forall c t, I (perf (start c t)))
    by (intros c t; rewrite perf_start; exact I_reset).
  assert (Hresume : forall t, I (perf (resume t)))
    by (intros t; rewrite perf_resume; exact I_reset).
  assert (Hpause : forall t, I (perf t) -> I (perf (pause t)))
    by (intros t; apply perf_inv_within with (fpr := fp [CLoop]);
        [apply within_pause | reflexivity]).
  assert (Hresize : forall t, I (perf t) -> I (perf (resize t)))
    by (intros t; apply perf_inv_within with (fpr := fp [CView]);
        [apply within_resize | reflexivity]).
  destruct e; cbn [handle]; unfold listening.
  - apply Hstart.
  - eapply perf_inv_within; [apply within_stop | reflexivity | exact Hi].
  - apply Hpause, Hi.
  - apply Hresume.
  - apply Hresize, Hi.
  - eapply perf_inv_within; [apply within_burst | reflexivity | exact Hi].
  - eapply perf_inv_within; [apply within_unlockSfxOnce | reflexivity | exact Hi].
  - assert (H1 : I (perf (match stepRafId (loop s) with
                          | Some _ => step ts s | None => s end)))
      by (destruct (stepRafId _); [apply perf_inv_step |]; exact H).
    cbv zeta. destruct (launchRafId _); [| exact H1].
    eapply perf_inv_within; [apply within_autoLaunch | reflexivity | exact H1].
  - destruct (timers s !! i); [| exact H].
    eapply perf_inv_within; [apply within_runTimer | reflexivity |].
    eapply perf_inv_within; [apply within_set_timers | reflexivity | exact H].
  - destruct (inited _); [| exact H].
    eapply perf_inv_within; [apply within_onClick | reflexivity | exact H].
  - destruct (inited _); [apply Hresize |]; exact H.
  - destruct (inited _); [| exact H]. destruct hidden; [apply Hpause, H | apply Hresume].
  - destruct (inited _); [apply Hpause |]; exact H.
  - destruct (inited _); [| exact H]. destruct hidden; [exact H | apply Hresume].
  - destruct (inited _); [apply Hpause |]; exact H.
  - destruct (inited _); [| exact H]. destruct hidden; [exact H | apply Hresume].
  - exact H.
Qed.

Lemma perf_inv_run es : forall s, I (perf s) -> I (perf (run es s)).
Proof.
  induction es as [| e es IH]; intros s H; [exact H |].
  apply IH, perf_inv_handle, H.
Qed.

Lemma perf_inv_reachable hst es : I (perf (run es (init hst))).
Proof. apply perf_inv_run. rewrite perf_init. exact I_reset. Qed.
End PerfInvariant.

Lemma fpsInstantOf_range deltaMs : 1000 / 120 <= fpsInstantOf deltaMs <= 1000 / 6.
Proof.
  unfold fpsInstantOf.
  destruct (clamp_bounds deltaMs 6 120) as [Hlo Hhi]; [lra |].
  set (d := clamp deltaMs 6 120) in *.
  assert (E1 : 1000 / 120 == 25 # 3) by reflexivity.
  assert (E2 : 1000 / 6 == 500 # 3) by reflexivity.
  rewrite E1, E2. split.
  - apply Qle_shift_div_l; lra.
  - apply Qle_shift_div_r; lra.
Qed.

Definition fps_ok (p : Perf) : Prop := 1000 / 120 <= fpsSmoothed p <= 1000 / 6.

Lemma fps_ok_updateQuality ts deltaMs s :
  fps_ok (perf s) -> fps_ok (perf (updateQuality ts deltaMs s)).
Proof.
  unfold fps_ok. rewrite fpsSmoothed_updateQuality.
  pose proof (fpsInstantOf_range deltaMs) as H.
  assert (E1 : 1000 / 120 == 25 # 3) by reflexivity.
  assert (E2 : 1000 / 6 == 500 # 3) by reflexivity.
  rewrite E1, E2 in *. unfold FPS_EMA. lra.
Qed.

(** X4. The frame delta is clamped to [[6, 120]] ms before it is turned
    into an instantaneous FPS, so a zero, negative or huge delta never
    divides by zero or yields a negative rate: the instantaneous FPS is in
    [[1000/120, 1000/6]], it is 1000/6 for every delta up to 6 ms and
    1000/120 from 120 ms on, and the smoothed estimate stays in that range
    in every reachable state. *)
Theorem fps_estimate_stays_in_range :
  (forall deltaMs, 1000 / 120 <= fpsInstantOf deltaMs <= 1000 / 6)
  /\ (forall deltaMs, deltaMs <= 6 -> fpsInstantOf deltaMs == 1000 / 6)
  /\ (forall deltaMs, 120 <= deltaMs -> fpsInstantOf deltaMs == 1000 / 120)
  /\ (forall ts deltaMs s,
        fpsSmoothed (perf (updateQuality ts deltaMs s))
        = lerp (fpsSmoothed (perf s)) (fpsInstantOf deltaMs) FPS_EMA)
  /\ (forall hst es,
        1000 / 120 <= fpsSmoothed (perf (run es (init hst))) <= 1000 / 6).
Proof.
  split; [exact fpsInstantOf_range |].
  split.
  { intros d H. unfold fpsInstantOf.
    assert (E : clamp d 6 120 == 6).
    { unfold clamp. apply Q.max_l. eapply Qle_trans; [apply Q.le_min_r | exact H]. }
    rewrite E. reflexivity. }
  split.
  { intros d H. unfold fpsInstantOf.
    assert (E : clamp d 6 120 == 120).
    { unfold clamp. rewrite (Q.min_l 120 d H). apply Q.max_r. lra. }
    rewrite E. reflexivity. }
  split; [intros ts d s; apply fpsSmoothed_updateQuality |].
  intros hst es. apply (perf_inv_reachable fps_ok).
  - unfold fps_ok. cbn [fpsSmoothed]. split; vm_compute; intro H; discriminate H.
  - apply fps_ok_updateQuality.
Qed.

(** ** The quality moves slowly *)

Lemma quality_step_small ts deltaMs s :
  quality_ok s ->
  - 0.02025 <= quality (perf (updateQuality ts deltaMs s)) - quality (perf s) <= 0.02025.
Proof.
  intros [Hlo Hhi]. rewrite quality_updateQuality.
  destruct (Qltb 220 _); [| lra].
  pose proof (qualityFromFps_range
                (Qmin (fpsSmoothed (perf (measureFps deltaMs s))) 62)) as HT.
  set (T := qualityFromFps _) in *.
  unfold MIN_QUALITY, MAX_QUALITY, QUALITY_EMA in *.
  assert (Hv : 0.55 <= quality (perf s) + (T - quality (perf s)) * 0.045 <= 1) by lra.
  rewrite (clamp_id _ _ _ Hv). lra.
Qed.

Lemma perf_frame ts s :
  perf (handle (Frame ts) s) = perf s
  \/ perf (handle (Frame ts) s)
     = perf (updateQuality ts (stepDelta ts s) (set_loop (with_lastTs (Some ts)) s)).
Proof.
  cbn [handle]. cbv zeta.
  set (s1 := match stepRafId (loop s) with Some _ => step ts s | None => s end).
  assert (E : perf (match launchRafId (loop s1) with
                    | Some _ => autoLaunch ts s1 | None => s1 end) = perf s1).
  { destruct (launchRafId _); [| reflexivity]. keeps CPerf. }
  rewrite E. unfold s1. destruct (stepRafId _); [| now left].
  unfold step. destruct (negb _); [now left |]. right. cbv zeta. keeps CPerf.
Qed.

(** X5. The governor is damped.  In every reachable state, one
    [updateQuality] -- hence one animation frame -- moves the quality by at
    most 0.045 * 0.45 = 0.02025, whatever the frame delta; it leaves the
    quality alone unless more than 220 ms have passed since the last
    adjustment, and an adjustment restarts that delay. *)
Theorem quality_moves_by_small_steps (hst : Host) (es : list Event) (ts deltaMs : Q) :
  let s := run es (init hst) in
  let s' := updateQuality ts deltaMs s in
  - 0.02025 <= quality (perf s') - quality (perf s) <= 0.02025
  /\ - 0.02025 <= quality (perf (handle (Frame ts) s)) - quality (perf s) <= 0.02025
  /\ (ts - lastQualityTs (perf s) <= 220 -> quality (perf s') = quality (perf s))
  /\ (220 < ts - lastQualityTs (perf s) -> lastQualityTs (perf s') = ts)
  /\ (ts - lastQualityTs (perf s) <= 220 ->
      lastQualityTs (perf s') = lastQualityTs (perf s)).
Proof.
  cbv zeta. set (s := run es (init hst)).
  assert (Hq : quality_ok s)
    by (apply quality_ok_run, quality_ok_reset, perf_init).
  split; [apply quality_step_small, Hq |].
  split.
  { destruct (perf_frame ts s) as [-> | ->]; [lra |].
    apply (quality_step_small ts (stepDelta ts s)
             (set_loop (with_lastTs (Some ts)) s)). exact Hq. }
  split.
  { intros H. rewrite quality_updateQuality.
    apply Qltb_ge in H. now rewrite H. }
  split.
  { intros H. rewrite lastQualityTs_updateQuality.
    apply Qltb_lt in H. now rewrite H. }
  intros H. rewrite lastQualityTs_updateQuality.
  apply Qltb_ge in H. now rewrite H.
Qed.

(** ** Lifecycle: repeated calls, and what a halted simulation ignores *)

Lemma pause_not_running s : running (loop s) = false -> pause s = s.
Proof. intros H. unfold pause. now rewrite H. Qed.

Lemma resize_resize s : resize (resize s) = resize s.
Proof. reflexivity. Qed.

Lemma stop_rockets_empty s : rockets (ents (stop s)) = [].
Proof.
  unfold stop. cbv zeta.
  set (s1 := freeAllRockets _ (pause s)).
  set (s2 := freeAllParticles _ s1).
  set (s3 := freeAllSmoke _ s2).
  change (rockets (ents s3) = []).
  assert (A3 : agree (fp [CSmokePuffs; CSmokePool]) s2 s3) by apply within_freeAllSmoke.
  assert (A2 : agree (fp [CParticles; CParticlePool]) s1 s2)
    by apply within_freeAllParticles.
  rewrite (proj1 A3 CRockets eq_refl : rockets (ents s3) = _).
  rewrite (proj1 A2 CRockets eq_refl : rockets (ents s2) = _).
  exact (proj1 (freeAllRockets_spec (length (rockets (ents (pause s)))) (pause s)
                  (le_n _))).
Qed.

Lemma stop_smoke_empty s : smokePuffs (ents (stop s)) = [].
Proof.
  unfold stop. cbv zeta.
  set (s2 := freeAllParticles _ _).
  exact (proj1 (freeAllSmoke_spec (length (smokePuffs (ents s2))) s2 (le_n _))).
Qed.

Lemma stop_of_halted s :
  running (loop s) = false -> rockets (ents s) = [] -> particles (ents s) = [] ->
  smokePuffs (ents s) = [] -> stop s = resize s.
Proof.
  intros Hr E1 E2 E3. unfold stop. cbv zeta.
  rewrite (pause_not_running s Hr), E1. cbn [length freeAllRockets].
  rewrite E2. cbn [length freeAllParticles].
  rewrite E3. reflexivity.
Qed.

(** X6. Repeating a lifecycle call changes nothing more: [pause], [resize]
    and [stop] are idempotent, [stop] after [pause] is [stop], and [pause]
    after [stop] does nothing. *)
Theorem pause_resize_stop_are_idempotent (s : State) :
  pause (pause s) = pause s
  /\ resize (resize s) = resize s
  /\ stop (stop s) = stop s
  /\ stop (pause s) = stop s
  /\ pause (stop s) = stop s.
Proof.
  assert (Hp : pause (pause s) = pause s)
    by (apply pause_not_running, running_pause).
  split; [exact Hp |].
  split; [apply resize_resize |].
  split.
  { rewrite (stop_of_halted (stop s)).
    - unfold stop. cbv zeta. apply resize_resize.
    - apply running_stop.
    - apply stop_rockets_empty.
    - apply stop_particles_empty.
    - apply stop_smoke_empty. }
  split.
  { unfold stop. cbv zeta. now rewrite Hp. }
  apply pause_not_running, running_stop.
Qed.

(** Frames and clicks, the events a halted simulation ignores. *)
Definition frameOrClick (e : Event) : bool :=
  match e with
  | Frame _ | Click _ _ => true
  | _ => false
  end.

Lemma halted_ignores e s :
  running (loop s) = false -> frameOrClick e = true -> handle e s = s.
Proof.
  intros Hr He. destruct e; try discriminate He; cbn [handle].
  - cbv zeta. unfold step, autoLaunch. rewrite Hr. cbn [negb].
    destruct (stepRafId (loop s)); rewrite ?Hr; cbn [negb];
      destruct (launchRafId (loop s)); reflexivity.
  - unfold listening, onClick. rewrite Hr. cbn [negb].
    destruct (inited _); reflexivity.
Qed.

(** X7. While [running] is false -- in particular after [pause] or [stop]
    -- animation frames that still arrive and clicks on the hero change
    nothing at all, however many of them come: no physics, no launch, no
    quality update, no random number consumed. *)
Theorem halted_simulation_ignores_frames_and_clicks (s : State) (es : list Event) :
  running (loop s) = false ->
  forallb frameOrClick es = true ->
  run es s = s
  /\ run es (pause s) = pause s
  /\ run es (stop s) = stop s.
Proof.
  intros Hr Hes.
  assert (G : forall t, running (loop t) = false -> run es t = t).
  { intros t Ht. induction es as [| e es IH]; [reflexivity |].
    cbn [forallb] in Hes. apply andb_true_iff in Hes as [He Hes].
    cbn [run fold_left]. rewrite (halted_ignores e t Ht He).
    apply IH, Hes. }
  split; [apply G, Hr |].
  split; [apply G, running_pause | apply G, running_stop].
Qed.

(** ** Click bleed protection *)

Lemma ignoreClicksUntil_start c s :
  ignoreClicksUntil (loop (start c s)) = now (host s) + IGNORE_CLICKS_MS.
Proof.
  unfold start. cbv zeta.
  destruct (match c with Some b => b | None => true end); reflexivity.
Qed.

Lemma ignoreClicksUntil_resume s :
  ignoreClicksUntil (loop (resume s)) = now (host s) + RESUME_IGNORE_CLICKS_MS.
Proof. reflexivity. Qed.

Lemma click_ignored cx rl s :
  now (host s) < ignoreClicksUntil (loop s) -> handle (Click cx rl) s = s.
Proof.
  intros H. cbn [handle]. unfold listening, onClick, nowMs.
  apply Qltb_lt in H. rewrite H.
  destruct (inited _); [| reflexivity]. destruct (negb _); reflexivity.
Qed.

(** The host's clock moves to [t]. *)
Definition clockAt (t : Q) (s : State) : Event :=
  HostChanges (mkHost (rectWidth (host s)) (rectHeight (host s))
                      (innerWidth (host s)) (innerHeight (host s))
                      (devicePixelRatio (host s)) t
                      (sfxEnabled (host s)) (smokeSprite (host s))).

Lemma click_in_window cx rl t d s :
  ignoreClicksUntil (loop s) = d -> t < d ->
  handle (Click cx rl) (handle (clockAt t s) s) = handle (clockAt t s) s.
Proof.
  intros E H. apply (click_ignored cx rl).
  unfold clockAt. cbn [handle set_host host now loop]. now rewrite E.
Qed.

Lemma ignoreClicksUntil_ApiStart c s :
  ignoreClicksUntil (loop (handle (ApiStart c) s)) = now (host s) + 600.
Proof.
  cbn [handle]. rewrite ignoreClicksUntil_start.
  replace (host (initOnce s)) with (host s) by (symmetry; keeps CHost). reflexivity.
Qed.

Lemma ignoreClicksUntil_ApiResume s :
  ignoreClicksUntil (loop (handle ApiResume s)) = now (host s) + 250.
Proof.
  cbn [handle]. rewrite ignoreClicksUntil_resume.
  replace (host (initOnce s)) with (host s) by (symmetry; keeps CHost). reflexivity.
Qed.

(** X8. [start] opens a window of [IGNORE_CLICKS_MS] = 600 ms, and [resume]
    one of [RESUME_IGNORE_CLICKS_MS] = 250 ms, during which a click on the
    hero is dropped: a click delivered while the clock is still before
    that deadline changes nothing (no rocket, no random number consumed),
    so the click that opened the invitation or brought the tab back does
    not launch a rocket. *)
Theorem clicks_right_after_start_or_resume_are_ignored
    (s : State) (c : option bool) (t cx rl : Q) :
  let started := handle (ApiStart c) s in
  let resumed := handle ApiResume s in
  ignoreClicksUntil (loop started) = now (host s) + 600
  /\ ignoreClicksUntil (loop resumed) = now (host s) + 250
  /\ (t < now (host s) + 600 ->
      handle (Click cx rl) (handle (clockAt t started) started)
      = handle (clockAt t started) started)
  /\ (t < now (host s) + 250 ->
      handle (Click cx rl) (handle (clockAt t resumed) resumed)
      = handle (clockAt t resumed) resumed)
  /\ (forall s', now (host s') < ignoreClicksUntil (loop s') ->
                 handle (Click cx rl) s' = s').
Proof.
  intros started resumed.
  split; [apply ignoreClicksUntil_ApiStart |].
  split; [apply ignoreClicksUntil_ApiResume |].
  split; [apply click_in_window, ignoreClicksUntil_ApiStart |].
  split; [apply click_in_window, ignoreClicksUntil_ApiResume |].
  intros s' H. apply (click_ignored cx rl s' H).
Qed.

(** ** Initialisation *)

(** The events delivered to listeners, which [initOnce] attaches. *)
Definition domEvent (e : Event) : bool :=
  match e with
  | Click _ _ | WindowResize | VisibilityChange _ | WindowBlur | WindowFocus _
  | PageHide | PageShow _ => true
  | _ => false
  end.

Definition apiCall (e : Event) : bool :=
  match e with
  | ApiStart _ | ApiStop | ApiPause | ApiResume | ApiResize | ApiBurst _ _
  | ApiUnlockSfx => true
  | _ => false
  end.

Lemma inited_initOnce s : inited (loop (initOnce s)) = true.
Proof. unfold initOnce. destruct (inited (loop s)) eqn:E; [exact E | reflexivity]. Qed.

Lemma inited_start c s : inited (loop (start c s)) = inited (loop s).
Proof.
  unfold start. cbv zeta.
  destruct (match c with Some b => b | None => true end); reflexivity.
Qed.

Lemma inited_pause s : inited (loop (pause s)) = inited (loop s).
Proof. unfold pause. destruct (negb _); reflexivity. Qed.

Lemma inited_stop s : inited (loop (stop s)) = inited (loop s).
Proof.
  unfold stop. cbv zeta.
  match goal with
  | |- inited (loop (resize ?t)) = _ => change (inited (loop t) = inited (loop s))
  end.
  rewrite <- (inited_pause s). f_equal.
  match goal with
  | |- loop ?t = loop ?u => change (same CLoop u t)
  end.
  apply agree_except. frame.
Qed.

Lemma inited_burst x y s : inited (loop (burst x y s)) = inited (loop s).
Proof. f_equal. keeps CLoop. Qed.

Lemma inited_unlockSfxOnce s : inited (loop (unlockSfxOnce s)) = inited (loop s).
Proof. f_equal. keeps CLoop. Qed.

(** X9. The script initialises itself once, on the first API call: until
    then no listener is attached, so clicks, resizes, visibility, focus
    and page events change nothing; every API call leaves the script
    initialised; and [initOnce] on an initialised script does nothing (no
    second [resize], no second set of listeners). *)
Theorem script_initialises_once_on_first_api_call (s : State) (e : Event) :
  (inited (loop s) = false -> domEvent e = true -> handle e s = s)
  /\ (apiCall e = true -> inited (loop (handle e s)) = true)
  /\ (inited (loop s) = true -> initOnce s = s)
  /\ initOnce (initOnce s) = initOnce s
  /\ (forall hst, inited (loop (init hst)) = false).
Proof.
  split.
  { intros Hi He. destruct e; try discriminate He; cbn [handle]; unfold listening;
      now rewrite Hi. }
  split.
  { intros He. destruct e; try discriminate He; cbn [handle].
    - rewrite inited_start. apply inited_initOnce.
    - rewrite inited_stop. apply inited_initOnce.
    - rewrite inited_pause. apply inited_initOnce.
    - change (inited (loop (initOnce s)) = true). apply inited_initOnce.
    - apply inited_initOnce.
    - rewrite inited_burst. apply inited_initOnce.
    - rewrite inited_unlockSfxOnce. apply inited_initOnce. }
  split.
  { intros Hi. unfold initOnce. now rewrite Hi. }
  split.
  { unfold initOnce at 1. now rewrite inited_initOnce. }
  intros hst. reflexivity.
Qed.

(** ** Timers *)

Lemma timers_secondaryBreak x y dx dy hue s :
  timers (runTimer (SecondaryBreak x y dx dy hue) s) = timers s.
Proof.
  cbn [runTimer]. destruct (negb _); [reflexivity |].
  match goal with
  | |- timers (exec ?m s) = _ =>
      assert (A : agree (fp_except CTimers) s (exec m s)) by frame
  end.
  exact (agree_except CTimers _ _ A).
Qed.

(** ** What [start] sets up and what it leaves alone *)

(** X10. [start] switches the loop on and resets it -- running, no previous
    frame time (so the first step simulates no elapsed time), the launch
    interval restarted at the clock, the governor back to 60 FPS and full
    quality, both frame callbacks requested, the
    surface measured as [resize] does -- but it discards nothing: the live
    entities, the pools and the sound state are exactly as before.  Only
    [stop] clears entities. *)
Theorem start_resets_the_loop_and_keeps_the_entities (c : option bool) (s : State) :
  let s' := start c s in
  ents s' = ents s /\ sfx s' = sfx s /\ host s' = host s
  /\ view s' = view (resize s)
  /\ running (loop s') = true
  /\ lastTs (loop s') = None
  /\ lastLaunch (loop s') = now (host s)
  /\ perf s' = mkPerf TARGET_FPS 1.0 0 0
  /\ (exists a b, stepRafId (loop s') = Some a /\ launchRafId (loop s') = Some b)
  /\ (forall ts, stepDt ts s' == 0).
Proof.
  cbv zeta.
  assert (Hl : forall t, lastTs (loop t) = None -> forall ts, stepDt ts t == 0).
  { intros t E ts. unfold stepDt, stepDelta. rewrite E.
    assert (D : (ts - ts) / 1000 == 0) by (field).
    eapply Qeq_trans; [apply clamp_id; rewrite D; lra | exact D]. }
  unfold start. cbv zeta.
  destruct (match c with Some b => b | None => true end);
    (split; [reflexivity |]); (split; [reflexivity |]); (split; [reflexivity |]);
    (split; [reflexivity |]); (split; [reflexivity |]); (split; [reflexivity |]);
    (split; [reflexivity |]); (split; [reflexivity |]);
    (split; [do 2 eexists; split; reflexivity |]);
    apply Hl; reflexivity.
Qed.

(** ** The pop sound *)

Lemma playPop_played s :
  audioUnlocked (sfx s) = true -> sfxEnabled (host s) = true ->
  120 <= now (host s) - lastPopMs (sfx s) ->
  sfx (playPop s)
  = mkSfx (S (popIndex (sfx s)) mod 2) true (now (host s)) (S (popsPlayed (sfx s)))
  /\ rpos (playPop s) = S (rpos s)
  /\ host (playPop s) = host s.
Proof.
  intros Hu He Ht. unfold playPop, nowMs. rewrite Hu, He. cbn [negb orb]. cbv zeta.
  apply Qltb_ge in Ht. rewrite Ht.
  unfold exec, bind, modify. cbn [fst snd].
  destruct (sfx s) as [pi au lp pp] eqn:Es. cbn in Hu. subst au.
  cbn. rewrite Es. cbn. auto.
Qed.

(** X11. The pop sound is throttled.  [playPop] does nothing while the
    audio is locked or sound effects are off, and nothing when the last pop
    is less than 120 ms old.  Otherwise it issues exactly one play request,
    on the other of its two audio elements, stamps the time and draws one
    random number for the playback rate; hence a second call at the same
    instant is always dropped. *)
Theorem playPop_is_throttled_to_one_pop_per_120ms (s : State) :
  (audioUnlocked (sfx s) = false \/ sfxEnabled (host s) = false -> playPop s = s)
  /\ (now (host s) - lastPopMs (sfx s) < 120 -> playPop s = s)
  /\ (audioUnlocked (sfx s) = true -> sfxEnabled (host s) = true ->
      120 <= now (host s) - lastPopMs (sfx s) ->
      popsPlayed (sfx (playPop s)) = S (popsPlayed (sfx s))
      /\ popIndex (sfx (playPop s)) = (S (popIndex (sfx s)) mod 2)%nat
      /\ lastPopMs (sfx (playPop s)) = now (host s)
      /\ rpos (playPop s) = S (rpos s))
  /\ playPop (playPop s) = playPop s.
Proof.
  assert (Hlocked : audioUnlocked (sfx s) = false \/ sfxEnabled (host s) = false ->
                    playPop s = s).
  { intros [H | H]; unfold playPop; rewrite H; [reflexivity |].
    now rewrite orb_true_r. }
  assert (Hearly : forall t, now (host t) - lastPopMs (sfx t) < 120 -> playPop t = t).
  { intros t H. unfold playPop, nowMs. apply Qltb_lt in H. rewrite H.
    destruct (_ || _); reflexivity. }
  split; [exact Hlocked |]. split; [apply Hearly |].
  split.
  { intros Hu He Ht. destruct (playPop_played s Hu He Ht) as [E1 [E2 _]].
    rewrite E1. cbn. auto. }
  destruct (audioUnlocked (sfx s)) eqn:Hu;
    [| rewrite (Hlocked (or_introl eq_refl)); apply Hlocked; now left].
  destruct (sfxEnabled (host s)) eqn:He;
    [| rewrite (Hlocked (or_intror eq_refl)); apply Hlocked; now right].
  destruct (Qlt_le_dec (now (host s) - lastPopMs (sfx s)) 120) as [Ht | Ht].
  - rewrite (Hearly s Ht). apply Hearly, Ht.
  - destruct (playPop_played s Hu He Ht) as [E1 [_ E3]].
    apply Hearly. rewrite E1, E3. cbn [lastPopMs]. lra.
Qed.

(** ** Sizing *)

Lemma computeDprCap_range width s :
  1 <= computeDprCap width s <= (if Qltb width 600 then 1.10 else 1.35).
Proof.
  unfold computeDprCap. cbv zeta.
  destruct (Qltb width 600);
    [ pose proof (clamp_bounds (1.10 * lerp 0.74 1.0 (quality (perf s))) 1.0 1.10) as H
    | pose proof (clamp_bounds (1.35 * lerp 0.74 1.0 (quality (perf s))) 1.0 1.35) as H ];
    lra.
Qed.

(** X12. [resize] gives the surface whole-pixel sizes, the hero's rectangle
    rounded down, and falls back to the window's inner size when the
    rectangle is degenerate (2 px or less).  The device pixel ratio it
    adopts never exceeds the native one nor the cap, which lies between 1
    and 1.10 on surfaces under 600 px wide and between 1 and 1.35
    otherwise: on a display of ratio 1 or more the canvas is rendered at a
    ratio between 1 and 1.35, whatever the native ratio; a missing native
    ratio counts as 1. *)
Theorem resize_floors_the_size_and_caps_the_pixel_ratio (s : State) :
  let v := view (resize s) in
  let width := fst (safeHeroRect s) in
  let height := snd (safeHeroRect s) in
  let native := if Qeq_bool (devicePixelRatio (host s)) 0
                then 1 else devicePixelRatio (host s) in
  (w v <= width /\ width < w v + 1)
  /\ (h v <= height /\ height < h v + 1)
  /\ (rectWidth (host s) <= 2 -> width = innerWidth (host s))
  /\ (rectHeight (host s) <= 2 -> height = innerHeight (host s))
  /\ (2 < rectWidth (host s) -> width = rectWidth (host s))
  /\ (2 < rectHeight (host s) -> height = rectHeight (host s))
  /\ dpr v <= native /\ dpr v <= 1.35
  /\ (width < 600 -> dpr v <= 1.10)
  /\ (1 <= native -> 1 <= dpr v).
Proof.
  cbv zeta. unfold resize. cbv zeta. cbn [view set_view w h dpr].
  set (rect := safeHeroRect s).
  pose proof (computeDprCap_range (fst rect) s) as Hc.
  set (cap := computeDprCap (fst rect) s) in *.
  set (native := if Qeq_bool (devicePixelRatio (host s)) 0
                 then 1 else devicePixelRatio (host s)).
  assert (Hfl : forall x, inject_Z (Math_floor x) <= x /\ x < inject_Z (Math_floor x) + 1).
  { intros x. unfold Math_floor. split; [apply Qfloor_le |].
    pose proof (Qlt_floor x) as H. rewrite inject_Z_plus in H. exact H. }
  split; [apply Hfl |]. split; [apply Hfl |].
  split.
  { intros H. unfold rect, safeHeroRect. cbn [fst]. apply Qltb_ge in H. now rewrite H. }
  split.
  { intros H. unfold rect, safeHeroRect. cbn [snd]. apply Qltb_ge in H. now rewrite H. }
  split.
  { intros H. unfold rect, safeHeroRect. cbn [fst]. apply Qltb_lt in H. now rewrite H. }
  split.
  { intros H. unfold rect, safeHeroRect. cbn [snd]. apply Qltb_lt in H. now rewrite H. }
  split; [apply Q.le_min_r |].
  split.
  { eapply Qle_trans; [apply Q.le_min_l |]. destruct (Qltb (fst rect) 600); lra. }
  split.
  { intros H. eapply Qle_trans; [apply Q.le_min_l |].
    apply Qltb_lt in H. rewrite H in Hc. apply Hc. }
  intros H. apply Q.min_glb; [apply Hc | exact H].
Qed.

(** ** A full particle array *)

Lemma explodePattern_full kind x y hue s :
  (maxParticlesCap s <= plen s)%Z -> explodePattern kind x y hue s = s.
Proof.
  intros H.
  assert (E : (roomForParticles s <=? 0)%Z = true)
    by (rewrite roomForParticles_eq; apply Z.leb_le; lia).
  destruct kind; cbn [explodePattern];
    unfold explodePeony, explodeRing, explodePalm, explodeCrackle; cbv zeta;
    now rewrite E.
Qed.

(** X13. When the particle array is at its cap (or above it, the cap having
    dropped with the quality), a pattern returns at once: it makes no
    particle, takes no record from the pool and draws no random number.  A
    whole burst then still plays its pop and may puff smoke, but leaves the
    particles and their pool untouched and schedules no secondary break;
    and [pushParticle] sends the particle it is given to the pool. *)
Theorem bursts_on_a_full_particle_array_make_nothing
    (kind : BurstKind) (x y hue : Q) (p : Particle.t) (s : State) :
  (maxParticlesCap s <= plen s)%Z ->
  explodePattern kind x y hue s = s
  /\ particles (ents (explodeBurst x y hue kind s)) = particles (ents s)
  /\ particlePool (ents (explodeBurst x y hue kind s)) = particlePool (ents s)
  /\ timers (explodeBurst x y hue kind s) = timers s
  /\ pushParticle p s = freeParticle p s.
Proof.
  intros H.
  split; [apply explodePattern_full, H |].
  set (u := popAndSmoke x y s).
  assert (Hq : agree fp_quiet s u) by apply popAndSmoke_quiet.
  assert (Eu : explodePattern kind x y hue u = u).
  { apply explodePattern_full.
    rewrite (quiet_cap _ _ Hq), (quiet_plen _ _ Hq). exact H. }
  assert (Hroom : (roomForParticles u <= 24)%Z).
  { rewrite roomForParticles_eq, (quiet_cap _ _ Hq), (quiet_plen _ _ Hq). lia. }
  unfold explodeBurst. fold u. rewrite Eu.
  split.
  { replace (particles (ents s)) with (particles (ents u))
      by (unfold u; keeps CParticles).
    keeps CParticles. }
  split.
  { replace (particlePool (ents s)) with (particlePool (ents u))
      by (unfold u; keeps CParticlePool).
    keeps CParticlePool. }
  split.
  { replace (timers s) with (timers u) by (unfold u; keeps CTimers).
    unfold scheduleBreak, exec, bind, gets. cbn [fst snd]. cbv zeta.
    change (roomForParticles (snd (random u))) with (roomForParticles u).
    assert (E : (24 <? roomForParticles u)%Z = false) by (apply Z.ltb_ge; lia).
    rewrite E, andb_false_r. reflexivity. }
  unfold pushParticle.
  assert (E : (len (particles (ents s)) >=? maxParticlesCap s)%Z = true)
    by (apply Z.geb_le; unfold plen in H; lia).
  now rewrite E.
Qed.

(** ** Where rockets come from *)

Definition rcount (s : State) : nat := length (rockets (ents s)).

Lemma down_loop_le (m : State -> nat) body n :
  (forall i s, (m (body i s) <= m s)%nat) ->
  forall s, (m (down_loop n body s) <= m s)%nat.
Proof.
  intros Hb. induction n as [| n IH]; intros s; cbn [down_loop]; [lia |].
  specialize (IH (body n s)). specialize (Hb n s). lia.
Qed.

Lemma rcount_rocketIter dt i s : (rcount (rocketIter dt i s) <= rcount s)%nat.
Proof.
  unfold rocketIter.
  destruct (rockets (ents s) !! i) as [r |] eqn:E; [| lia].
  cbv zeta. generalize (rocketPhysics dt r). intros r'.
  assert (Hd : (length (splice1 i (rockets (ents s))) <= rcount s)%nat).
  { unfold splice1, rcount. rewrite length_delete by (eexists; exact E). lia. }
  destruct (_ && _).
  - match goal with
    | |- (rcount (explodeBurst ?a ?b ?c ?d ?u) <= _)%nat =>
        replace (rcount (explodeBurst a b c d u)) with (rcount u)
          by (unfold rcount; f_equal; symmetry; keeps CRockets)
    end.
    exact Hd.
  - destruct (rocketOffscreen s r'); [exact Hd |].
    unfold rcount. cbn [ents set_rockets set_ents rockets]. now rewrite length_insert.
Qed.

Lemma rcount_step ts s : (rcount (step ts s) <= rcount s)%nat.
Proof.
  unfold step. destruct (negb _); [lia |]. cbv zeta.
  set (u := updateQuality ts _ _).
  assert (Eu : rcount u = rcount s) by (unfold rcount, u; f_equal; keeps CRockets).
  rewrite <- Eu. generalize (stepDt ts s). intros dt. clearbody u. clear Eu.
  unfold simulate. cbv zeta.
  set (s1 := if smokeParityEnabled u then _ else u).
  assert (E1 : rcount s1 = rcount u).
  { unfold s1. destruct (smokeParityEnabled u); reflexivity. }
  set (s2 := if _ || _ then _ else s1).
  assert (E2 : rcount s2 = rcount s1).
  { unfold s2. destruct (_ || _); [| reflexivity].
    unfold rcount. f_equal. keeps CRockets. }
  set (s3 := down_loop _ (rocketIter dt) s2).
  assert (E3 : (rcount s3 <= rcount s2)%nat)
    by (apply (down_loop_le rcount); intros; apply rcount_rocketIter).
  set (s4 := down_loop _ (particleIter dt) s3).
  assert (E4 : rcount s4 = rcount s3) by (unfold rcount, s4; f_equal; keeps CRockets).
  match goal with
  | |- (rcount ?t <= _)%nat => assert (E5 : rcount t = rcount s4) by reflexivity
  end.
  lia.
Qed.

Lemma rcount_spawnRocket x s : (rcount (spawnRocket x s) <= rcount s + 1)%nat.
Proof.
  unfold rcount.
  destruct (spawnRocket_cases x s) as [-> | [r ->]]; [lia |].
  unfold push. rewrite length_app. cbn [length]. lia.
Qed.

Lemma rcount_launchNow ts s : (rcount (launchNow ts s) <= rcount s + 2)%nat.
Proof.
  unfold launchNow.
  rewrite exec_bind. change (snd (modify ?f ?t)) with (f t).
  rewrite exec_bind. change (snd (modify ?f ?t)) with (f t).
  rewrite exec_bind. cbn [gets fst snd]. cbv zeta.
  rewrite exec_bind. cbn [random fst snd].
  set (s1 := spawnRocket None (set_loop (with_lastLaunch ts) s)).
  assert (H1 : (rcount s1 <= rcount s + 1)%nat)
    by (apply (rcount_spawnRocket None (set_loop (with_lastLaunch ts) s))).
  destruct (Qltb _ _); cbn [when].
  - rewrite exec_modify.
    pose proof (rcount_spawnRocket None (set_rpos S s1)) as H2.
    change (rcount (set_rpos S s1)) with (rcount s1) in H2. lia.
  - change (rcount (exec (ret tt) (set_rpos S s1))) with (rcount s1). lia.
Qed.

(** X14. Rockets enter the scene through the launch scheduler and through
    clicks only, at most two at a time.  Every other event leaves the live
    rockets as they are, or removes them all ([stop]); the physics step
    only ever removes rockets (those that explode or leave the surface);
    bursts and timers never touch them. *)
Theorem rockets_come_from_launches_and_clicks_only (e : Event) (s : State) :
  (frameOrClick e = false ->
   rockets (ents (handle e s)) = rockets (ents s) \/ rockets (ents (handle e s)) = [])
  /\ (forall ts, (rcount (step ts s) <= rcount s)%nat)
  /\ (forall ts, (rcount (autoLaunch ts s) <= rcount s + 2)%nat)
  /\ (forall ts, (rcount (handle (Frame ts) s) <= rcount s + 2)%nat)
  /\ (forall cx rl, (rcount (handle (Click cx rl) s) <= rcount s + 2)%nat).
Proof.
  assert (Hauto : forall ts t, (rcount (autoLaunch ts t) <= rcount t + 2)%nat).
  { intros ts t. unfold autoLaunch. destruct (negb _); [lia |]. cbv zeta.
    rewrite exec_bind. cbn [random fst snd]. cbv zeta.
    rewrite exec_bind. cbn [gets fst snd].
    rewrite exec_bind.
    destruct (Qltb _ _); cbn [when].
    - change (snd (modify ?f ?u)) with (f u).
      match goal with
      | |- (rcount (exec ?m (launchNow ts ?u)) <= _)%nat =>
          change (rcount (exec m (launchNow ts u))) with (rcount (launchNow ts u));
          pose proof (rcount_launchNow ts u) as H;
          change (rcount u) with (rcount t) in H; exact H
      end.
    - cbn. unfold rcount. cbn. lia. }
  split.
  { intros He.
    assert (K : forall fpr f t, within fpr f -> fpr CRockets = false ->
                rockets (ents (f t)) = rockets (ents t))
      by (intros fpr f t Hf E; exact (agree_rockets _ _ _ (Hf t) E)).
    assert (Ki : rockets (ents (initOnce s)) = rockets (ents s))
      by (apply (K _ _ _ within_initOnce); reflexivity).
    destruct e; try discriminate He; cbn [handle]; unfold listening.
    - left. rewrite <- Ki. apply (K _ _ _ (within_start celebrate)). reflexivity.
    - right. apply stop_rockets_empty.
    - left. rewrite <- Ki. apply (K _ _ _ within_pause). reflexivity.
    - left. rewrite <- Ki. apply (K _ _ _ within_resume). reflexivity.
    - left. rewrite <- Ki. apply (K _ _ _ within_resize). reflexivity.
    - left. rewrite <- Ki. apply (K _ _ _ (within_burst x y)). reflexivity.
    - left. rewrite <- Ki. apply (K _ _ _ within_unlockSfxOnce). reflexivity.
    - left. destruct (timers s !! i) as [t |]; [| reflexivity].
      apply (K _ _ (set_timers (splice1 i) s) (within_runTimer (action t))). reflexivity.
    - left. destruct (inited _); [| reflexivity].
      apply (K _ _ _ within_resize). reflexivity.
    - left. destruct (inited _); [| reflexivity].
      destruct hidden;
        [apply (K _ _ _ within_pause) | apply (K _ _ _ within_resume)]; reflexivity.
    - left. destruct (inited _); [| reflexivity].
      apply (K _ _ _ within_pause). reflexivity.
    - left. destruct (inited _); [| reflexivity].
      destruct hidden; [reflexivity |]. apply (K _ _ _ within_resume). reflexivity.
    - left. destruct (inited _); [| reflexivity].
      apply (K _ _ _ within_pause). reflexivity.
    - left. destruct (inited _); [| reflexivity].
      destruct hidden; [reflexivity |]. apply (K _ _ _ within_resume). reflexivity.
    - left. reflexivity. }
  split; [intros ts; apply rcount_step |].
  split; [intros ts; apply Hauto |].
  split.
  { intros ts. cbn [handle]. cbv zeta.
    set (s1 := match stepRafId (loop s) with Some _ => step ts s | None => s end).
    assert (H1 : (rcount s1 <= rcount s)%nat).
    { unfold s1. destruct (stepRafId _); [apply rcount_step | lia]. }
    destruct (launchRafId _); [| lia].
    pose proof (Hauto ts s1). lia. }
  intros cx rl. cbn [handle]. unfold listening.
  destruct (inited _); [| lia].
  unfold onClick. destruct (negb _); [lia |]. destruct (Qltb _ _); [lia |]. cbv zeta.
  rewrite exec_bind. change (snd (modify ?f ?t)) with (f t).
  rewrite exec_bind. cbn [gets fst snd]. cbv zeta.
  rewrite exec_bind. cbn [random fst snd].
  set (s1 := spawnRocket (Some (cx - rl)) s).
  pose proof (rcount_spawnRocket (Some (cx - rl)) s) as H1. fold s1 in H1.
  destruct (Qltb _ _); cbn [when].
  - rewrite exec_bind.
    match goal with
    | |- (rcount (exec (modify (spawnRocket ?a)) ?u) <= _)%nat =>
        change (rcount (exec (modify (spawnRocket a)) u)) with (rcount (spawnRocket a u));
        pose proof (rcount_spawnRocket a u) as H2;
        change (rcount u) with (rcount s1) in H2; lia
    end.
  - change (rcount (exec (ret tt) (set_rpos S s1))) with (rcount s1). lia.
Qed.

(** ** Rendering parameters *)

Lemma fadeAlpha_governed s :
  quality_ok s ->
  fadeAlpha s == 0.26 + (1 - quality (perf s)) * 0.10 /\ 0.26 <= fadeAlpha s <= 0.305.
Proof.
  unfold quality_ok, MIN_QUALITY, MAX_QUALITY. intros [Hlo Hhi].
  unfold fadeAlpha, FADE_ALPHA_BASE.
  assert (E : clamp (0.26 + (1 - quality (perf s)) * 0.10) 0.22 0.38
              == 0.26 + (1 - quality (perf s)) * 0.10) by (apply clamp_id; lra).
  split; [exact E |]. rewrite E. lra.
Qed.

Lemma bloomAmount_governed s :
  quality_ok s ->
  (w (view s) < 600 -> 3.907 <= bloomAmount s <= 4.9)
  /\ (600 <= w (view s) -> 5.582 <= bloomAmount s <= 7).
Proof.
  unfold quality_ok, MIN_QUALITY, MAX_QUALITY. intros [Hlo Hhi].
  unfold bloomAmount, BLOOM_BASE, BLOOM_MOBILE_SCALE, lerp. cbv zeta.
  split; intros H.
  - apply Qltb_lt in H. rewrite H. lra.
  - apply Qltb_ge in H. rewrite H. lra.
Qed.

(** X15. The two rendering parameters that follow the quality.  The
    per-frame fade is always within [[0.22, 0.38]] and falls as the quality
    rises; in every reachable state it is [0.26 + (1 - quality) / 10],
    between 0.26 and 0.305, so its clamps never act.  The bloom is 7 (4.9 on
    surfaces under 600 px wide) scaled by [lerp 0.55 1 quality]: in every
    reachable state between 5.582 and 7, or 3.907 and 4.9 when narrow. *)
Theorem fade_and_bloom_follow_the_quality :
  (forall s, 0.22 <= fadeAlpha s <= 0.38)
  /\ (forall s s', quality (perf s) <= quality (perf s') -> fadeAlpha s' <= fadeAlpha s)
  /\ (forall hst es,
        let s := run es (init hst) in
        fadeAlpha s == 0.26 + (1 - quality (perf s)) * 0.10
        /\ 0.26 <= fadeAlpha s <= 0.305
        /\ (w (view s) < 600 -> 3.907 <= bloomAmount s <= 4.9)
        /\ (600 <= w (view s) -> 5.582 <= bloomAmount s <= 7)).
Proof.
  split; [intros s; apply clamp_bounds; lra |].
  split.
  { intros s s' H. unfold fadeAlpha, FADE_ALPHA_BASE. apply clamp_mono. lra. }
  intros hst es. cbv zeta.
  assert (Hq : quality_ok (run es (init hst)))
    by (apply quality_ok_run, quality_ok_reset, perf_init).
  destruct (fadeAlpha_governed _ Hq) as [E1 E2].
  destruct (bloomAmount_governed _ Hq) as [B1 B2].
  auto.
Qed.

(** X16. [drawSmoke] draws nothing without the sprite, for a puff with no
    life left, or when the opacity would be 0.002 or less.  For a puff with
    [0 < life <= maxLife] it draws with an opacity above 0.002 and at most
    the puff's own, and with a half-size between the puff's radius and 1.9
    times that: the haze fades and expands as the puff ages. *)
Theorem drawSmoke_fades_and_expands (p : Smoke.t) :
  0 < Smoke.maxLife p ->
  drawSmoke false p = None
  /\ (Smoke.life p <= 0 -> drawSmoke true p = None)
  /\ (forall a rr,
        drawSmoke true p = Some (a, rr) ->
        0 < Smoke.life p /\ 0.002 < a
        /\ a == Smoke.a p * (Smoke.life p / Smoke.maxLife p)
        /\ (Smoke.life p <= Smoke.maxLife p ->
            (0 <= Smoke.a p -> a <= Smoke.a p)
            /\ (0 <= Smoke.r p -> Smoke.r p <= rr <= 1.9 * Smoke.r p))).
Proof.
  intros Hm.
  assert (Hdiv : forall l, (l <= 0 -> l / Smoke.maxLife p <= 0)
                           /\ (0 < l -> 0 < l / Smoke.maxLife p)
                           /\ (l <= Smoke.maxLife p -> l / Smoke.maxLife p <= 1)).
  { intros l. split; [| split]; intros H.
    - apply Qle_shift_div_r; [exact Hm | lra].
    - apply Qlt_shift_div_l; [exact Hm | lra].
    - apply Qle_shift_div_r; [exact Hm | lra]. }
  split; [reflexivity |].
  split.
  { intros H. unfold drawSmoke. cbn [negb]. cbv zeta.
    destruct (Hdiv (Smoke.life p)) as [D _].
    apply D in H. apply Qle_bool_iff in H. now rewrite H. }
  intros a rr. unfold drawSmoke. cbn [negb]. cbv zeta.
  set (t := Smoke.life p / Smoke.maxLife p) in *.
  destruct (Qle_bool t 0) eqn:E1; [discriminate |].
  destruct (Qle_bool (Smoke.a p * t) 0.002) eqn:E2; [discriminate |].
  intros H. injection H as <- <-.
  assert (Ht : 0 < t).
  { apply Qnot_le_lt. intros C. apply Qle_bool_iff in C. congruence. }
  assert (Ha : 0.002 < Smoke.a p * t).
  { apply Qnot_le_lt. intros C. apply Qle_bool_iff in C. congruence. }
  assert (Hl : 0 < Smoke.life p).
  { apply Qnot_le_lt. intros C. destruct (Hdiv (Smoke.life p)) as [D _].
    apply D in C. fold t in C. lra. }
  split; [exact Hl |]. split; [exact Ha |]. split; [reflexivity |].
  intros Hle. destruct (Hdiv (Smoke.life p)) as [_ [_ D]]. apply D in Hle. fold t in Hle.
  split; intros H0; [| split]; nra.
Qed.

(** ** A step ages the entities by at most two frames *)

Lemma life_drawParticle p : Particle.life (drawParticle p) = Particle.life p.
Proof.
  unfold drawParticle. cbv zeta.
  destruct (Qle_bool _ 0); [reflexivity |]. destruct (Qle_bool _ 0.01); reflexivity.
Qed.

Lemma heat_size_drawParticle p :
  Particle.heat (drawParticle p) = Particle.heat p
  /\ Particle.size (drawParticle p) = Particle.size p
  /\ Particle.kind (drawParticle p) = Particle.kind p.
Proof.
  unfold drawParticle. cbv zeta.
  destruct (Qle_bool _ 0); [auto |]. destruct (Qle_bool _ 0.01); auto.
Qed.

(** X17. Whatever the time between two frames, a step simulates between 0
    and 0.033 s, so it takes at most 1.98 units of life (frames at 60 Hz)
    from a particle or a smoke puff and never gives any back; a comet keeps
    a heat of at least 0.35 and loses at most half a percent of its size,
    while other particles keep their size and heat. *)
Theorem a_step_ages_entities_by_at_most_two_frames
    (ts : Q) (s : State) (p : Particle.t) (q : Smoke.t) :
  let dt := stepDt ts s in
  let p' := particleAge dt p in
  let q' := smokePhysics dt s q in
  0 <= dt <= 0.033
  /\ Particle.life p - 1.98 <= Particle.life p' <= Particle.life p
  /\ Smoke.life q - 1.98 <= Smoke.life q' <= Smoke.life q
  /\ (Particle.kind p = Comet ->
      0.35 <= Particle.heat p'
      /\ (0 <= Particle.size p ->
          0.995 * Particle.size p <= Particle.size p' <= Particle.size p))
  /\ (Particle.kind p <> Comet ->
      Particle.heat p' = Particle.heat p /\ Particle.size p' = Particle.size p).
Proof.
  cbv zeta.
  pose proof (stepDt_ge ts s) as H0. pose proof (stepDt_le ts s) as H1.
  set (dt := stepDt ts s) in *.
  split; [split; assumption |].
  unfold particleAge. cbv zeta. rewrite life_drawParticle.
  match goal with
  | |- context [drawParticle ?u] =>
      destruct (heat_size_drawParticle u) as [Eh [Es _]]; rewrite Eh, Es
  end.
  split.
  { destruct (Particle.kind p); cbn [Particle.life Particle.set_life Particle.set_heat
                                      Particle.set_size]; lra. }
  split.
  { unfold smokePhysics. cbv zeta. cbn [Smoke.life Smoke.set_life Smoke.set_x Smoke.set_y].
    lra. }
  split.
  { intros Hk. rewrite Hk.
    cbn [Particle.heat Particle.size Particle.set_life Particle.set_heat Particle.set_size].
    split; [apply Q.le_max_l |]. intros Hs. nra. }
  intros Hk.
  destruct (Particle.kind p); try congruence;
    cbn [Particle.heat Particle.size Particle.set_life]; auto.
Qed.

(** ** Rockets cannot fly forever *)

(** A rocket's flight over successive steps of [dts] seconds: the loop body
    of [step] moves it by [rocketPhysics] and lets it explode as soon as
    [shouldExplode] holds. *)
Fixpoint stillFlying (dts : list Q) (r : Rocket.t) : bool :=
  match dts with
  | [] => true
  | dt :: rest =>
      let r' := rocketPhysics dt r in
      if shouldExplode r' then false else stillFlying rest r'
  end.

Definition total (dts : list Q) : Q := fold_right Qplus 0 dts.

Lemma rocketPhysics_vy dt r :
  Rocket.vy (rocketPhysics dt r)
  = Rocket.vy r + ((- airDrag * Rocket.vy r * Qabs (Rocket.vy r)) + gravity) * dt
  /\ Rocket.y (rocketPhysics dt r) = Rocket.y r + Rocket.vy (rocketPhysics dt r) * dt
  /\ Rocket.targetY (rocketPhysics dt r) = Rocket.targetY r.
Proof. repeat split; reflexivity. Qed.

Lemma rising_rocket_slows dt r :
  0 <= dt -> Rocket.vy r <= 0 ->
  Rocket.vy r + gravity * dt <= Rocket.vy (rocketPhysics dt r).
Proof.
  intros Hdt Hv. destruct (rocketPhysics_vy dt r) as [E _]. rewrite E.
  pose proof (Qabs_nonneg (Rocket.vy r)) as Ha.
  unfold airDrag, gravity. set (v := Rocket.vy r) in *. set (a := Qabs v) in *.
  assert (H1 : 0 <= - v * a) by (apply Qmult_le_0_compat; lra).
  assert (H2 : 0 <= - v * a * dt) by (apply Qmult_le_0_compat; assumption).
  lra.
Qed.

Lemma flying_on dt r :
  shouldExplode (rocketPhysics dt r) = false ->
  Rocket.vy (rocketPhysics dt r) < 0
  /\ Rocket.targetY r < Rocket.y (rocketPhysics dt r).
Proof.
  unfold shouldExplode. intros H. apply orb_false_iff in H as [H1 H2].
  destruct (rocketPhysics_vy dt r) as [_ [_ Et]]. rewrite Et in H1.
  split; apply Qnot_le_lt; intros C; apply Qle_bool_iff in C; congruence.
Qed.

Lemma stillFlying_cons dt rest r :
  stillFlying (dt :: rest) r
  = if shouldExplode (rocketPhysics dt r) then false
    else stillFlying rest (rocketPhysics dt r).
Proof. reflexivity. Qed.

Lemma flight_arith (v v' dt T : Q) :
  v + 650 * dt <= v' -> 650 * T < - v' -> 650 * (dt + T) < - v.
Proof. lra. Qed.

Lemma flight_arith_last (v v' dt : Q) :
  v + 650 * dt <= v' -> v' < 0 -> 650 * (dt + 0) < - v.
Proof. lra. Qed.

Lemma stillFlying_bound dts : forall r,
  Forall (fun dt => 0 <= dt) dts -> Rocket.vy r <= 0 ->
  stillFlying dts r = true -> dts <> [] ->
  650 * total dts < - Rocket.vy r.
Proof.
  induction dts as [| dt rest IH]; intros r Hd Hv Hf Hne; [congruence |].
  rewrite stillFlying_cons in Hf.
  destruct (shouldExplode (rocketPhysics dt r)) eqn:E; [discriminate |].
  inversion Hd as [| ? ? Hdt Hrest]; subst.
  destruct (flying_on dt r E) as [Hneg _].
  pose proof (rising_rocket_slows dt r Hdt Hv) as Hs.
  change (total (dt :: rest)) with (dt + total rest).
  destruct rest as [| dt' rest'].
  - exact (flight_arith_last _ _ _ Hs Hneg).
  - apply (flight_arith _ _ _ _ Hs).
    apply IH; [exact Hrest | apply Qlt_le_weak, Hneg | exact Hf | discriminate].
Qed.

(** X18. A rocket cannot fly forever.  While it rises, each step of [dt]
    seconds slows it by at least [gravity * dt] = 650 dt px/s (drag only
    adds to that), and it explodes as soon as it stops rising or reaches
    its target height; a rocket still flying has kept rising and is below
    its target.  So a rocket launched at up to 1200 px/s has exploded (or
    left the surface) once 1200/650 s, about 1.85 s, have been simulated
    since its launch; and the step in which a live rocket is due to explode
    takes it out of the live rockets. *)
Theorem a_rocket_explodes_within_two_simulated_seconds (dts : list Q) (r : Rocket.t) :
  Forall (fun dt => 0 <= dt) dts ->
  - 1200 <= Rocket.vy r <= 0 ->
  (forall dt, 0 <= dt ->
     Rocket.vy r + 650 * dt <= Rocket.vy (rocketPhysics dt r)
     /\ (shouldExplode (rocketPhysics dt r) = false ->
         Rocket.vy (rocketPhysics dt r) < 0
         /\ Rocket.y (rocketPhysics dt r) <= Rocket.y r
         /\ Rocket.targetY r < Rocket.y (rocketPhysics dt r)))
  /\ (stillFlying dts r = true -> dts <> [] -> 650 * total dts < 1200)
  /\ (1200 <= 650 * total dts -> dts <> [] -> stillFlying dts r = false)
  /\ (forall dt i s,
        rockets (ents s) !! i = Some r -> Rocket.broke r = false ->
        shouldExplode (rocketPhysics dt r) = true ->
        rockets (ents (rocketIter dt i s)) = delete i (rockets (ents s))).
Proof.
  intros Hd [Hlo Hhi].
  assert (Hb : stillFlying dts r = true -> dts <> [] -> 650 * total dts < 1200).
  { intros Hf Hne. pose proof (stillFlying_bound dts r Hd Hhi Hf Hne) as H. lra. }
  split.
  { intros dt Hdt. split; [exact (rising_rocket_slows dt r Hdt Hhi) |].
    intros E. destruct (flying_on dt r E) as [Hneg Hty].
    split; [exact Hneg |]. split; [| exact Hty].
    destruct (rocketPhysics_vy dt r) as [_ [Ey _]]. rewrite Ey. nra. }
  split; [exact Hb |].
  split.
  { intros H Hne. destruct (stillFlying dts r) eqn:E; [| reflexivity].
    specialize (Hb eq_refl Hne). lra. }
  intros dt i s E Hbr Hx. unfold rocketIter. rewrite E. cbv zeta.
  change (Rocket.broke (rocketPhysics dt r)) with (Rocket.broke r).
  rewrite Hx, Hbr. cbn [negb andb].
  match goal with
  | |- rockets (ents (explodeBurst ?a ?b ?c ?d ?u)) = _ =>
      replace (rockets (ents (explodeBurst a b c d u))) with (rockets (ents u))
        by (symmetry; keeps CRockets)
  end.
  reflexivity.
Qed.

(** ** Recovery of the quality *)

Section Recovery.

(** What is used of [Math.pow(x, 0.78)] here: it is 1 at 1. *)
Hypothesis pow_at_one : forall x, x == 1 -> Math_pow x 0.78 == 1.

(** X19. Once the smoothed FPS estimate is at 60 or above, the governor's
    target is full quality, and each adjustment closes 4.5% of the gap: the
    distance of the quality to 1 is multiplied by 0.955, so the quality
    rises and never overshoots 1.  Frames no longer than 1000/60 ms keep an
    estimate that is at 60 or above there. *)
Theorem quality_recovers_geometrically_at_full_frame_rate (ts deltaMs : Q) (s : State) :
  quality_ok s ->
  (60 <= fpsSmoothed (perf (measureFps deltaMs s)) ->
   220 < ts - lastQualityTs (perf s) ->
   1 - quality (perf (updateQuality ts deltaMs s)) == 0.955 * (1 - quality (perf s))
   /\ quality (perf s) <= quality (perf (updateQuality ts deltaMs s)) <= 1)
  /\ (deltaMs <= 1000 / 60 -> 60 <= fpsSmoothed (perf s) ->
      60 <= fpsSmoothed (perf (measureFps deltaMs s))).
Proof.
  intros [Hlo Hhi]. split.
  - intros HF Hts. rewrite quality_updateQuality.
    apply Qltb_lt in Hts. rewrite Hts.
    pose proof (qualityFromFps_full pow_at_one _ HF) as ET.
    set (T := qualityFromFps _) in *.
    unfold MIN_QUALITY, MAX_QUALITY, QUALITY_EMA in *.
    assert (Hv : 0.55 <= quality (perf s) + (T - quality (perf s)) * 0.045 <= 1) by lra.
    rewrite (clamp_id _ _ _ Hv). split; [| split]; lra.
  - intros Hd HF. rewrite fpsSmoothed_measureFps.
    assert (Hf : 60 <= fpsInstantOf deltaMs).
    { unfold fpsInstantOf.
      destruct (clamp_bounds deltaMs 6 120) as [Hc _]; [lra |].
      assert (Hc2 : clamp deltaMs 6 120 <= 1000 / 60).
      { unfold clamp. apply Q.max_lub.
        - vm_compute. intro H. discriminate H.
        - eapply Qle_trans; [apply Q.le_min_r | exact Hd]. }
      assert (E : 1000 / 60 == 50 # 3) by reflexivity. rewrite E in Hc2.
      apply Qle_shift_div_l; lra. }
    unfold FPS_EMA. lra.
Qed.

End Recovery.

(** ** What a spawned entity looks like *)

Section RandomInRange.

(** [Math.random] returns numbers in [[0, 1)]. *)
Hypothesis random_in_range : forall n, 0 <= Math_random n < 1.

Lemma rand_bounds a b s : a < b -> a <= fst (rand a b s) < b.
Proof.
  intros H. unfold rand, bind, random, ret. cbn [fst snd].
  destruct (random_in_range (rpos s)) as [H0 H1].
  split; nra.
Qed.

Lemma spawnRocket_accepted (x : option Q) (s : State) :
  (len (rockets (ents s)) < maxRocketsCap s)%Z ->
  10 <= w (view s) -> 10 <= h (view s) ->
  exists r,
    rockets (ents (spawnRocket x s)) = push (rockets (ents s)) r
    /\ Rocket.y r = h (view s) + 10
    /\ Rocket.px r = Rocket.x r /\ Rocket.py r = Rocket.y r
    /\ match x with
       | Some v => Rocket.x r = v
       | None => w (view s) * 0.15 <= Rocket.x r < w (view s) * 0.85
       end
    /\ - 1200 < Rocket.vy r <= - 900
    /\ - 80 <= Rocket.vx r < 80
    /\ h (view s) * 0.45 <= Rocket.targetY r < h (view s) * 0.75
    /\ Rocket.targetY r < Rocket.y r
    /\ 0 <= Rocket.hue r < 360
    /\ Rocket.wind r = currentWind (loop s)
    /\ 0.06 <= Rocket.breakDelay r < 0.14
    /\ Rocket.broke r = false.
Proof.
  intros Hc Hw Hh. unfold spawnRocket.
  destruct (len (rockets (ents s)) >=? maxRocketsCap s)%Z eqn:E; [lia |].
  pose proof Hw as Hw'. pose proof Hh as Hh'.
  apply Qltb_ge in Hw'. apply Qltb_ge in Hh'. rewrite Hw', Hh'. cbn [orb].
  unfold exec, bind, allocRocket, LOWER_LINE_TARGET_FIREWORKS,
    UPPER_LINE_TARGET_FIREWORKS.
  assert (Hty : forall t, h (view s) * 0.45
                          <= fst (rand (h (view s) * 0.45) (h (view s) * 0.75) t)
                          < h (view s) * 0.75)
    by (intros t; apply rand_bounds; lra).
  assert (Hx : forall t, w (view s) * 0.15
                         <= fst (rand (w (view s) * 0.15) (w (view s) * 0.85) t)
                         < w (view s) * 0.85)
    by (intros t; apply rand_bounds; lra).
  assert (Hsp : forall t, 900 <= fst (rand 900 1200 t) < 1200)
    by (intros t; apply rand_bounds; lra).
  assert (Hvx : forall t, - 80 <= fst (rand (-80) 80 t) < 80)
    by (intros t; apply rand_bounds; lra).
  assert (Hhue : forall t, 0 <= fst (randomHue t) < 360)
    by (intros t; apply rand_bounds; lra).
  assert (Hbd : forall t, 0.06 <= fst (rand 0.06 0.14 t) < 0.14)
    by (intros t; apply rand_bounds; lra).
  assert (Hfin : forall r : Rocket.t,
             Rocket.y r = h (view s) + 10 ->
             Rocket.px r = Rocket.x r -> Rocket.py r = Rocket.y r ->
             match x with
             | Some v => Rocket.x r = v
             | None => w (view s) * 0.15 <= Rocket.x r < w (view s) * 0.85
             end ->
             (exists t, Rocket.vy r = - fst (rand 900 1200 t)) ->
             (exists t, Rocket.vx r = fst (rand (-80) 80 t)) ->
             (exists t, Rocket.targetY r
                        = fst (rand (h (view s) * 0.45) (h (view s) * 0.75) t)) ->
             (exists t, Rocket.hue r = fst (randomHue t)) ->
             Rocket.wind r = currentWind (loop s) ->
             (exists t, Rocket.breakDelay r = fst (rand 0.06 0.14 t)) ->
             Rocket.broke r = false ->
             Rocket.y r = h (view s) + 10
             /\ Rocket.px r = Rocket.x r /\ Rocket.py r = Rocket.y r
             /\ match x with
                | Some v => Rocket.x r = v
                | None => w (view s) * 0.15 <= Rocket.x r < w (view s) * 0.85
                end
             /\ - 1200 < Rocket.vy r <= - 900
             /\ - 80 <= Rocket.vx r < 80
             /\ h (view s) * 0.45 <= Rocket.targetY r < h (view s) * 0.75
             /\ Rocket.targetY r < Rocket.y r
             /\ 0 <= Rocket.hue r < 360
             /\ Rocket.wind r = currentWind (loop s)
             /\ 0.06 <= Rocket.breakDelay r < 0.14
             /\ Rocket.broke r = false).
  { intros r Ey Epx Epy Ex [t1 Evy] [t2 Evx] [t3 Ety] [t4 Ehue] Ewind [t5 Ebd] Ebr.
    pose proof (Hsp t1). pose proof (Hvx t2). pose proof (Hty t3).
    pose proof (Hhue t4). pose proof (Hbd t5).
    rewrite Ey, Evy, Evx, Ety, Ehue, Ebd.
    split; [reflexivity |]. split; [exact Epx |].
    split; [rewrite Epy; exact Ey |]. split; [exact Ex |].
    split; [lra |]. split; [lra |]. split; [lra |]. split; [lra |].
    split; [lra |]. split; [exact Ewind |]. split; [lra | exact Ebr]. }
  destruct (pop (rocketPool (ents s))) as [[p rest] |]; destruct x as [v |];
    (eexists; split; [reflexivity |]); apply Hfin;
    try reflexivity; try (eexists; reflexivity); exact (Hx _).
Qed.

(** X20. [spawnRocket] returns at once, consuming no random number, when
    the rocket cap is reached or the surface is under 10 px wide or high.
    Otherwise it appends exactly one rocket: placed 10 px below the bottom
    edge, at the given [x] or at a random one in the middle 70% of the
    width, with no streak yet ([px], [py] at the start point), flying up at
    900 to 1200 px/s with at most 80 px/s of drift, aimed at a height
    between 45% and 75% of the surface down from the top (above its start),
    with a hue in [[0, 360)], the wind of the moment, and not yet broken. *)
Theorem spawnRocket_places_one_rocket_below_the_surface (x : option Q) (s : State) :
  ((maxRocketsCap s <= len (rockets (ents s)))%Z \/ w (view s) < 10 \/ h (view s) < 10 ->
   spawnRocket x s = s)
  /\ ((len (rockets (ents s)) < maxRocketsCap s)%Z ->
      10 <= w (view s) -> 10 <= h (view s) ->
      exists r,
        rockets (ents (spawnRocket x s)) = push (rockets (ents s)) r
        /\ Rocket.y r = h (view s) + 10
        /\ Rocket.px r = Rocket.x r /\ Rocket.py r = Rocket.y r
        /\ match x with
           | Some v => Rocket.x r = v
           | None => w (view s) * 0.15 <= Rocket.x r < w (view s) * 0.85
           end
        /\ - 1200 < Rocket.vy r <= - 900
        /\ - 80 <= Rocket.vx r < 80
        /\ h (view s) * 0.45 <= Rocket.targetY r < h (view s) * 0.75
        /\ Rocket.targetY r < Rocket.y r
        /\ 0 <= Rocket.hue r < 360
        /\ Rocket.wind r = currentWind (loop s)
        /\ 0.06 <= Rocket.breakDelay r < 0.14
        /\ Rocket.broke r = false).
Proof.
  split; [| apply spawnRocket_accepted].
  intros H. unfold spawnRocket.
    destruct (len (rockets (ents s)) >=? maxRocketsCap s)%Z eqn:E; [reflexivity |].
    destruct H as [H | [H | H]]; [lia | |].
    - apply Qltb_lt in H. now rewrite H.
    - apply Qltb_lt in H. rewrite H. now rewrite orb_true_r.
Qed.

(** X21. [spawnSmoke] does nothing (and draws nothing) without the smoke
    sprite or at the smoke cap.  Otherwise it appends one puff at the given
    point, drifting at most 8 px/s sideways and rising at 2 to 10 px/s, with
    50 to 80 frames of life, all of it left ([life = maxLife]), a radius of
    22 to 44 px and an opacity of 0.06 to 0.12. *)
Theorem spawnSmoke_adds_one_rising_puff (x y : Q) (s : State) :
  (smokeSprite (host s) = false \/ (maxSmokeCap s <= len (smokePuffs (ents s)))%Z ->
   spawnSmoke x y s = s)
  /\ (smokeSprite (host s) = true ->
      (len (smokePuffs (ents s)) < maxSmokeCap s)%Z ->
      exists p,
        smokePuffs (ents (spawnSmoke x y s)) = push (smokePuffs (ents s)) p
        /\ Smoke.x p = x /\ Smoke.y p = y
        /\ - 8 <= Smoke.vx p < 8
        /\ - 10 <= Smoke.vy p < - 2
        /\ 50 <= Smoke.life p < 80
        /\ Smoke.maxLife p = Smoke.life p
        /\ 22 <= Smoke.r p < 44
        /\ 0.06 <= Smoke.a p < 0.12).
Proof.
  split.
  { intros H. unfold spawnSmoke.
    destruct (smokeSprite (host s)) eqn:E1; cbn [negb]; [| reflexivity].
    destruct (len (smokePuffs (ents s)) >=? maxSmokeCap s)%Z eqn:E2; [reflexivity |].
    destruct H as [H | H]; [discriminate H | lia]. }
  intros Hs Hc. unfold spawnSmoke. rewrite Hs. cbn [negb].
  destruct (len (smokePuffs (ents s)) >=? maxSmokeCap s)%Z eqn:E; [lia |].
  unfold exec, bind, allocSmoke.
  assert (Hfin : forall p : Smoke.t,
             Smoke.x p = x -> Smoke.y p = y ->
             (exists t, Smoke.vx p = fst (rand (-8) 8 t)) ->
             (exists t, Smoke.vy p = fst (rand (-10) (-2) t)) ->
             (exists t, Smoke.life p = fst (rand 50 80 t)) ->
             Smoke.maxLife p = Smoke.life p ->
             (exists t, Smoke.r p = fst (rand 22 44 t)) ->
             (exists t, Smoke.a p = fst (rand 0.06 0.12 t)) ->
             Smoke.x p = x /\ Smoke.y p = y
             /\ - 8 <= Smoke.vx p < 8
             /\ - 10 <= Smoke.vy p < - 2
             /\ 50 <= Smoke.life p < 80
             /\ Smoke.maxLife p = Smoke.life p
             /\ 22 <= Smoke.r p < 44
             /\ 0.06 <= Smoke.a p < 0.12).
  { intros p Ex Ey [t1 E1] [t2 E2] [t3 E3] Em [t4 E4] [t5 E5].
    pose proof (rand_bounds (-8) 8 t1). pose proof (rand_bounds (-10) (-2) t2).
    pose proof (rand_bounds 50 80 t3). pose proof (rand_bounds 22 44 t4).
    pose proof (rand_bounds 0.06 0.12 t5).
    rewrite E1, E2, E3, E4, E5.
    repeat split; try assumption; try congruence; lra. }
  destruct (pop (smokePool (ents s))) as [[p rest] |];
    (eexists; split; [reflexivity |]); apply Hfin;
    try reflexivity; eexists; reflexivity.
Qed.

(** X22. The particle [makeParticle] returns has the position, velocity,
    life, size, hue and kind it was given, no streak yet and its whole life
    left; its twinkle amplitude, drag, gravity and wind multipliers, crackle
    timer and heat are fresh draws within their ranges -- so drag, gravity
    and wind differ by at most some 10-15% between particles; and it costs
    exactly seven random numbers. *)
Theorem makeParticle_sets_fields_and_draws_multipliers
    (x y vx vy life size hue : Q) (kind : ParticleKind) (s : State) :
  let p := fst (makeParticle x y vx vy life size hue kind s) in
  Particle.x p = x /\ Particle.y p = y
  /\ Particle.px p = x /\ Particle.py p = y
  /\ Particle.vx p = vx /\ Particle.vy p = vy
  /\ Particle.life p = life /\ Particle.maxLife p = life
  /\ Particle.size p = size /\ Particle.hue p = hue /\ Particle.kind p = kind
  /\ 0.85 <= Particle.twAmp p < 1.15
  /\ 0.92 <= Particle.dragMul p < 1.10
  /\ 0.92 <= Particle.gravMul p < 1.08
  /\ 0.85 <= Particle.windMul p < 1.15
  /\ 0.02 <= Particle.crackleTimer p < 0.07
  /\ 0.85 <= Particle.heat p < 1.15
  /\ rpos (snd (makeParticle x y vx vy life size hue kind s)) = (rpos s + 7)%nat.
Proof.
  cbv zeta.
  assert (Hfin : forall (p : Particle.t) (n : nat),
             Particle.x p = x -> Particle.y p = y ->
             Particle.px p = x -> Particle.py p = y ->
             Particle.vx p = vx -> Particle.vy p = vy ->
             Particle.life p = life -> Particle.maxLife p = life ->
             Particle.size p = size -> Particle.hue p = hue -> Particle.kind p = kind ->
             (exists t, Particle.twAmp p = fst (rand 0.85 1.15 t)) ->
             (exists t, Particle.dragMul p = fst (rand 0.92 1.10 t)) ->
             (exists t, Particle.gravMul p = fst (rand 0.92 1.08 t)) ->
             (exists t, Particle.windMul p = fst (rand 0.85 1.15 t)) ->
             (exists t, Particle.crackleTimer p = fst (rand 0.02 0.07 t)) ->
             (exists t, Particle.heat p = fst (rand 0.85 1.15 t)) ->
             n = (rpos s + 7)%nat ->
             Particle.x p = x /\ Particle.y p = y
             /\ Particle.px p = x /\ Particle.py p = y
             /\ Particle.vx p = vx /\ Particle.vy p = vy
             /\ Particle.life p = life /\ Particle.maxLife p = life
             /\ Particle.size p = size /\ Particle.hue p = hue /\ Particle.kind p = kind
             /\ 0.85 <= Particle.twAmp p < 1.15
             /\ 0.92 <= Particle.dragMul p < 1.10
             /\ 0.92 <= Particle.gravMul p < 1.08
             /\ 0.85 <= Particle.windMul p < 1.15
             /\ 0.02 <= Particle.crackleTimer p < 0.07
             /\ 0.85 <= Particle.heat p < 1.15
             /\ n = (rpos s + 7)%nat).
  { intros p n E1 E2 E3 E4 E5 E6 E7 E8 E9 E10 E11
           [t1 A1] [t2 A2] [t3 A3] [t4 A4] [t5 A5] [t6 A6] En.
    pose proof (rand_bounds 0.85 1.15 t1). pose proof (rand_bounds 0.92 1.10 t2).
    pose proof (rand_bounds 0.92 1.08 t3). pose proof (rand_bounds 0.85 1.15 t4).
    pose proof (rand_bounds 0.02 0.07 t5). pose proof (rand_bounds 0.85 1.15 t6).
    rewrite A1, A2, A3, A4, A5, A6.
    repeat split; try assumption; lra. }
  unfold makeParticle, bind, allocParticle.
  destruct (pop (particlePool (ents s))) as [[p rest] |];
    apply Hfin; try reflexivity; try (eexists; reflexivity);
    cbn; lia.
Qed.

(** ** Every burst fills the particle array *)

Lemma explodePattern_fills kind x y hue s :
  plen (explodePattern kind x y hue s) = Z.max (plen s) (maxParticlesCap s)
  /\ perf (explodePattern kind x y hue s) = perf s.
Proof.
  destruct (explodePattern_grown kind x y hue s) as [extra [He [Ep G]]].
  split; [| exact Ep].
  pose proof (intended_ge_60 random_in_range kind s) as Hi.
  pose proof (maxParticlesCap_range s) as Hc.
  pose proof (plen_nonneg s) as Hp.
  unfold admitted in G. rewrite roomForParticles_eq in G. lia.
Qed.

Lemma room_after_pattern kind x y hue s :
  roomForParticles (explodePattern kind x y hue s) = 0%Z.
Proof.
  destruct (explodePattern_fills kind x y hue s) as [E1 E2].
  rewrite roomForParticles_eq, E1, (maxParticlesCap_perf _ _ E2). lia.
Qed.

Lemma timers_explodeBurst x y hue kind s :
  timers (explodeBurst x y hue kind s) = timers s.
Proof.
  unfold explodeBurst.
  set (u := explodePattern kind x y hue (popAndSmoke x y s)).
  assert (Eu : timers u = timers s).
  { unfold u.
    replace (timers s) with (timers (popAndSmoke x y s)) by keeps CTimers.
    keeps CTimers. }
  assert (Hroom : roomForParticles u = 0%Z) by apply room_after_pattern.
  rewrite <- Eu. clearbody u.
  unfold scheduleBreak, exec, bind, gets. cbn [fst snd]. cbv zeta.
  change (roomForParticles (snd (random u))) with (roomForParticles u).
  rewrite Hroom.
  change (24 <? 0)%Z with false. rewrite andb_false_r. reflexivity.
Qed.

(** X23. With the counts the patterns intend (at least 84 particles) and a
    particle cap of at most 50, every pattern fills the particle array up
    to its cap, whatever was live before: the live count becomes the
    larger of the cap and what it was, and no room is left.  The burst's
    test for the delayed secondary break ([roomForParticles() > 24]) comes
    after the pattern, so it never succeeds: no burst schedules a timer. *)
Theorem every_burst_fills_the_particle_array
    (kind : BurstKind) (x y hue : Q) (s : State) :
  (84 <= intended kind s)%Z
  /\ plen (explodePattern kind x y hue s) = Z.max (plen s) (maxParticlesCap s)
  /\ roomForParticles (explodePattern kind x y hue s) = 0%Z
  /\ plen (explodeBurst x y hue kind s) = Z.max (plen s) (maxParticlesCap s)
  /\ roomForParticles (explodeBurst x y hue kind s) = 0%Z
  /\ timers (explodeBurst x y hue kind s) = timers s.
Proof.
  split.
  { destruct kind; cbn [intended].
    - unfold peonyIntended.
      assert (110 <= Math_floor (fst (rand 110 160 s)))%Z; [| lia].
      apply floor_ge. apply (rand_bounds 110 160). lra.
    - unfold ringIntended.
      assert (90 <= Math_floor (fst (rand 90 130 s)))%Z; [| lia].
      apply floor_ge. apply (rand_bounds 90 130). lra.
    - unfold palmIntended, palmArmCount, palmPerArm.
      assert (6 <= Math_floor (fst (rand 6 10 s)))%Z
        by (apply floor_ge; apply (rand_bounds 6 10); lra).
      assert (14 <= Math_floor (fst (rand 14 20 (snd (rand 6 10 s)))))%Z
        by (apply floor_ge; apply (rand_bounds 14 20); lra).
      nia.
    - unfold crackleIntended.
      assert (90 <= Math_floor (fst (rand 90 140 s)))%Z; [| lia].
      apply floor_ge. apply (rand_bounds 90 140). lra. }
  split; [apply explodePattern_fills |].
  split; [apply room_after_pattern |].
  assert (Hq : agree fp_quiet s (popAndSmoke x y s)) by apply popAndSmoke_quiet.
  assert (E : plen (explodeBurst x y hue kind s) = Z.max (plen s) (maxParticlesCap s)
              /\ perf (explodeBurst x y hue kind s) = perf s).
  { unfold explodeBurst.
    set (u := explodePattern kind x y hue (popAndSmoke x y s)).
    assert (Hs : agree fp_quiet u (scheduleBreak x y hue u)) by apply scheduleBreak_quiet.
    rewrite (quiet_plen _ _ Hs), (quiet_perf _ _ Hs).
    destruct (explodePattern_fills kind x y hue (popAndSmoke x y s)) as [E1 E2].
    fold u in E1, E2.
    rewrite E1, E2, (quiet_plen _ _ Hq), (quiet_cap _ _ Hq), (quiet_perf _ _ Hq). auto. }
  destruct E as [E1 E2].
  split; [exact E1 |].
  split; [| apply timers_explodeBurst].
  rewrite roomForParticles_eq, E1, (maxParticlesCap_perf _ _ E2). lia.
Qed.

(** ** Timers *)

Lemma timers_burst x y s : timers (burst x y s) = timers s.
Proof.
  rewrite burst_guard. destruct (_ || _); [reflexivity |].
  unfold burstGenerator, exec, bind, modify. cbn [fst snd].
  rewrite timers_explodeBurst. reflexivity.
Qed.

Lemma timers_runTimer a s : timers (runTimer a s) = timers s.
Proof.
  destruct a as [fx fy | x y dx dy hue].
  - cbn [runTimer]. apply timers_burst.
  - apply timers_secondaryBreak.
Qed.

Lemma down_loop_keeps {A} (m : State -> A) body n :
  (forall i s, m (body i s) = m s) -> forall s, m (down_loop n body s) = m s.
Proof.
  intros Hb. induction n as [| n IH]; intros s; cbn [down_loop]; [reflexivity |].
  now rewrite IH, Hb.
Qed.

Lemma timers_rocketIter dt i s : timers (rocketIter dt i s) = timers s.
Proof.
  unfold rocketIter.
  destruct (rockets (ents s) !! i) as [r |]; [| reflexivity].
  cbv zeta. generalize (rocketPhysics dt r). intros r'.
  destruct (_ && _); [rewrite timers_explodeBurst; reflexivity |].
  destruct (rocketOffscreen s r'); reflexivity.
Qed.

Lemma timers_step ts s : timers (step ts s) = timers s.
Proof.
  unfold step. destruct (negb _); [reflexivity |]. cbv zeta.
  set (u := updateQuality ts _ _).
  assert (Eu : timers u = timers s) by (unfold u; keeps CTimers).
  rewrite <- Eu. generalize (stepDt ts s). intros dt. clearbody u. clear Eu.
  unfold simulate. cbv zeta.
  set (s1 := if smokeParityEnabled u then _ else u).
  assert (E1 : timers s1 = timers u).
  { unfold s1. destruct (smokeParityEnabled u); reflexivity. }
  set (s2 := if _ || _ then _ else s1).
  assert (E2 : timers s2 = timers s1).
  { unfold s2. destruct (_ || _); [| reflexivity]. keeps CTimers. }
  set (s3 := down_loop _ (rocketIter dt) s2).
  assert (E3 : timers s3 = timers s2)
    by (apply (down_loop_keeps timers); intros; apply timers_rocketIter).
  set (s4 := down_loop _ (particleIter dt) s3).
  assert (E4 : timers s4 = timers s3) by (unfold s4; keeps CTimers).
  match goal with
  | |- timers ?t = _ => assert (E5 : timers t = timers s4) by reflexivity
  end.
  congruence.
Qed.

(** The callbacks [start] schedules. *)
Definition isCelebration (t : Timer) : bool :=
  match action t with
  | CelebrateBurst _ _ => true
  | SecondaryBreak _ _ _ _ _ => false
  end.

Definition only_celebrations (s : State) : Prop :=
  forallb isCelebration (timers s) = true.

Lemma forallb_delete {A} (f : A -> bool) i (l : list A) :
  forallb f l = true -> forallb f (delete i l) = true.
Proof.
  revert i. induction l as [| a l IH]; intros i H; [destruct i; exact H |].
  cbn [forallb] in H. apply andb_true_iff in H as [Ha Hl].
  destruct i; cbn; [exact Hl |].
  rewrite Ha. cbn. apply IH, Hl.
Qed.

Lemma timers_handle e s :
  timers (handle e s) = timers s
  \/ timers (handle e s) = timers s ++ celebration
  \/ exists i, timers (handle e s) = delete i (timers s).
Proof.
  assert (Ki : timers (initOnce s) = timers s) by keeps CTimers.
  destruct e; cbn [handle]; unfold listening.
  - rewrite timers_start, Ki.
    destruct (match celebrate with Some b => b | None => true end); auto.
  - left. rewrite timers_stop. exact Ki.
  - left. rewrite timers_pause. exact Ki.
  - left. rewrite <- Ki. keeps CTimers.
  - left. rewrite <- Ki. keeps CTimers.
  - left. rewrite timers_burst. exact Ki.
  - left. rewrite <- Ki. keeps CTimers.
  - left. cbv zeta.
    set (s1 := match stepRafId (loop s) with Some _ => step ts s | None => s end).
    assert (E1 : timers s1 = timers s)
      by (unfold s1; destruct (stepRafId _); [apply timers_step | reflexivity]).
    rewrite <- E1. destruct (launchRafId _); [| reflexivity]. keeps CTimers.
  - destruct (timers s !! i); [| now left].
    right. right. exists i. rewrite timers_runTimer. reflexivity.
  - left. destruct (inited _); [| reflexivity]. keeps CTimers.
  - left. destruct (inited _); [| reflexivity]. keeps CTimers.
  - left. destruct (inited _); [| reflexivity].
    destruct hidden; [apply timers_pause | keeps CTimers].
  - left. destruct (inited _); [| reflexivity]. apply timers_pause.
  - left. destruct (inited _); [| reflexivity].
    destruct hidden; [reflexivity | keeps CTimers].
  - left. destruct (inited _); [| reflexivity]. apply timers_pause.
  - left. destruct (inited _); [| reflexivity].
    destruct hidden; [reflexivity | keeps CTimers].
  - left. reflexivity.
Qed.

Lemma only_celebrations_handle e s :
  only_celebrations s -> only_celebrations (handle e s).
Proof.
  unfold only_celebrations. intros H.
  destruct (timers_handle e s) as [-> | [-> | [i ->]]].
  - exact H.
  - rewrite forallb_app, H. reflexivity.
  - apply forallb_delete, H.
Qed.

Lemma only_celebrations_run es : forall s,
  only_celebrations s -> only_celebrations (run es s).
Proof.
  induction es as [| e es IH]; intros s H; [exact H |].
  apply IH, only_celebrations_handle, H.
Qed.

(** X24. The delayed secondary break never happens.  No burst schedules
    it, so in every reachable state the pending timers are celebration
    bursts handed over by [start] and nothing else; delivering a pending
    timer removes it from the list and adds none, and the list only grows
    by the three celebration bursts of a [start]. *)
Theorem secondary_break_is_never_scheduled (hst : Host) (es : list Event) (e : Event) :
  let s := run es (init hst) in
  forallb isCelebration (timers s) = true
  /\ (forall x y, timers (burst x y s) = timers s)
  /\ (forall ts, timers (step ts s) = timers s)
  /\ (forall i t, timers s !! i = Some t ->
                  timers (handle (TimerFires i) s) = delete i (timers s))
  /\ (forall i, timers s !! i = None -> handle (TimerFires i) s = s)
  /\ (timers (handle e s) = timers s
      \/ timers (handle e s) = timers s ++ celebration
      \/ exists i, timers (handle e s) = delete i (timers s)).
Proof.
  cbv zeta.
  split; [apply only_celebrations_run; reflexivity |].
  split; [intros x y; apply timers_burst |].
  split; [intros ts; apply timers_step |].
  split.
  { intros i t E. cbn [handle]. rewrite E, timers_runTimer. reflexivity. }
  split.
  { intros i E. cbn [handle]. now rewrite E. }
  apply timers_handle.
Qed.

(** ** Launch pacing, for any width and quality *)

Lemma drawnInterval_bounds s :
  quality_ok s ->
  launchBase s <= drawnInterval s < 2 * launchBase s / 0.901.
Proof.
  intros Hq. destruct (random_in_range (rpos s)) as [Hr0 Hr1].
  assert (Hf : 0.901 <= launchQualityFactor s <= 1)
    by (unfold quality_ok, launchQualityFactor, lerp, MIN_QUALITY, MAX_QUALITY in *; lra).
  assert (Hb : 1050 <= launchBase s)
    by (unfold launchBase, AUTO_BASE_MOBILE, AUTO_BASE_DESKTOP; destruct (Qltb _ _); lra).
  unfold drawnInterval. cbv zeta.
  set (b := launchBase s) in *. set (f := launchQualityFactor s) in *.
  assert (Hlo : b <= b / f) by (apply Qle_shift_div_l; nra).
  assert (Hhi : b / f <= b / 0.901).
  { apply Qle_shift_div_r; [lra |].
    assert (E : b / 0.901 * f == b * (f / 0.901)) by (field; lra).
    rewrite E.
    assert (1 <= f / 0.901) by (apply Qle_shift_div_l; lra). nra. }
  assert (E : 2 * b / 0.901 == 2 * (b / 0.901)) by (field; lra).
  rewrite E. split; nra.
Qed.

(** X25. Launch pacing for any surface and any quality the governor can
    produce.  The base interval is 1600 ms on a surface under 600 px wide
    and 1050 ms otherwise; an [autoLaunch] frame draws its interval between
    that base and twice the base over 0.901 (the launch factor at the
    lowest quality).  So a frame no more than the base after the last
    launch launches nothing -- it leaves the entities alone -- and a frame
    at least [2 * base / 0.901] after it (about 3552 ms on a narrow surface,
    2331 ms on a wide one) always restarts the interval at its timestamp. *)
Theorem auto_launch_interval_for_any_width_and_quality (ts : Q) (s : State) :
  quality_ok s -> running (loop s) = true ->
  launchBase s = (if Qltb (w (view s)) 600 then 1600 else 1050)
  /\ launchBase s <= drawnInterval s < 2 * launchBase s / 0.901
  /\ (ts - lastLaunch (loop s) <= launchBase s ->
      ents (autoLaunch ts s) = ents s
      /\ lastLaunch (loop (autoLaunch ts s)) = lastLaunch (loop s))
  /\ (2 * launchBase s / 0.901 <= ts - lastLaunch (loop s) ->
      lastLaunch (loop (autoLaunch ts s)) = ts).
Proof.
  intros Hq Hr.
  destruct (drawnInterval_bounds s Hq) as [Hlo Hhi].
  split; [reflexivity |]. split; [split; assumption |].
  split.
  - intros H.
    assert (Hn : launches ts s = false) by (unfold launches; apply Qltb_ge; lra).
    rewrite (autoLaunch_running ts s Hr), Hn. split; reflexivity.
  - intros H.
    assert (Hy : launches ts s = true) by (unfold launches; apply Qltb_lt; lra).
    rewrite (autoLaunch_running ts s Hr), Hy.
    exact (proj1 (launchNow_spec ts (set_rpos S s))).
Qed.

(** ** Crackling *)

(** X26. A crackling particle whose timer has run out spawns micro-sparks
    only while more than 6 particle slots are free, and then at most two of
    them (one or two at full quality): the live count grows by at most 2
    and stays within the cap; with 6 slots or fewer free, or with time left
    on the timer, nothing is spawned and no random number is drawn. *)
Theorem crackle_spawns_at_most_two_micro_sparks (dt : Q) (p : Particle.t) (s : State) :
  quality_ok s ->
  let s' := snd (crackle dt p s) in
  (plen s <= plen s' <= plen s + 2)%Z
  /\ ((plen s <= maxParticlesCap s)%Z -> (plen s' <= maxParticlesCap s)%Z)
  /\ (0 < Particle.crackleTimer p - dt \/ (roomForParticles s <= 6)%Z -> s' = s)
  /\ (Particle.crackleTimer p - dt <= 0 -> (6 < roomForParticles s)%Z ->
      0.02 <= Particle.crackleTimer (fst (crackle dt p s)) < 0.07
      /\ (quality (perf s) == 1 -> (plen s + 1 <= plen s')%Z)).
Proof.
  intros Hq. cbv zeta.
  unfold crackle, bind, gets, modify, ret. cbn [fst snd]. cbv zeta.
  cbn [Particle.crackleTimer Particle.set_crackleTimer].
  destruct (Qle_bool (Particle.crackleTimer p - dt) 0) eqn:E1;
    destruct (6 <? roomForParticles s)%Z eqn:E2; cbn [andb fst snd].
  2,3,4: (split; [lia |]; split; [lia |]; split; [intros _; reflexivity |];
          intros H1 H2; exfalso;
          first [ apply Qle_bool_iff in H1; congruence
                | apply Z.ltb_ge in E2; lia ]).
  set (r1 := rand 0.02 0.07 s).
  set (r2 := rand 1 3 (snd r1)).
  set (n := Math_floor (fst r2 * lerp 0.55 1.0 (quality (perf (snd r1))))).
  assert (Hperf : perf (snd r1) = perf s) by reflexivity.
  assert (Hc : 1 <= fst r2 < 3) by (apply rand_bounds; lra).
  assert (Hl : 0.7975 <= lerp 0.55 1.0 (quality (perf (snd r1))) <= 1).
  { rewrite Hperf. unfold quality_ok, MIN_QUALITY, MAX_QUALITY in Hq. unfold lerp. lra. }
  assert (Hn : (0 <= n < 3)%Z).
  { unfold n, Math_floor. apply Qfloor_between;
      change (inject_Z 0) with 0; change (inject_Z 3) with 3; nra. }
  assert (G : grown (Z.of_nat (Z.to_nat n)) (snd r2)
                (for_loop (Z.to_nat n)
                   (fun _ => crackleMicro
                               (Particle.set_crackleTimer (fst r1)
                                  (Particle.set_crackleTimer
                                     (Particle.crackleTimer p - dt) p)))
                   (snd r2))).
  { apply grown_for_loop. intros i. apply adds_one_crackleMicro. }
  destruct G as [Gp Gl].
  assert (Eplen : plen (snd r2) = plen s) by reflexivity.
  assert (Ecap : maxParticlesCap (snd r2) = maxParticlesCap s) by reflexivity.
  rewrite Eplen, Ecap in Gl. rewrite Z2Nat.id in Gl by lia.
  apply Z.ltb_lt in E2. rewrite roomForParticles_eq in E2.
  split; [lia |]. split; [lia |].
  split.
  { intros [H | H]; [| rewrite roomForParticles_eq in H; lia].
    apply Qle_bool_iff in E1. lra. }
  intros _ _. split; [apply rand_bounds; lra |].
  intros Hq1.
  assert (Hn1 : (1 <= n)%Z).
  { unfold n, Math_floor. rewrite <- (Qfloor_Z 1). apply Qfloor_resp_le.
    rewrite Hperf. unfold lerp. rewrite Hq1. change (inject_Z 1) with 1. lra. }
  lia.
Qed.

(** ** The second pass of the peony and of the ring *)

Lemma first_pass_fills body c lo s0 :
  (forall i, adds_one (body i)) ->
  (0 < roomForParticles s0)%Z -> (50 <= lo)%Z -> (lo <= Math_floor c)%Z ->
  roomForParticles
    (for_loop (Z.to_nat (Z.min (Math_floor c) (roomForParticles s0))) body s0) = 0%Z.
Proof.
  intros Hb Hr Hlo Hc.
  pose proof (maxParticlesCap_range s0) as Hcap. pose proof (plen_nonneg s0) as Hp.
  destruct (grown_for_loop body
              (Z.to_nat (Z.min (Math_floor c) (roomForParticles s0))) s0 Hb) as [Ep El].
  set (s1 := for_loop _ body s0) in *.
  rewrite (roomForParticles_eq s1), (maxParticlesCap_perf _ _ Ep), El.
  rewrite roomForParticles_eq in *. lia.
Qed.

(** X27. With a particle cap of at most 50, the first pass of a peony (110
    to 159 sparks intended) or of a ring (90 to 129) always uses up all the
    room there is, so the second pass -- the peony's glitter, the ring's
    core sparkle -- never makes a particle: the pattern is its first pass
    followed by the one draw of the second pass's count. *)
Theorem peony_glitter_and_ring_core_never_spawn (x y hue : Q) (s : State) :
  (0 < roomForParticles s)%Z ->
  explodePeony x y hue s
  = exec (c <- rand 110 160 ;;
          modify (for_loop (Z.to_nat (Z.min (Math_floor c) (roomForParticles s)))
                           (fun _ => peonySpark x y hue)) ;;;
          _ <- rand 26 52 ;;
          ret tt) s
  /\ explodeRing x y hue s
     = exec (c <- rand 90 130 ;;
             let count := Z.min (Math_floor c) (roomForParticles s) in
             jitter <- rand 0.08 0.18 ;;
             modify (for_loop (Z.to_nat count) (ringSpark x y hue count jitter)) ;;;
             _ <- rand 18 34 ;;
             ret tt) s.
Proof.
  intros Hr.
  assert (E : (roomForParticles s <=? 0)%Z = false) by (apply Z.leb_gt; exact Hr).
  split.
  - unfold explodePeony. cbv zeta. rewrite E.
    unfold exec, bind, modify, gets, ret. cbn [fst snd].
    set (r1 := rand 110 160 s).
    assert (Hc : (110 <= Math_floor (fst r1))%Z)
      by (apply floor_ge; apply (rand_bounds 110 160); lra).
    change (roomForParticles s) with (roomForParticles (snd r1)) in Hr |- *.
    rewrite (first_pass_fills (fun _ => peonySpark x y hue) (fst r1) 110 (snd r1));
      [| intros i; apply adds_one_peonySpark | exact Hr | lia | exact Hc].
    match goal with
    | |- context [Math_floor (fst (rand 26 52 ?t))] =>
        assert (Hg : (26 <= Math_floor (fst (rand 26 52 t)))%Z)
          by (apply floor_ge; apply (rand_bounds 26 52); lra);
        replace (Z.min (Math_floor (fst (rand 26 52 t))) 0) with 0%Z by lia
    end.
    reflexivity.
  - unfold explodeRing. cbv zeta. rewrite E.
    unfold exec, bind, modify, gets, ret. cbn [fst snd].
    set (r1 := rand 90 130 s).
    assert (Hc : (90 <= Math_floor (fst r1))%Z)
      by (apply floor_ge; apply (rand_bounds 90 130); lra).
    set (r2 := rand 0.08 0.18 (snd r1)).
    change (roomForParticles s) with (roomForParticles (snd r2)) in Hr |- *.
    rewrite (first_pass_fills
               (ringSpark x y hue (Z.min (Math_floor (fst r1)) (roomForParticles (snd r2)))
                          (fst r2))
               (fst r1) 90 (snd r2));
      [| intros i; apply adds_one_ringSpark | exact Hr | lia | exact Hc].
    match goal with
    | |- context [Math_floor (fst (rand 18 34 ?t))] =>
        assert (Hg : (18 <= Math_floor (fst (rand 18 34 t)))%Z)
          by (apply floor_ge; apply (rand_bounds 18 34); lra);
        replace (Z.min (Math_floor (fst (rand 18 34 t))) 0) with 0%Z by lia
    end.
    reflexivity.
Qed.

(** ** Clicks *)

Lemma spawnRocket_at v s :
  rockets (ents (spawnRocket (Some v) s)) = rockets (ents s)
  \/ exists r, rockets (ents (spawnRocket (Some v) s)) = push (rockets (ents s)) r
               /\ Rocket.x r = v.
Proof.
  unfold spawnRocket.
  destruct (len (rockets (ents s)) >=? maxRocketsCap s)%Z; [now left |].
  destruct (_ || _); [now left |]. right.
  unfold exec, bind, allocRocket.
  destruct (pop _) as [[p r] |]; eexists; split; reflexivity.
Qed.

Lemma onClick_accepted cx rl s :
  running (loop s) = true -> ignoreClicksUntil (loop s) <= now (host s) ->
  exists (b : bool) (o : Q),
    - 40 <= o < 40
    /\ onClick cx rl s
       = if b then spawnRocket (Some (cx - rl + o))
                     (set_rpos (fun n => S (S n)) (spawnRocket (Some (cx - rl)) s))
         else set_rpos S (spawnRocket (Some (cx - rl)) s).
Proof.
  intros Hr Ht. unfold onClick, nowMs. rewrite Hr. cbn [negb].
  apply Qltb_ge in Ht. rewrite Ht. cbv zeta.
  rewrite exec_bind. change (snd (modify ?f ?t)) with (f t).
  rewrite exec_bind. cbn [gets fst snd]. cbv zeta.
  rewrite exec_bind. cbn [random fst snd].
  set (s1 := spawnRocket (Some (cx - rl)) s).
  destruct (Qltb (Math_random (rpos s1)) _); [exists true | exists false];
    exists (fst (rand (-40) 40 (set_rpos S s1)));
    (split; [apply rand_bounds; lra | reflexivity]).
Qed.

(** X28. A click on the hero, once the simulation runs and the bleed
    window is over, launches a rocket from the click's horizontal position
    (relative to the hero) whenever the rocket cap and the surface allow
    one; a second, buddy rocket may follow, within 40 px of the click. *)
Theorem a_click_launches_a_rocket_at_the_click_position (cx rl : Q) (s : State) :
  inited (loop s) = true -> running (loop s) = true ->
  ignoreClicksUntil (loop s) <= now (host s) ->
  (len (rockets (ents s)) < maxRocketsCap s)%Z ->
  10 <= w (view s) -> 10 <= h (view s) ->
  let n := length (rockets (ents s)) in
  let launched := rockets (ents (handle (Click cx rl) s)) in
  (exists r, launched !! n = Some r
             /\ Rocket.x r = cx - rl /\ Rocket.y r = h (view s) + 10)
  /\ (forall i r, (i < n)%nat -> rockets (ents s) !! i = Some r -> launched !! i = Some r)
  /\ (forall r2, launched !! S n = Some r2 ->
        cx - rl - 40 <= Rocket.x r2 < cx - rl + 40)
  /\ (n < length launched <= n + 2)%nat.
Proof.
  intros Hi Hr Ht Hc Hw Hh. cbv zeta. cbn [handle]. unfold listening. rewrite Hi.
  destruct (onClick_accepted cx rl s Hr Ht) as [b [o [Ho ->]]].
  destruct (spawnRocket_accepted (Some (cx - rl)) s Hc Hw Hh)
    as [r [E1 [Ey [_ [_ [Ex _]]]]]].
  set (s1 := spawnRocket (Some (cx - rl)) s) in *.
  assert (Hlook : push (rockets (ents s)) r !! length (rockets (ents s)) = Some r)
    by (unfold push; apply list_lookup_middle; reflexivity).
  assert (Hold : forall i q, rockets (ents s) !! i = Some q ->
                             push (rockets (ents s)) r !! i = Some q)
    by (intros i q E; unfold push; apply lookup_app_l_Some, E).
  destruct b.
  - destruct (spawnRocket_at (cx - rl + o) (set_rpos (fun n => S (S n)) s1))
      as [E2 | [r2 [E2 Ex2]]]; rewrite E2; cbn [ents set_rpos]; rewrite E1.
    + split; [exists r; auto |].
      split; [intros i q _; apply Hold |].
      split.
      { intros q Hq. apply lookup_lt_Some in Hq.
        unfold push in Hq. rewrite length_app in Hq. cbn [length] in Hq. lia. }
      unfold push. rewrite length_app. cbn [length]. lia.
    + split.
      { exists r. split; [| auto]. unfold push at 1. apply lookup_app_l_Some, Hlook. }
      split.
      { intros i q _ E. unfold push at 1. apply lookup_app_l_Some, Hold, E. }
      split.
      { intros q Hq.
        assert (Eq : push (push (rockets (ents s)) r) r2
                       !! S (length (rockets (ents s))) = Some r2).
        { unfold push at 1. apply list_lookup_middle.
          unfold push. rewrite length_app. cbn [length]. lia. }
        rewrite Eq in Hq. injection Hq as <-. rewrite Ex2. lra. }
      unfold push. rewrite !length_app. cbn [length]. lia.
  - cbn [ents set_rpos]. rewrite E1.
    split; [exists r; auto |].
    split; [intros i q _; apply Hold |].
    split.
    { intros q Hq. apply lookup_lt_Some in Hq.
      unfold push in Hq. rewrite length_app in Hq. cbn [length] in Hq. lia. }
    unfold push. rewrite length_app. cbn [length]. lia.
Qed.

(** ** Every live particle and smoke puff has life left *)

Definition particle_alive (p : Particle.t) : Prop :=
  0 < Particle.life p /\ Particle.life p <= Particle.maxLife p.

Definition smoke_alive (q : Smoke.t) : Prop :=
  0 < Smoke.life q /\ Smoke.life q <= Smoke.maxLife q.

Definition lives (e : Ents) : Prop :=
  Forall particle_alive (particles e) /\ Forall smoke_alive (smokePuffs e).

(** Functions that touch neither the live particles nor the live puffs. *)
Definition fp_nolive : Footprint :=
  fp [CHost; CPerf; CView; CLoop; CRockets; CRocketPool; CParticlePool; CSmokePool;
      CSfx; CTimers; CRpos].

Lemma lives_agree s s' : agree fp_nolive s s' -> lives (ents s) -> lives (ents s').
Proof.
  intros [H _] [H1 H2]. unfold lives.
  rewrite (H CParticles eq_refl : particles (ents s') = _).
  rewrite (H CSmokePuffs eq_refl : smokePuffs (ents s') = _). auto.
Qed.

Lemma triple_nolive f : within fp_nolive f -> triple lives f lives.
Proof. intros H s Hs. exact (lives_agree _ _ (H s) Hs). Qed.

Lemma tripleM_nolive {A} (m : M A) : withinM fp_nolive m -> tripleM lives m lives.
Proof. intros H s Hs. exact (lives_agree _ _ (H s) Hs). Qed.

(** Triples whose postcondition speaks about the result. *)
Definition hoare {A} (P : State -> Prop) (m : M A) (Q : A -> State -> Prop) : Prop :=
  forall s, P s -> Q (fst (m s)) (snd (m s)).

Definition live (s : State) : Prop := lives (ents s).

Lemma hoare_bind {A B} P (R : A -> State -> Prop) (Q : B -> State -> Prop)
      (m : M A) (k : A -> M B) :
  hoare P m R -> (forall a, hoare (R a) (k a) Q) -> hoare P (bind m k) Q.
Proof. intros Hm Hk s Hs. unfold bind. cbv zeta. apply Hk, Hm, Hs. Qed.

Lemma hoare_pure {A} (phi : Prop) P (m : M A) Q :
  (phi -> hoare P m Q) -> hoare (fun s => P s /\ phi) m Q.
Proof. intros H s [Hs Hp]. apply H; assumption. Qed.

Lemma hoare_rand a b :
  hoare live (rand a b) (fun v s => live s /\ (a < b -> a <= v < b)).
Proof. intros s H. split; [exact H | intros Hab; apply rand_bounds, Hab]. Qed.

Lemma hoare_random : hoare live random (fun v s => live s /\ True).
Proof. intros s H. split; [exact H | exact I]. Qed.

Lemma hoare_makeParticle x y vx vy life size hue kind :
  hoare live (makeParticle x y vx vy life size hue kind)
        (fun p s => live s /\ (Particle.life p = life /\ Particle.maxLife p = life)).
Proof.
  intros s H. split; [| apply makeParticle_life].
  apply (tripleM_nolive (makeParticle x y vx vy life size hue kind)); [frame | exact H].
Qed.

Lemma pushParticle_lives p :
  particle_alive p -> triple lives (pushParticle p) lives.
Proof.
  intros Hp s [H1 H2]. unfold pushParticle, lives.
  destruct (len (particles (ents s)) >=? maxParticlesCap s)%Z; ents_cbn.
  - auto.
  - split; [| exact H2]. unfold push. apply Forall_app. auto.
Qed.

Lemma hoare_push p :
  particle_alive p -> hoare live (modify (pushParticle p)) (fun _ s => live s).
Proof. intros Hp s H. apply (pushParticle_lives p Hp), H. Qed.

Lemma hoare_exec (m : M unit) :
  hoare live m (fun _ s => live s) -> triple lives (exec m) lives.
Proof. intros H s Hs. apply H, Hs. Qed.

(** Use or drop what is known of the draws. *)
Ltac use_draws :=
  repeat match goal with
         | H : ?a < ?b -> _ |- _ =>
             first [ specialize (H ltac:(lra)) | clear H ]
         | H : True |- _ => clear H
         end.

Ltac lives_spark :=
  apply hoare_exec;
  repeat (cbv beta zeta;
          lazymatch goal with
          | |- hoare _ (bind (rand _ _) _) _ =>
              eapply hoare_bind; [ apply hoare_rand | intro; apply hoare_pure; intro ]
          | |- hoare _ (bind random _) _ =>
              eapply hoare_bind; [ apply hoare_random | intro; apply hoare_pure; intro ]
          | |- hoare _ (bind (makeParticle _ _ _ _ _ _ _ _) _) _ =>
              eapply hoare_bind;
              [ apply hoare_makeParticle
              | intro; apply hoare_pure; intros [? ?] ]
          | |- hoare _ (modify (pushParticle _)) _ =>
              apply hoare_push; unfold particle_alive;
              cbn [Particle.life Particle.maxLife Particle.set_crackleTimer];
              use_draws
          end).

Ltac spark_alive :=
  lives_spark;
  match goal with
  | E1 : Particle.life _ = _, E2 : Particle.maxLife _ = _ |- _ => rewrite E1, E2
  end.

Lemma peonySpark_lives x y hue : triple lives (peonySpark x y hue) lives.
Proof. unfold peonySpark. spark_alive. lra. Qed.

Lemma peonyGlitter_lives x y hue : triple lives (peonyGlitter x y hue) lives.
Proof. unfold peonyGlitter. spark_alive. lra. Qed.

Lemma ringSpark_lives x y hue count jitter i :
  triple lives (ringSpark x y hue count jitter i) lives.
Proof. unfold ringSpark. spark_alive. lra. Qed.

Lemma ringCore_lives x y hue : triple lives (ringCore x y hue) lives.
Proof. unfold ringCore. spark_alive. lra. Qed.

Lemma crackleSpark_lives x y hue : triple lives (crackleSpark x y hue) lives.
Proof. unfold crackleSpark. spark_alive. lra. Qed.

Lemma crackleMicro_lives p : triple lives (crackleMicro p) lives.
Proof. unfold crackleMicro. spark_alive. lra. Qed.

(** A palm spark lives [k * 10] frames longer, [k = i / perArm]. *)
Lemma palmSpark_lives x y armAng armHue perArm i :
  (0 < perArm)%Z -> triple lives (palmSpark x y armAng armHue perArm i) lives.
Proof.
  intros Hp. unfold palmSpark. spark_alive.
  assert (0 <= inject_Z (Z.of_nat i) / inject_Z perArm).
  { apply Qle_shift_div_l.
    - change 0 with (inject_Z 0). rewrite <- Zlt_Qlt. exact Hp.
    - rewrite Qmult_0_l. change 0 with (inject_Z 0). rewrite <- Zle_Qle. lia. }
  lra.
Qed.

Lemma explodePeony_lives x y hue : triple lives (explodePeony x y hue) lives.
Proof.
  intros s H. unfold explodePeony. cbv zeta.
  destruct (roomForParticles s <=? 0)%Z; [exact H |].
  generalize (roomForParticles s). intros room.
  revert s H. apply triple_exec. census_loops.
  - apply peonySpark_lives.
  - apply peonyGlitter_lives.
Qed.

Lemma explodeRing_lives x y hue : triple lives (explodeRing x y hue) lives.
Proof.
  intros s H. unfold explodeRing. cbv zeta.
  destruct (roomForParticles s <=? 0)%Z; [exact H |].
  generalize (roomForParticles s). intros room.
  revert s H. apply triple_exec. census_loops.
  - apply ringSpark_lives.
  - apply ringCore_lives.
Qed.

Lemma explodeCrackle_lives x y hue : triple lives (explodeCrackle x y hue) lives.
Proof.
  intros s H. unfold explodeCrackle. cbv zeta.
  destruct (roomForParticles s <=? 0)%Z; [exact H |].
  generalize (roomForParticles s). intros room.
  revert s H. apply triple_exec. census_loops.
  apply crackleSpark_lives.
Qed.

Lemma palmArm_lives n : forall i x y armAng armHue perArm total made s,
  (0 < perArm)%Z ->
  lives (ents s) ->
  lives (ents (snd (palmArm n i x y armAng armHue perArm total made s))).
Proof.
  induction n as [| n IH]; intros i x y armAng armHue perArm total made s Hp H;
    cbn [palmArm]; [exact H |].
  destruct (made <? total)%Z; [| exact H].
  apply IH; [exact Hp |]. apply palmSpark_lives; assumption.
Qed.

Lemma palmArms_lives n : forall x y hue perArm total made s,
  (0 < perArm)%Z ->
  lives (ents s) ->
  lives (ents (snd (palmArms n x y hue perArm total made s))).
Proof.
  induction n as [| n IH]; intros x y hue perArm total made s Hp H;
    cbn [palmArms]; [exact H |].
  destruct (made <? total)%Z; [| exact H].
  cbv zeta. apply IH; [exact Hp |]. apply palmArm_lives; [exact Hp | exact H].
Qed.

Lemma explodePalm_lives x y hue : triple lives (explodePalm x y hue) lives.
Proof.
  intros s H. unfold explodePalm. cbv zeta.
  destruct (roomForParticles s <=? 0)%Z; [exact H |].
  unfold exec, bind, modify. cbn [fst snd].
  apply palmArms_lives; [lia | exact H].
Qed.

Lemma explodePattern_lives kind x y hue :
  triple lives (explodePattern kind x y hue) lives.
Proof.
  destruct kind; cbn [explodePattern].
  - apply explodePeony_lives.
  - apply explodeRing_lives.
  - apply explodePalm_lives.
  - apply explodeCrackle_lives.
Qed.

(** [spawnSmoke] changes nothing, or appends a puff with its whole life left. *)
Lemma spawnSmoke_puff x y s :
  ents (spawnSmoke x y s) = ents s
  \/ exists p,
       smokePuffs (ents (spawnSmoke x y s)) = push (smokePuffs (ents s)) p
       /\ particles (ents (spawnSmoke x y s)) = particles (ents s)
       /\ smoke_alive p.
Proof.
  unfold spawnSmoke.
  destruct (negb _); [now left |].
  destruct (len (smokePuffs (ents s)) >=? maxSmokeCap s)%Z; [now left |].
  right. unfold exec, bind, allocSmoke.
  assert (Hfin : forall p : Smoke.t,
             (exists t, Smoke.life p = fst (rand 50 80 t)) ->
             Smoke.maxLife p = Smoke.life p -> smoke_alive p).
  { intros p [t E] Em. pose proof (rand_bounds 50 80 t ltac:(lra)).
    unfold smoke_alive. rewrite Em, E. lra. }
  destruct (pop (smokePool (ents s))) as [[p rest] |];
    (eexists; split; [reflexivity |]; split; [reflexivity |]);
    apply Hfin; try reflexivity; eexists; reflexivity.
Qed.

Lemma spawnSmoke_lives x y : triple lives (spawnSmoke x y) lives.
Proof.
  intros s [H1 H2].
  destruct (spawnSmoke_puff x y s) as [-> | [p [E1 [E2 Hp]]]]; [split; assumption |].
  unfold lives. rewrite E1, E2. split; [exact H1 |].
  unfold push. apply Forall_app. auto.
Qed.

Lemma popAndSmoke_lives x y : triple lives (popAndSmoke x y) lives.
Proof.
  unfold popAndSmoke. apply triple_exec.
  eapply tripleM_bind; [apply tripleM_modify, triple_quiet; frame | intros _].
  eapply tripleM_bind; [apply tripleM_gets | intros q].
  eapply tripleM_bind; [apply tripleM_quiet; frame | intros r].
  cbv zeta. apply tripleM_when, tripleM_modify, spawnSmoke_lives.
Qed.

Lemma explodeBurst_lives x y hue kind :
  triple lives (explodeBurst x y hue kind) lives.
Proof.
  intros s H. unfold explodeBurst.
  apply (triple_quiet lives (scheduleBreak x y hue)); [frame |].
  apply explodePattern_lives, popAndSmoke_lives, H.
Qed.

Lemma burst_lives x y : triple lives (burst x y) lives.
Proof.
  intros s H. rewrite burst_guard.
  destruct (_ || _); [exact H |].
  generalize (orDefault x (w (view s) * 0.5)), (orDefault y (h (view s) * 0.6)).
  intros x' y'. revert s H. unfold burstGenerator. apply triple_exec.
  eapply tripleM_bind; [apply tripleM_quiet; frame | intros hue].
  eapply tripleM_bind; [apply tripleM_quiet; frame | intros kind].
  apply tripleM_modify, explodeBurst_lives.
Qed.

Lemma runTimer_lives a : triple lives (runTimer a) lives.
Proof.
  intros s H. destruct a as [fx fy | x y dx dy hue]; cbn [runTimer].
  - apply burst_lives, H.
  - destruct (negb _); [exact H |].
    revert s H. apply triple_exec.
    eapply tripleM_bind; [apply tripleM_quiet; frame | intros j].
    eapply tripleM_bind; [apply tripleM_modify, explodePeony_lives | intros _].
    eapply tripleM_bind; [apply tripleM_quiet; frame | intros r].
    eapply tripleM_bind; [apply tripleM_gets | intros q].
    apply tripleM_when, tripleM_modify, spawnSmoke_lives.
Qed.

(** *** The frame loops keep the living and retire the dead *)

Lemma Qle_bool_gt (a b : Q) : Qle_bool a b = false -> b < a.
Proof.
  intros H. destruct (Qlt_le_dec b a) as [L | L]; [exact L |].
  apply Qle_bool_iff in L. rewrite L in H. discriminate H.
Qed.

Lemma Forall_splice1 {A} (P : A -> Prop) i (l : list A) :
  Forall P l -> Forall P (splice1 i l).
Proof.
  intros H. unfold splice1. apply Forall_delete, H.
Qed.

Lemma Forall_set {A} (P : A -> Prop) i x (l : list A) :
  P x -> Forall P l -> Forall P (<[i := x]> l).
Proof. intros Hx H. apply Forall_insert; assumption. Qed.

Lemma smokeIter_lives dt i : 0 <= dt -> triple lives (smokeIter dt i) lives.
Proof.
  intros Hdt s [H1 H2]. unfold smokeIter.
  destruct (smokePuffs (ents s) !! i) as [p |] eqn:E; [| split; assumption].
  cbv zeta.
  assert (Hp : smoke_alive p)
    by exact (Forall_lookup_1 _ _ _ _ H2 E).
  destruct (smokeGone s (smokePhysics dt s p)) eqn:G; unfold lives; ents_cbn.
  - split; [exact H1 | apply Forall_splice1, H2].
  - split; [exact H1 |]. apply Forall_set; [| exact H2].
    unfold smokeGone in G.
    repeat (apply orb_false_elim in G; destruct G as [G _]).
    unfold smokePhysics in *. cbn [Smoke.life Smoke.maxLife Smoke.set_life
      Smoke.set_x Smoke.set_y] in *.
    destruct Hp as [Hp1 Hp2]. unfold smoke_alive.
    cbn [Smoke.life Smoke.maxLife Smoke.set_life Smoke.set_x Smoke.set_y].
    apply Qle_bool_gt in G. lra.
Qed.

Lemma rocketIter_lives dt i : triple lives (rocketIter dt i) lives.
Proof.
  intros s H. unfold rocketIter.
  destruct (rockets (ents s) !! i) as [r |] eqn:E; [| exact H].
  cbv zeta. generalize (rocketPhysics dt r). intros r'.
  destruct (_ && _).
  - apply explodeBurst_lives. exact H.
  - destruct (rocketOffscreen s r'); exact H.
Qed.

Lemma crackle_lives dt p : tripleM lives (crackle dt p) lives.
Proof.
  unfold crackle. cbv zeta.
  eapply tripleM_bind; [apply tripleM_gets | intros room].
  destruct (_ && _); [| apply tripleM_ret].
  census_loops. apply crackleMicro_lives.
Qed.

(** The crackle branch touches the parent's crackle timer only. *)
Lemma crackle_parent dt p s :
  Particle.life (fst (crackle dt p s)) = Particle.life p
  /\ Particle.maxLife (fst (crackle dt p s)) = Particle.maxLife p.
Proof.
  unfold crackle, bind, gets, ret. cbn [fst snd].
  destruct (_ && _); cbn [fst snd]; split; reflexivity.
Qed.

Lemma maxLife_drawParticle p :
  Particle.maxLife (drawParticle p) = Particle.maxLife p.
Proof.
  unfold drawParticle. cbv zeta.
  destruct (Qle_bool _ 0); [reflexivity |].
  destruct (Qle_bool _ 0.01); reflexivity.
Qed.

Lemma particleAge_life dt p :
  Particle.life (particleAge dt p) = Particle.life p - 60 * dt
  /\ Particle.maxLife (particleAge dt p) = Particle.maxLife p.
Proof.
  unfold particleAge. cbv zeta.
  rewrite life_drawParticle, maxLife_drawParticle.
  destruct (Particle.kind p); split; reflexivity.
Qed.

Lemma particleIter_lives dt i : 0 <= dt -> triple lives (particleIter dt i) lives.
Proof.
  intros Hdt s H. unfold particleIter.
  destruct (particles (ents s) !! i) as [p |] eqn:E; [| exact H].
  cbv zeta.
  assert (Hp : particle_alive p).
  { destruct H as [H _]. exact (Forall_lookup_1 _ _ _ _ H E). }
  assert (Hp' : particle_alive (particlePhysics dt s p)) by exact Hp.
  revert Hp'. generalize (particlePhysics dt s p). intros p' Hp'.
  set (r := match Particle.kind p' with
            | CrackleSpark => crackle dt p' s
            | _ => (p', s)
            end).
  assert (Hr : lives (ents (snd r)) /\ particle_alive (fst r)).
  { unfold r. destruct (Particle.kind p'); cbn [fst snd];
      try (split; [exact H | exact Hp']).
    split; [apply crackle_lives, H |].
    destruct (crackle_parent dt p' s) as [E1 E2].
    unfold particle_alive. rewrite E1, E2. exact Hp'. }
  destruct Hr as [[Hr1 Hr2] [Ha1 Ha2]].
  destruct (particleAge_life dt (fst r)) as [E1 E2].
  destruct (particleGone (snd r) (particleAge dt (fst r))) eqn:G;
    unfold lives; ents_cbn.
  - split; [apply Forall_splice1, Hr1 | exact Hr2].
  - split; [| exact Hr2]. apply Forall_set; [| exact Hr1].
    unfold particleGone in G.
    repeat (apply orb_false_elim in G; destruct G as [G _]).
    apply Qle_bool_gt in G.
    unfold particle_alive. rewrite E2. rewrite E1 in *. lra.
Qed.

Lemma simulate_lives dt : 0 <= dt -> triple lives (simulate dt) lives.
Proof.
  intros Hdt s H. unfold simulate. cbv zeta.
  set (s1 := if smokeParityEnabled s then _ else s).
  assert (H1 : lives (ents s1)) by (unfold s1; destruct (smokeParityEnabled s); exact H).
  clearbody s1.
  set (s2 := if _ || _ then _ else s1).
  assert (H2 : lives (ents s2)).
  { unfold s2. destruct (_ || _); [| exact H1].
    apply triple_down_loop; [intro; apply smokeIter_lives, Hdt | exact H1]. }
  clearbody s2.
  apply (triple_down_loop lives); [intro; apply particleIter_lives, Hdt |].
  apply (triple_down_loop lives); [intro; apply rocketIter_lives | exact H2].
Qed.

Lemma step_lives ts : triple lives (step ts) lives.
Proof.
  intros s H. unfold step. destruct (negb _); [exact H |]. cbv zeta.
  apply simulate_lives; [apply stepDt_ge |].
  apply (triple_quiet lives (updateQuality ts (stepDelta ts s))); [frame |].
  exact H.
Qed.

Lemma stop_lives s : lives (ents (stop s)).
Proof.
  unfold lives. rewrite stop_particles_empty, stop_smoke_empty.
  split; constructor.
Qed.

Lemma handle_lives e : triple lives (handle e) lives.
Proof.
  intros s H.
  assert (K : forall f, within fp_nolive f -> forall t, lives (ents t) -> lives (ents (f t)))
    by (intros f Hf; exact (triple_nolive f Hf)).
  assert (Hi : lives (ents (initOnce s))) by (apply K; [frame | exact H]).
  destruct e; cbn [handle]; unfold listening.
  - apply K; [frame | exact Hi].
  - apply stop_lives.
  - apply K; [frame | exact Hi].
  - apply K; [frame | exact Hi].
  - apply K; [frame | exact Hi].
  - apply burst_lives, Hi.
  - apply K; [frame | exact Hi].
  - cbv zeta.
    assert (H1 : lives
                   (ents (match stepRafId (loop s) with
                          | Some _ => step ts s | None => s end))).
    { destruct (stepRafId _); [apply step_lives |]; exact H. }
    destruct (launchRafId _); [apply K; [frame |] |]; exact H1.
  - destruct (timers s !! i); [| exact H].
    apply runTimer_lives. exact H.
  - destruct (inited _); [apply K; [frame |] |]; exact H.
  - destruct (inited _); [apply K; [frame |] |]; exact H.
  - destruct (inited _); [| exact H].
    destruct hidden; (apply K; [frame | exact H]).
  - destruct (inited _); [apply K; [frame |] |]; exact H.
  - destruct (inited _); [| exact H]. destruct hidden; [| apply K; [frame |]]; exact H.
  - destruct (inited _); [apply K; [frame |] |]; exact H.
  - destruct (inited _); [| exact H]. destruct hidden; [| apply K; [frame |]]; exact H.
  - exact H.
Qed.

Lemma run_lives es : triple lives (run es) lives.
Proof.
  induction es as [| e es IH]; intros s H; [exact H |].
  apply IH, handle_lives, H.
Qed.

(** X29. Dead entities never linger: in every reachable state each live
    particle and each live smoke puff has life left, and not more than it
    started with ([0 < life <= maxLife]).  Bursts and [spawnSmoke] add
    entities with their whole life left, the frame loops only shorten a
    life, and they retire what has run out in the same pass.  So the life
    fraction [life / maxLife] from which [drawParticle] and [drawSmoke]
    compute the opacity is always in (0, 1]. *)
Theorem live_particles_and_puffs_have_life_left (hst : Host) (es : list Event) :
  let s := run es (init hst) in
  (forall p, p ∈ particles (ents s) ->
             0 < Particle.life p <= Particle.maxLife p
             /\ 0 < Particle.life p / Particle.maxLife p <= 1)
  /\ (forall q, q ∈ smokePuffs (ents s) ->
                0 < Smoke.life q <= Smoke.maxLife q
                /\ 0 < Smoke.life q / Smoke.maxLife q <= 1).
Proof.
  cbv zeta.
  assert (H0 : lives (ents (init hst))) by (split; constructor).
  destruct (run_lives es _ H0) as [H1 H2].
  rewrite Forall_forall in H1. rewrite Forall_forall in H2.
  assert (A : forall a b : Q, 0 < a -> a <= b -> 0 < a / b <= 1).
  { intros a b Ha Hb. split.
    - apply Qlt_shift_div_l; lra.
    - apply Qle_shift_div_r; lra. }
  split.
  - intros p Hp. destruct (H1 p Hp) as [Ha Hb]. auto.
  - intros q Hq. destruct (H2 q Hq) as [Ha Hb]. auto.
Qed.

End RandomInRange.

End Fireworks.

(** * The model at work

    To run the model one has to say what the host's [Math] functions return.
    The stand-ins below are rational: a [Math.random] that alternates between
    0.25 and 0.75, one that always returns 0.995, the identity for
    [Math.pow(x, 0.78)] (exact at 0 and 1, monotone, and never above the true
    power on [0, 1]), Taylor polynomials for [cos] and [sin], and 355/113 for
    pi.  No theorem of the previous part depends on them. *)

Definition sample_random (n : nat) : Q := if Nat.even n then 0.25 else 0.75.

Definition late_random (n : nat) : Q := 0.995.

Definition sample_pow (x e : Q) : Q := x.

Definition sample_cos (t : Q) : Q := 1 - t * t / 2.

Definition sample_sin (t : Q) : Q := t - t * t * t / 6.

Definition sample_PI : Q := 355 # 113.

(** An 800 x 600 hero section, and one of 5 x 5 px; the clock reads 0. *)
Definition desktop : Host := mkHost 800 600 1280 720 2 0 true true.

Definition tiny : Host := mkHost 5 5 1280 720 2 0 true true.

Definition sample_handle : Event -> State -> State :=
  handle sample_random sample_pow sample_cos sample_sin sample_PI.

Definition sample_run : list Event -> State -> State :=
  run sample_random sample_pow sample_cos sample_sin sample_PI.

(** The script loaded on the desktop page, and started without celebration. *)
Definition loaded : State := init sample_random desktop.

Definition started : State := sample_handle (ApiStart (Some false)) loaded.

Lemma sample_random_range : forall n, 0 <= sample_random n < 1.
Proof. intros n. unfold sample_random. destruct (Nat.even n); lra. Qed.

Lemma late_random_range : forall n, 0 <= late_random n < 1.
Proof. intros n. unfold late_random. lra. Qed.

Lemma sample_pow_monotone :
  forall a b, 0 <= a -> a <= b -> b <= 1 -> sample_pow a 0.78 <= sample_pow b 0.78.
Proof. intros a b _ H _. exact H. Qed.

(** ** C1: a crackle burst on the empty, started page fills the 50 slots *)

Lemma bursts_clipped_witness :
  (plen started <= maxParticlesCap started)%Z
  /\ (maxParticlesCap started - plen started <= intended sample_random Crackle started)%Z
  /\ (plen (explodePattern sample_random sample_cos sample_sin sample_PI
              Crackle 400 300 120 started) - plen started
      = maxParticlesCap started - plen started)%Z.
Proof.
  assert (H1 : (plen started <= maxParticlesCap started)%Z)
    by (vm_compute; discriminate).
  assert (H2 : (maxParticlesCap started - plen started
                <= intended sample_random Crackle started)%Z)
    by (vm_compute; discriminate).
  split; [exact H1 |]. split; [exact H2 |].
  exact (proj1 (bursts_clipped_to_particle_headroom
                  sample_random sample_cos sample_sin sample_PI started H1)
               Crackle 400 300 120 H2).
Defined.

Example crackle_burst_fills_capacity :
  plen (explodePattern sample_random sample_cos sample_sin sample_PI
          Crackle 400 300 120 started) = 50%Z.
Proof. vm_compute. reflexivity. Qed.

(** ** C2: what [allocParticle] returns after a burst and a [stop] *)

(** A celebration burst went off and [stop] released its particles. *)
Definition recycled : State :=
  sample_run [ApiStart None; TimerFires 0; ApiStop] loaded.

(** The claim asks for a default-valued record; the pool returns the comet
    released last, at the burst point, with a life of 61. *)
Lemma alloc_returns_stale_record :
  let p := fst (allocParticle recycled) in
  p <> baseParticle
  /\ Particle.kind p = Comet
  /\ Particle.x p == 400 /\ Particle.y p == 372
  /\ Particle.life p == 61
  /\ ~ Particle.life p == Particle.life baseParticle.
Proof.
  vm_compute. repeat split; intro H; discriminate H.
Qed.

Lemma alloc_witness :
  particlePool (ents loaded) = []
  /\ allocParticle loaded = (baseParticle, loaded)
  /\ allocParticle (freeParticle (fst (allocParticle recycled)) loaded)
     = (fst (allocParticle recycled), loaded).
Proof.
  assert (H : particlePool (ents loaded) = []) by reflexivity.
  destruct (alloc_returns_released_record_as_is loaded) as [_ [H2 [_ [_ [H5 _]]]]].
  split; [exact H |]. split; [exact (H5 H) |]. apply H2.
Defined.

(** ** C3 *)

Lemma fresh_particle_witness :
  ~ 61 == 0
  /\ (let p := fst (makeParticle sample_random sample_PI 400 372 10 (-20) 61 2 96 Comet
                      recycled) in
      Particle.life p / Particle.maxLife p == 1).
Proof.
  assert (H : ~ 61 == 0) by (intro H; discriminate H).
  split; [exact H |].
  exact (proj2 (proj2 (proj2 (recycled_records_fully_overwritten sample_random sample_PI)))
               400 372 10 (-20) 61 2 96 Comet recycled H).
Defined.

(** ** C5: the quality can rise while the frame rate is held low *)

(** One slow frame, then two fast ones within 12 ms: the quality is down
    to 0.9969 while the smoothed FPS is back up at about 72.9. *)
Definition afterHiccup : State := hiccup sample_pow loaded.

(** From there the delta is held at 120 ms, an instantaneous FPS of 8.33
    whose [qualityFromFps] (0.55) is below the current quality: after the
    second invocation the quality is higher than it was. *)
Lemma quality_rises_under_constant_low_fps :
  qualityFromFps sample_pow (fpsInstantOf 120) < quality (perf afterHiccup)
  /\ quality (perf afterHiccup) == 0.9969
  /\ quality (perf (feed sample_pow 120 [372] afterHiccup)) == 0.9969
  /\ quality (perf (feed sample_pow 120 [372; 492] afterHiccup)) == 0.9970395
  /\ quality (perf afterHiccup) < quality (perf (feed sample_pow 120 [372; 492] afterHiccup)).
Proof. vm_compute. repeat split; intro H; discriminate H. Qed.

(** The rise does not hinge on [sample_pow]: [quality_rises_after_hiccup]
    gives it for every power function that is monotone on [[0, 1]], below 1
    there and 1 at 1, as [Math.pow(x, 0.78)] is.  Here it is at
    [sample_pow]. *)
Example quality_rises_after_hiccup_sample :
  qualityFromFps sample_pow (fpsInstantOf 120) < quality (perf afterHiccup)
  /\ quality (perf (feed sample_pow 120 [372] afterHiccup)) = quality (perf afterHiccup)
  /\ quality (perf afterHiccup) < quality (perf (feed sample_pow 120 [372; 492] afterHiccup)).
Proof.
  apply (quality_rises_after_hiccup sample_pow).
  - intros x H. exact H.
  - exact sample_pow_monotone.
  - intros x _ H. exact H.
  - reflexivity.
Qed.

Lemma quality_descends_witness :
  settled sample_pow (fpsInstantOf 50) loaded
  /\ quality (perf (updateQuality sample_pow 900 50 (feed sample_pow 50 [300; 600] loaded)))
     <= quality (perf (feed sample_pow 50 [300; 600] loaded))
  /\ qualityFromFps sample_pow (fpsInstantOf 50)
     <= quality (perf (updateQuality sample_pow 900 50 (feed sample_pow 50 [300; 600] loaded))).
Proof.
  assert (H : settled sample_pow (fpsInstantOf 50) loaded).
  { apply (settled_reset sample_pow).
    - vm_compute. intro H. discriminate H.
    - reflexivity. }
  destruct (quality_descends_to_target_under_constant_low_fps
              sample_pow sample_pow_monotone 50 loaded [300; 600] 900 H)
    as [H1 [_ [H3 _]]].
  split; [exact H |]. split; [exact H1 | exact H3].
Defined.

(** ** C8: a first rocket at 2100 ms *)

(** The frames of a steady 60 Hz display: one every 50/3 ms. *)
Definition frames60 (n : nat) : list Q :=
  map (fun k => inject_Z (Z.of_nat k) * (50 # 3)) (seq 1 n).

Definition launchFrames (n : nat) (s : State) : State :=
  fold_left (fun s ts => autoLaunch late_random ts s) (frames60 n) s.

Definition lateStarted : State :=
  handle late_random sample_pow sample_cos sample_sin sample_PI
         (ApiStart (Some false)) (init late_random desktop).

(** With every draw at 0.995 the interval is 2094.75 ms: the 125 frames up
    to 2083.3 ms launch nothing, and the first rocket goes up in frame 126,
    at 2100 ms after [start] -- not within [[1050, 2100)]. *)
Lemma first_rocket_at_2100ms :
  w (view lateStarted) == 800 /\ h (view lateStarted) == 600
  /\ quality (perf lateStarted) == 1
  /\ lastLaunch (loop lateStarted) == 0
  /\ timers lateStarted = []
  /\ rockets (ents (launchFrames 125 lateStarted)) = []
  /\ length (rockets (ents (launchFrames 126 lateStarted))) = 1%nat
  /\ last (frames60 125) = Some (6250 # 3)
  /\ last (frames60 126) = Some (6300 # 3)
  /\ (6300 # 3) == 2100
  /\ ~ (1050 <= (6300 # 3) - lastLaunch (loop lateStarted) < 2100).
Proof.
  vm_compute.
  repeat split; try reflexivity.
  intros [_ H]. discriminate H.
Qed.

Lemma first_launch_witness :
  awaiting (now (host loaded)) started
  /\ 1050 <= drawnInterval sample_random started < 2100
  /\ launches sample_random 1000 started = false
  /\ launches sample_random 2100 started = true
  /\ (1 <= length (rockets (ents (autoLaunch sample_random 2100 started))) <= 2)%nat.
Proof.
  pose proof (first_launch_after_1050ms_by_frame_draw sample_random sample_random_range)
    as T.
  assert (A : awaiting (now (host loaded)) started).
  { apply (proj1 (proj2 (T loaded 0 0))).
    - reflexivity.
    - vm_compute. intro H. discriminate H.
    - vm_compute. intro H. discriminate H. }
  change (now (host loaded)) with 0 in A |- *.
  destruct (T started 0 1000) as [_ [_ [T3 [T4 _]]]].
  destruct (T started 0 2100) as [_ [_ [_ [_ [_ [T6 [T7 _]]]]]]].
  assert (L : launches sample_random 2100 started = true).
  { apply (T7 A). vm_compute. intro H. discriminate H. }
  split; [exact A |]. split; [exact (T3 A) |].
  split; [apply (T4 A); vm_compute; intro H; discriminate H |].
  split; [exact L |]. apply (T6 A L).
Defined.

(** ** C9: a burst on a 5 x 5 px surface is dropped *)

Definition tinyStarted : State :=
  sample_handle (ApiStart (Some false)) (init sample_random tiny).

Lemma burst_dropped_on_small_surface :
  w (view tinyStarted) == 5 /\ h (view tinyStarted) == 5
  /\ 0 < w (view tinyStarted) * h (view tinyStarted)
  /\ running (loop tinyStarted) = true
  /\ sample_handle (ApiBurst (Some 2) (Some 2)) tinyStarted = tinyStarted
  /\ sample_handle (ApiBurst None None) tinyStarted = tinyStarted
  /\ burstGenerator sample_random sample_cos sample_sin sample_PI 2 2 tinyStarted
     <> tinyStarted.
Proof.
  vm_compute. repeat split; try reflexivity. intro H. discriminate H.
Qed.

Lemma burst_guard_witness :
  (10 <= w (view started) /\ 10 <= h (view started))
  /\ burst sample_random sample_cos sample_sin sample_PI (Some 400) (Some 300) started
     = burstGenerator sample_random sample_cos sample_sin sample_PI 400 300 started
  /\ (w (view tinyStarted) < 10 \/ h (view tinyStarted) < 10)
  /\ burst sample_random sample_cos sample_sin sample_PI (Some 2) (Some 2) tinyStarted
     = tinyStarted.
Proof.
  assert (H1 : 10 <= w (view started) /\ 10 <= h (view started))
    by (vm_compute; split; intro H; discriminate H).
  assert (H2 : w (view tinyStarted) < 10 \/ h (view tinyStarted) < 10)
    by (left; vm_compute; reflexivity).
  split; [exact H1 |].
  split.
  - exact (proj1 (proj1 (burst_accepted_iff_surface_at_least_10px
                           sample_random sample_cos sample_sin sample_PI
                           (Some 400) (Some 300) started) H1)).
  - split; [exact H2 |].
    exact (proj2 (burst_accepted_iff_surface_at_least_10px
                    sample_random sample_cos sample_sin sample_PI
                    (Some 2) (Some 2) tinyStarted) H2).
Defined.

(** ** C10: a celebration timer delivered after [stop] *)

Definition celebrating : State := sample_handle (ApiStart None) loaded.

Lemma celebration_after_stop_witness :
  timers (stop celebrating) = celebration
  /\ running (loop (stop celebrating)) = false
  /\ (0 < plen (runTimer sample_random sample_cos sample_sin sample_PI
                  (CelebrateBurst 0.50 0.62) (stop celebrating)))%Z
  /\ runTimer sample_random sample_cos sample_sin sample_PI
       (SecondaryBreak 400 372 5 5 96) (stop celebrating) = stop celebrating.
Proof.
  pose proof (celebratory_timers_ignore_running
                sample_random sample_cos sample_sin sample_PI sample_random_range) as T.
  destruct (T celebrating) as [_ [_ [_ [T4 [_ [T6 [_ [_ [T9 _]]]]]]]]].
  destruct (T (stop celebrating)) as [_ [_ [_ [_ [_ [_ [_ [_ [_ [_ T11]]]]]]]]]].
  split; [rewrite T4; reflexivity |].
  split; [exact T6 |].
  split.
  - apply T9; vm_compute; intro H; discriminate H.
  - apply T11. exact T6.
Defined.

Example celebration_after_stop_runs :
  plen (sample_run [ApiStart None; ApiStop; TimerFires 0] loaded) = 50%Z
  /\ running (loop (sample_run [ApiStart None; ApiStop; TimerFires 0] loaded)) = false.
Proof. vm_compute. split; reflexivity. Qed.

(** ** Further properties at work *)

(** The loaded page with the quality at its floor. *)
Definition lowQuality : State := set_perf (with_quality 0.55) loaded.

(** A page whose hero section has collapsed: the window size is used. *)
Definition collapsed : Host := mkHost 0 0 1280 720 2 0 true true.

(** The started page, one second later. *)
Definition startedLater : State :=
  set_host (fun _ => mkHost 800 600 1280 720 2 1000 true true) started.

(** The started page after a manual burst. *)
Definition afterBurst : State := sample_handle (ApiBurst None None) started.

Lemma adaptive_caps_witness :
  quality (perf lowQuality) <= quality (perf loaded)
  /\ (maxParticlesCap lowQuality <= maxParticlesCap loaded)%Z.
Proof.
  assert (H : quality (perf lowQuality) <= quality (perf loaded))
    by (vm_compute; intro C; discriminate C).
  split; [exact H |].
  exact (proj1 (proj2 (proj1 (adaptive_caps_in_every_reachable_state
                                sample_random sample_pow sample_cos sample_sin sample_PI)
                             lowQuality loaded H))).
Defined.

Lemma fps_estimate_witness : 4 <= 6 /\ fpsInstantOf 4 == 1000 / 6.
Proof.
  assert (H : 4 <= 6) by (vm_compute; intro C; discriminate C).
  split; [exact H |].
  exact (proj1 (proj2 (fps_estimate_stays_in_range
                         sample_random sample_pow sample_cos sample_sin sample_PI)) 4 H).
Defined.

Lemma quality_steps_witness :
  100 - lastQualityTs (perf (sample_run [] loaded)) <= 220
  /\ quality (perf (updateQuality sample_pow 100 120 (sample_run [] loaded)))
     = quality (perf (sample_run [] loaded)).
Proof.
  assert (H : 100 - lastQualityTs (perf (sample_run [] loaded)) <= 220)
    by (vm_compute; intro C; discriminate C).
  split; [exact H |].
  exact (proj1 (proj2 (proj2 (quality_moves_by_small_steps
                                sample_random sample_pow sample_cos sample_sin sample_PI
                                desktop [] 100 120))) H).
Defined.

Lemma halted_witness :
  running (loop loaded) = false
  /\ forallb frameOrClick [Frame 16; Click 10 0; Frame 33] = true
  /\ sample_run [Frame 16; Click 10 0; Frame 33] loaded = loaded.
Proof.
  assert (H1 : running (loop loaded) = false) by reflexivity.
  assert (H2 : forallb frameOrClick [Frame 16; Click 10 0; Frame 33] = true)
    by reflexivity.
  split; [exact H1 |]. split; [exact H2 |].
  exact (proj1 (halted_simulation_ignores_frames_and_clicks
                  sample_random sample_pow sample_cos sample_sin sample_PI
                  loaded [Frame 16; Click 10 0; Frame 33] H1 H2)).
Defined.

Lemma click_window_witness :
  100 < now (host loaded) + 600
  /\ sample_handle (Click 300 0)
       (sample_handle (clockAt 100 (sample_handle (ApiStart None) loaded))
          (sample_handle (ApiStart None) loaded))
     = sample_handle (clockAt 100 (sample_handle (ApiStart None) loaded))
         (sample_handle (ApiStart None) loaded).
Proof.
  assert (H : 100 < now (host loaded) + 600) by (vm_compute; reflexivity).
  split; [exact H |].
  exact (proj1 (proj2 (proj2 (clicks_right_after_start_or_resume_are_ignored
                                sample_random sample_pow sample_cos sample_sin sample_PI
                                loaded None 100 300 0))) H).
Defined.

Lemma initialises_once_witness :
  inited (loop loaded) = false /\ domEvent (Click 10 0) = true
  /\ sample_handle (Click 10 0) loaded = loaded.
Proof.
  assert (H1 : inited (loop loaded) = false) by reflexivity.
  assert (H2 : domEvent (Click 10 0) = true) by reflexivity.
  split; [exact H1 |]. split; [exact H2 |].
  exact (proj1 (script_initialises_once_on_first_api_call
                  sample_random sample_pow sample_cos sample_sin sample_PI
                  loaded (Click 10 0)) H1 H2).
Defined.

Lemma playPop_witness :
  (audioUnlocked (sfx loaded) = false \/ sfxEnabled (host loaded) = false)
  /\ playPop sample_random loaded = loaded.
Proof.
  assert (H : audioUnlocked (sfx loaded) = false \/ sfxEnabled (host loaded) = false)
    by (left; reflexivity).
  split; [exact H |].
  exact (proj1 (playPop_is_throttled_to_one_pop_per_120ms sample_random loaded) H).
Defined.

Lemma resize_witness :
  rectWidth (host (init sample_random collapsed)) <= 2
  /\ fst (safeHeroRect (init sample_random collapsed))
     = innerWidth (host (init sample_random collapsed)).
Proof.
  assert (H : rectWidth (host (init sample_random collapsed)) <= 2)
    by (vm_compute; intro C; discriminate C).
  split; [exact H |].
  exact (proj1 (proj2 (proj2 (resize_floors_the_size_and_caps_the_pixel_ratio
                                (init sample_random collapsed)))) H).
Defined.

Lemma full_array_witness :
  (maxParticlesCap afterBurst <= plen afterBurst)%Z
  /\ explodePattern sample_random sample_cos sample_sin sample_PI Ring 400 300 120
       afterBurst = afterBurst.
Proof.
  assert (H : (maxParticlesCap afterBurst <= plen afterBurst)%Z)
    by (vm_compute; intro C; discriminate C).
  split; [exact H |].
  exact (proj1 (bursts_on_a_full_particle_array_make_nothing
                  sample_random sample_cos sample_sin sample_PI
                  Ring 400 300 120 baseParticle afterBurst H)).
Defined.

Lemma rockets_origin_witness :
  frameOrClick ApiPause = false
  /\ (rockets (ents (sample_handle ApiPause started)) = rockets (ents started)
      \/ rockets (ents (sample_handle ApiPause started)) = []).
Proof.
  assert (H : frameOrClick ApiPause = false) by reflexivity.
  split; [exact H |].
  exact (proj1 (rockets_come_from_launches_and_clicks_only
                  sample_random sample_pow sample_cos sample_sin sample_PI
                  ApiPause started) H).
Defined.

Lemma fade_witness :
  quality (perf lowQuality) <= quality (perf loaded)
  /\ fadeAlpha loaded <= fadeAlpha lowQuality.
Proof.
  assert (H : quality (perf lowQuality) <= quality (perf loaded))
    by (vm_compute; intro C; discriminate C).
  split; [exact H |].
  exact (proj1 (proj2 (fade_and_bloom_follow_the_quality
                         sample_random sample_pow sample_cos sample_sin sample_PI))
               lowQuality loaded H).
Defined.

(** A puff half-way through its life. *)
Definition halfPuff : Smoke.t := Smoke.mk 400 300 0 (-5) 30 60 30 0.1.

Lemma drawSmoke_witness :
  0 < Smoke.maxLife halfPuff /\ drawSmoke false halfPuff = None.
Proof.
  assert (H : 0 < Smoke.maxLife halfPuff) by (vm_compute; reflexivity).
  split; [exact H |].
  exact (proj1 (drawSmoke_fades_and_expands halfPuff H)).
Defined.

Definition comet : Particle.t := Particle.set_kind Comet baseParticle.

Lemma aging_witness :
  Particle.kind comet = Comet
  /\ 0.35 <= Particle.heat (particleAge sample_sin (stepDt 1000 started) comet).
Proof.
  assert (H : Particle.kind comet = Comet) by reflexivity.
  split; [exact H |].
  exact (proj1 (proj1 (proj2 (proj2 (proj2
           (a_step_ages_entities_by_at_most_two_frames
              sample_sin 1000 started comet halfPuff)))) H)).
Defined.

(** A rocket flying up at 1000 px/s. *)
Definition climbing : Rocket.t :=
  Rocket.mk 400 610 400 610 0 (-1000) 300 120 0 Peony 0.1 false.

Lemma rocket_flight_witness :
  Forall (fun dt => 0 <= dt) [1; 1] /\ - 1200 <= Rocket.vy climbing <= 0
  /\ 1200 <= 650 * total [1; 1] /\ [1; 1] <> []
  /\ stillFlying [1; 1] climbing = false.
Proof.
  assert (H1 : Forall (fun dt => 0 <= dt) [1; 1])
    by (repeat constructor; vm_compute; intro C; discriminate C).
  assert (H2 : - 1200 <= Rocket.vy climbing <= 0)
    by (split; vm_compute; intro C; discriminate C).
  assert (H3 : 1200 <= 650 * total [1; 1]) by (vm_compute; intro C; discriminate C).
  assert (H4 : [1; 1] <> []) by discriminate.
  split; [exact H1 |]. split; [exact H2 |]. split; [exact H3 |]. split; [exact H4 |].
  exact (proj1 (proj2 (proj2 (a_rocket_explodes_within_two_simulated_seconds
                                sample_random sample_cos sample_sin sample_PI
                                [1; 1] climbing H1 H2))) H3 H4).
Defined.

Lemma recovery_witness :
  quality_ok lowQuality
  /\ 60 <= fpsSmoothed (perf (measureFps 10 lowQuality))
  /\ 220 < 240 - lastQualityTs (perf lowQuality)
  /\ 1 - quality (perf (updateQuality sample_pow 240 10 lowQuality))
     == 0.955 * (1 - quality (perf lowQuality)).
Proof.
  assert (H1 : quality_ok lowQuality)
    by (split; vm_compute; intro C; discriminate C).
  assert (H2 : 60 <= fpsSmoothed (perf (measureFps 10 lowQuality)))
    by (vm_compute; intro C; discriminate C).
  assert (H3 : 220 < 240 - lastQualityTs (perf lowQuality)) by (vm_compute; reflexivity).
  split; [exact H1 |]. split; [exact H2 |]. split; [exact H3 |].
  exact (proj1 (proj1 (quality_recovers_geometrically_at_full_frame_rate
                         sample_pow (fun x H => H) 240 10 lowQuality H1) H2 H3)).
Defined.

Lemma spawnRocket_witness :
  (len (rockets (ents started)) < maxRocketsCap started)%Z
  /\ 10 <= w (view started) /\ 10 <= h (view started)
  /\ exists r,
       rockets (ents (spawnRocket sample_random (Some 123) started))
       = push (rockets (ents started)) r
       /\ Rocket.y r = h (view started) + 10.
Proof.
  assert (H1 : (len (rockets (ents started)) < maxRocketsCap started)%Z)
    by (vm_compute; reflexivity).
  assert (H2 : 10 <= w (view started)) by (vm_compute; intro C; discriminate C).
  assert (H3 : 10 <= h (view started)) by (vm_compute; intro C; discriminate C).
  split; [exact H1 |]. split; [exact H2 |]. split; [exact H3 |].
  destruct (proj2 (spawnRocket_places_one_rocket_below_the_surface
                     sample_random sample_random_range (Some 123) started) H1 H2 H3)
    as [r [E1 [E2 _]]].
  exists r. split; [exact E1 | exact E2].
Defined.

Lemma spawnSmoke_witness :
  smokeSprite (host started) = true
  /\ (len (smokePuffs (ents started)) < maxSmokeCap started)%Z
  /\ exists p,
       smokePuffs (ents (spawnSmoke sample_random 400 300 started))
       = push (smokePuffs (ents started)) p
       /\ Smoke.maxLife p = Smoke.life p.
Proof.
  assert (H1 : smokeSprite (host started) = true) by reflexivity.
  assert (H2 : (len (smokePuffs (ents started)) < maxSmokeCap started)%Z)
    by (vm_compute; reflexivity).
  split; [exact H1 |]. split; [exact H2 |].
  destruct (proj2 (spawnSmoke_adds_one_rising_puff
                     sample_random sample_random_range 400 300 started) H1 H2)
    as [p [E1 [_ [_ [_ [_ [_ [E2 _]]]]]]]].
  exists p. split; [exact E1 | exact E2].
Defined.

Lemma makeParticle_witness :
  (forall n, 0 <= sample_random n < 1)
  /\ Particle.x (fst (makeParticle sample_random sample_PI 400 300 10 (-20) 60 1.6 120
                        Spark started)) = 400.
Proof.
  split; [exact sample_random_range |].
  exact (proj1 (makeParticle_sets_fields_and_draws_multipliers
                  sample_random sample_PI sample_random_range
                  400 300 10 (-20) 60 1.6 120 Spark started)).
Defined.

Lemma burst_fills_witness :
  (forall n, 0 <= sample_random n < 1)
  /\ plen (explodePattern sample_random sample_cos sample_sin sample_PI
             Palm 400 300 120 started)
     = Z.max (plen started) (maxParticlesCap started).
Proof.
  split; [exact sample_random_range |].
  exact (proj1 (proj2 (every_burst_fills_the_particle_array
                         sample_random sample_cos sample_sin sample_PI
                         sample_random_range Palm 400 300 120 started))).
Defined.

Lemma no_secondary_break_witness :
  (forall n, 0 <= sample_random n < 1)
  /\ forallb isCelebration
       (timers (sample_run [ApiStart None; TimerFires 0; Frame 16] loaded)) = true.
Proof.
  split; [exact sample_random_range |].
  exact (proj1 (secondary_break_is_never_scheduled
                  sample_random sample_pow sample_cos sample_sin sample_PI
                  sample_random_range desktop
                  [ApiStart None; TimerFires 0; Frame 16] ApiPause)).
Defined.

Lemma launch_interval_witness :
  quality_ok started /\ running (loop started) = true
  /\ 1000 - lastLaunch (loop started) <= launchBase started
  /\ ents (autoLaunch sample_random 1000 started) = ents started.
Proof.
  assert (H1 : quality_ok started) by (split; vm_compute; intro C; discriminate C).
  assert (H2 : running (loop started) = true) by reflexivity.
  assert (H3 : 1000 - lastLaunch (loop started) <= launchBase started)
    by (vm_compute; intro C; discriminate C).
  split; [exact H1 |]. split; [exact H2 |]. split; [exact H3 |].
  exact (proj1 (proj1 (proj2 (proj2 (auto_launch_interval_for_any_width_and_quality
                                       sample_random sample_random_range
                                       1000 started H1 H2))) H3)).
Defined.

(** A crackling particle whose timer is about to run out. *)
Definition crackling : Particle.t :=
  Particle.set_crackleTimer 0.01 (Particle.set_kind CrackleSpark baseParticle).

Lemma crackle_witness :
  quality_ok started
  /\ (plen started
      <= plen (snd (crackle sample_random sample_cos sample_sin sample_PI
                      0.016 crackling started))
      <= plen started + 2)%Z.
Proof.
  assert (H : quality_ok started) by (split; vm_compute; intro C; discriminate C).
  split; [exact H |].
  exact (proj1 (crackle_spawns_at_most_two_micro_sparks
                  sample_random sample_cos sample_sin sample_PI
                  sample_random_range 0.016 crackling started H)).
Defined.

Lemma no_glitter_witness :
  (0 < roomForParticles started)%Z
  /\ explodePeony sample_random sample_cos sample_sin sample_PI 400 300 120 started
     = exec (c <- rand sample_random 110 160 ;;
             modify (for_loop (Z.to_nat (Z.min (Math_floor c) (roomForParticles started)))
                              (fun _ => peonySpark sample_random sample_cos sample_sin
                                          sample_PI 400 300 120)) ;;;
             _ <- rand sample_random 26 52 ;;
             ret tt) started.
Proof.
  assert (H : (0 < roomForParticles started)%Z) by (vm_compute; reflexivity).
  split; [exact H |].
  exact (proj1 (peony_glitter_and_ring_core_never_spawn
                  sample_random sample_cos sample_sin sample_PI
                  sample_random_range 400 300 120 started H)).
Defined.

Lemma click_launch_witness :
  inited (loop startedLater) = true /\ running (loop startedLater) = true
  /\ ignoreClicksUntil (loop startedLater) <= now (host startedLater)
  /\ (len (rockets (ents startedLater)) < maxRocketsCap startedLater)%Z
  /\ 10 <= w (view startedLater) /\ 10 <= h (view startedLater)
  /\ exists r,
       rockets (ents (sample_handle (Click 350 50) startedLater))
         !! length (rockets (ents startedLater)) = Some r
       /\ Rocket.x r = 350 - 50.
Proof.
  assert (H1 : inited (loop startedLater) = true) by reflexivity.
  assert (H2 : running (loop startedLater) = true) by reflexivity.
  assert (H3 : ignoreClicksUntil (loop startedLater) <= now (host startedLater))
    by (vm_compute; intro C; discriminate C).
  assert (H4 : (len (rockets (ents startedLater)) < maxRocketsCap startedLater)%Z)
    by (vm_compute; reflexivity).
  assert (H5 : 10 <= w (view startedLater)) by (vm_compute; intro C; discriminate C).
  assert (H6 : 10 <= h (view startedLater)) by (vm_compute; intro C; discriminate C).
  split; [exact H1 |]. split; [exact H2 |]. split; [exact H3 |].
  split; [exact H4 |]. split; [exact H5 |]. split; [exact H6 |].
  destruct (proj1 (a_click_launches_a_rocket_at_the_click_position
                     sample_random sample_pow sample_cos sample_sin sample_PI
                     sample_random_range 350 50 startedLater H1 H2 H3 H4 H5 H6))
    as [r [E1 [E2 _]]].
  exists r. split; [exact E1 | exact E2].
Defined.

Lemma life_left_witness :
  (forall n, 0 <= sample_random n < 1)
  /\ forall p,
       p ∈ particles
             (ents (run sample_random sample_pow sample_cos sample_sin sample_PI
                        [ApiStart None; TimerFires 0; Frame 16]
                        (init sample_random desktop))) ->
       0 < Particle.life p <= Particle.maxLife p.
Proof.
  split; [exact sample_random_range |].
  intros p Hp.
  exact (proj1 (proj1 (live_particles_and_puffs_have_life_left
                         sample_random sample_pow sample_cos sample_sin sample_PI
                         sample_random_range desktop
                         [ApiStart None; TimerFires 0; Frame 16]) p Hp)).
Defined.
